(** * QuadTreePress: quadtree image compression

    A shallow embedding of [tree.py], [work_with_images.py] and [main.py] and
    the properties of the quadtree construction, the depth-bounded leaf extraction
    and the point index that rides on the node geometry.

    Conventions of the embedding.
    - Python [int] is [Z].  Region and point coordinates are [Q]: the centre of
      a box is [left + (right - left) / 2], a dyadic rational that a binary64
      float holds exactly for every image size and the nine possible depths.
    - The colour statistics ([weighted_average], [color_from_histogram]) are
      computed in Python floats; they are read here in exact real arithmetic
      ([R]), with [x ** 0.5] as [sqrt x].
    - The image ([PIL.Image]) is an external object.  The tree only observes
      [image.size], [image.getbbox()] and [image.crop(box).histogram()]; these
      three observations form the record [Image].  [raster_image] builds such
      a record from a grid of RGB pixels, following Pillow's documentation.
    - A method that mutates its receiver returns the updated receiver; a
      reference to a node inside a tree is the list of child indices that
      leads to it.  Exceptions are the constructor [Raise] of [result].
    - [__build_tree] starts one thread per child and joins them all before it
      returns.  The tree that is built does not depend on how the threads are
      scheduled; the shared counter [self.__max_depth] does.  [build_tree] and
      [QuadTree_init] are the run in which every thread finishes before the
      next one is started; the module [Threads] gives the counter of every
      run, for every interleaving of the tests and the stores of the leaf
      threads. *)

From Stdlib Require Import ZArith QArith Qround Reals List Bool Lia Psatz.
From Stdlib Require Ascii String DecimalString.
Import ListNotations.

Open Scope Z_scope.

(** ** Python values shared by the modules *)

Inductive exn : Type :=
| TypeError
| ValueError
| IndexError.

(** Outcome of a call: a value, a raised exception, or (for the recursion that
    is driven by a fuel counter) exhaustion of the counter. *)
Inductive result (A : Type) : Type :=
| Ok (a : A)
| Raise (e : exn)
| OutOfFuel.

Arguments Ok {A} a.
Arguments Raise {A} e.
Arguments OutOfFuel {A}.

Definition bind {A B : Type} (r : result A) (k : A -> result B) : result B :=
  match r with
  | Ok a => k a
  | Raise e => Raise e
  | OutOfFuel => OutOfFuel
  end.

Notation "x <- r ;; k" := (bind r (fun x => k))
  (at level 61, r at next level, right associativity).

(** [range(a, b)] *)
Definition range (a b : Z) : list Z :=
  map (fun i => a + Z.of_nat i) (seq 0 (Z.to_nat (b - a))).

(** [enumerate(l)], counting from [i] *)
Fixpoint enumerate_from {A : Type} (i : Z) (l : list A) : list (Z * A) :=
  match l with
  | [] => []
  | x :: l' => (i, x) :: enumerate_from (i + 1) l'
  end.

Definition enumerate {A : Type} (l : list A) : list (Z * A) := enumerate_from 0 l.

(** [l[a:b]] for [0 <= a <= b] *)
Definition slice {A : Type} (a b : nat) (l : list A) : list A :=
  firstn (b - a) (skipn a l).

(** [sum] of a list of ints, and of a list of floats *)
Definition sumZ (l : list Z) : Z := fold_right Z.add 0 l.
Definition sumR (l : list R) : R := fold_right Rplus 0%R l.

Definition Qlt_bool (a b : Q) : bool := negb (Qle_bool b a).

(** ** The image, as the tree observes it *)

Module Pillow.

(** A box is [(left, top, right, bottom)]. *)
Definition box : Type := (Q * Q * Q * Q)%type.

Record Image : Type := mkImage {
  size : Z * Z;                          (* image.size *)
  getbbox : option (Z * Z * Z * Z);      (* image.getbbox() *)
  crop_histogram : box -> list Z         (* image.crop(box).histogram() *)
}.

(** *** A raster of RGB pixels

    Pillow's documented behaviour for a mode-RGB image: [getbbox] is the
    bounding box of the pixels that are not [(0, 0, 0)], and [None] when
    there is none; [crop] rounds the box with Python's [round] (half to
    even) and reads black outside the image; [histogram] concatenates the
    256 counts of the red, the green and the blue band. *)

Definition pixel : Type := (Z * Z * Z)%type.

Definition red (p : pixel) : Z := fst (fst p).
Definition green (p : pixel) : Z := snd (fst p).
Definition blue (p : pixel) : Z := snd p.

Definition black : pixel := (0, 0, 0).

Definition raster : Type := list (list pixel).

Definition raster_height (rows : raster) : Z := Z.of_nat (length rows).
Definition raster_width (rows : raster) : Z :=
  match rows with
  | [] => 0
  | row :: _ => Z.of_nat (length row)
  end.

Definition getpixel (rows : raster) (x y : Z) : pixel :=
  if (x <? 0) || (y <? 0) then black
  else nth (Z.to_nat x) (nth (Z.to_nat y) rows []) black.

Definition is_black (p : pixel) : bool :=
  (red p =? 0) && (green p =? 0) && (blue p =? 0).

Definition nonzero_coordinates (rows : raster) : list (Z * Z) :=
  filter (fun xy => negb (is_black (getpixel rows (fst xy) (snd xy))))
    (flat_map (fun y => map (fun x => (x, y)) (range 0 (raster_width rows)))
              (range 0 (raster_height rows))).

Definition raster_getbbox (rows : raster) : option (Z * Z * Z * Z) :=
  match nonzero_coordinates rows with
  | [] => None
  | (x, y) :: rest =>
      Some (fold_right Z.min x (map fst rest),
            fold_right Z.min y (map snd rest),
            fold_right Z.max x (map fst rest) + 1,
            fold_right Z.max y (map snd rest) + 1)
  end.

(** Python's [round]: to the nearest integer, a tie to the even one. *)
Definition round_half_even (q : Q) : Z :=
  let f := Qfloor q in
  let d := (q - inject_Z f)%Q in
  if Qlt_bool d (1 # 2) then f
  else if Qlt_bool (1 # 2) d then f + 1
  else if Z.even f then f else f + 1.

Definition crop_pixels (rows : raster) (b : box) : list pixel :=
  let '(left_, top, right_, bottom) := b in
  let x0 := round_half_even left_ in
  let y0 := round_half_even top in
  let x1 := round_half_even right_ in
  let y1 := round_half_even bottom in
  flat_map (fun y => map (fun x => getpixel rows x y) (range x0 x1)) (range y0 y1).

Definition band_histogram (band : pixel -> Z) (pixels : list pixel) : list Z :=
  map (fun i => Z.of_nat (length (filter (fun p => band p =? i) pixels)))
      (range 0 256).

Definition histogram (pixels : list pixel) : list Z :=
  band_histogram red pixels ++ band_histogram green pixels
    ++ band_histogram blue pixels.

Definition raster_image (rows : raster) : Image :=
  {| size := (raster_width rows, raster_height rows);
     getbbox := raster_getbbox rows;
     crop_histogram := fun b => histogram (crop_pixels rows b) |}.

End Pillow.

(** ** tree.py *)

Module Tree.
Import Pillow.

Definition MAX_DEPTH : Z := 8.
Definition ERROR_THRESHOLD : Z := 13.

(** *** class Point *)

Record Point : Type := mkPoint {
  x_coordinate : Q;
  y_coordinate : Q
}.

(** [Point.__eq__]: the first conjunct compares [self.x_coordinate] with
    [another.y_coordinate], as the source does. *)
Definition Point_eq (self another : Point) : bool :=
  Qeq_bool (x_coordinate self) (y_coordinate another)
  && Qeq_bool (y_coordinate self) (y_coordinate another).

(** *** Colour statistics *)

Definition weighted_average (hist : list Z) : R * R :=
  let total := sumZ hist in
  if 0 <? total then
    let weighted := sumZ (map (fun ix => fst ix * snd ix) (enumerate hist)) in
    let value := (IZR weighted / IZR total)%R in
    let error :=
      (sumR (map (fun ix => IZR (snd ix) * (value - IZR (fst ix)) ^ 2)
                 (enumerate hist))
       / IZR total)%R in
    (value, sqrt error)
  else (0%R, 0%R).

(** [int(x)] of a float: truncation towards zero. *)
Definition int_of_float (x : R) : Z :=
  if Rle_dec 0 x then Int_part x else - Int_part (- x).

Definition color_from_histogram (hist : list Z) : (Z * Z * Z) * R :=
  let '(red, red_error) := weighted_average (slice 0 256 hist) in
  let '(green, green_error) := weighted_average (slice 256 512 hist) in
  let '(blue, blue_error) := weighted_average (slice 512 768 hist) in
  let error :=
    (red_error * 0.2989 + green_error * 0.5870 + blue_error * 0.1140)%R in
  ((int_of_float red, int_of_float green, int_of_float blue), error).

(** *** class QuadtreeNode *)

#[warnings="-register-all"]
Inductive QuadtreeNode : Type := mkNode {
  border_box : box;
  depth : Z;
  childrens : option (list QuadtreeNode);  (* top left, top right, bottom left, bottom right *)
  is_leaf : bool;
  node_points : list Point;
  node_center_point : Point;
  average_color : Z * Z * Z;
  error : R
}.

Definition set_childrens (n : QuadtreeNode) (cs : option (list QuadtreeNode))
  : QuadtreeNode :=
  mkNode (border_box n) (depth n) cs (is_leaf n) (node_points n)
         (node_center_point n) (average_color n) (error n).

Definition set_is_leaf (n : QuadtreeNode) (value : bool) : QuadtreeNode :=
  mkNode (border_box n) (depth n) (childrens n) value (node_points n)
         (node_center_point n) (average_color n) (error n).

Definition set_node_points (n : QuadtreeNode) (ps : list Point) : QuadtreeNode :=
  mkNode (border_box n) (depth n) (childrens n) (is_leaf n) ps
         (node_center_point n) (average_color n) (error n).

(** [border_box[0]], ..., [border_box[3]] *)
Definition box_left (b : box) : Q := fst (fst (fst b)).
Definition box_top (b : box) : Q := snd (fst (fst b)).
Definition box_right (b : box) : Q := snd (fst b).
Definition box_bottom (b : box) : Q := snd b.

(** [QuadtreeNode.__init__] *)
Definition node_init (image : Image) (border : box) (depth0 : Z) : QuadtreeNode :=
  let left_right :=
    (box_left border + (box_right border - box_left border) / 2)%Q in
  let top_bottom :=
    (box_top border + (box_bottom border - box_top border) / 2)%Q in
  let hist := crop_histogram image border in
  let stats := color_from_histogram hist in
  mkNode border depth0 None false [] (mkPoint left_right top_bottom)
         (fst stats) (snd stats).

Arguments node_init : simpl never.

(** The four nodes that [split] creates, in the order of the list it stores. *)
Definition split_childrens (image : Image) (self : QuadtreeNode)
  : list QuadtreeNode :=
  let '(left_, top, right_, bottom) := border_box self in
  let center := node_center_point self in
  let top_left :=
    node_init image (left_, top, x_coordinate center, y_coordinate center)
              (depth self + 1) in
  let top_right :=
    node_init image (x_coordinate center, top, right_, y_coordinate center)
              (depth self + 1) in
  let bottom_left :=
    node_init image (left_, y_coordinate center, x_coordinate center, bottom)
              (depth self + 1) in
  let bottom_right :=
    node_init image (x_coordinate center, y_coordinate center, right_, bottom)
              (depth self + 1) in
  [top_left; top_right; bottom_left; bottom_right].

Definition split (image : Image) (self : QuadtreeNode) : QuadtreeNode :=
  set_childrens self (Some (split_childrens image self)).

(** *** The point index *)

(** [l[i]] followed by a call on the element: [IndexError] past the end. *)
Section ListAt.
Context {A B : Type} (f : A -> result B) (g : A -> result A).

Fixpoint call_at (i : nat) (l : list A) {struct l} : result B :=
  match l, i with
  | [], _ => Raise IndexError
  | a :: _, O => f a
  | _ :: l', S i' => call_at i' l'
  end.

Fixpoint update_at (i : nat) (l : list A) {struct l} : result (list A) :=
  match l, i with
  | [], _ => Raise IndexError
  | a :: l', O => a' <- g a ;; Ok (a' :: l')
  | a :: l', S i' => l'' <- update_at i' l' ;; Ok (a :: l'')
  end.
End ListAt.

Definition x_lt (point center : Point) : bool :=
  Qlt_bool (x_coordinate point) (x_coordinate center).
Definition x_ge (point center : Point) : bool :=
  Qle_bool (x_coordinate center) (x_coordinate point).
Definition y_lt (point center : Point) : bool :=
  Qlt_bool (y_coordinate point) (y_coordinate center).
Definition y_ge (point center : Point) : bool :=
  Qle_bool (y_coordinate center) (y_coordinate point).

(** [insert_point]: the first two tests return the result of the recursive
    call; the last two fall through to the [append].  The third and the
    fourth test exclude each other, so when the fourth holds the list [cs] is
    still the list of children of [self1]. *)
Fixpoint insert_point (self : QuadtreeNode) (point : Point) {struct self}
  : result QuadtreeNode :=
  let center := node_center_point self in
  let into (i : nat) (n : QuadtreeNode) (cs : list QuadtreeNode) :=
    cs' <- update_at (fun child => insert_point child point) i cs ;;
    Ok (set_childrens n (Some cs')) in
  match childrens self with
  | Some cs =>
      if x_lt point center && y_lt point center then into 0%nat self cs
      else if x_ge point center && y_lt point center then into 1%nat self cs
      else
        self1 <- (if x_lt point center && y_ge point center
                  then into 2%nat self cs else Ok self) ;;
        self2 <- (if x_ge point center && y_ge point center
                  then into 3%nat self1 cs else Ok self1) ;;
        Ok (set_node_points self2 (node_points self2 ++ [point]))
  | None => Ok (set_node_points self (node_points self ++ [point]))
  end.

(** The child that [find_node] (and [insert_point]) moves to. *)
Definition quadrant (self : QuadtreeNode) (point : Point) : option nat :=
  let center := node_center_point self in
  if x_lt point center && y_lt point center then Some 0%nat
  else if x_ge point center && y_lt point center then Some 1%nat
  else if x_lt point center && y_ge point center then Some 2%nat
  else if x_ge point center && y_ge point center then Some 3%nat
  else None.

(** [find_node]: the node that contains the point and the nodes visited. *)
Fixpoint find_node (self : QuadtreeNode) (point : Point)
  (search_list : list QuadtreeNode) {struct self}
  : result (QuadtreeNode * list QuadtreeNode) :=
  let search_list := search_list ++ [self] in
  match childrens self with
  | Some cs =>
      match quadrant self point with
      | Some i => call_at (fun child => find_node child point search_list) i cs
      | None => Ok (self, search_list)
      end
  | None => Ok (self, search_list)
  end.

(** The position of the node that [find_node] returns, as child indices. *)
Fixpoint find_node_ref (self : QuadtreeNode) (point : Point) {struct self}
  : result (list nat) :=
  match childrens self with
  | Some cs =>
      match quadrant self point with
      | Some i =>
          ref <- call_at (fun child => find_node_ref child point) i cs ;;
          Ok (i :: ref)
      | None => Ok []
      end
  | None => Ok []
  end.

(** Updating the node at a position. *)
Fixpoint update_ref (f : QuadtreeNode -> QuadtreeNode) (ref : list nat)
  (self : QuadtreeNode) {struct ref} : result QuadtreeNode :=
  match ref with
  | [] => Ok (f self)
  | i :: ref' =>
      match childrens self with
      | Some cs =>
          cs' <- update_at (update_ref f ref') i cs ;;
          Ok (set_childrens self (Some cs'))
      | None => Raise TypeError
      end
  end.

(** [list.remove(x)]: drops the first item that compares equal to [x]. *)
Fixpoint list_remove (x : Point) (l : list Point) : list Point :=
  match l with
  | [] => []
  | item :: l' => if Point_eq item x then l' else item :: list_remove x l'
  end.

(** The [for] loop of [remove_point]: the iterator holds an index into the
    list that the body shortens. *)
Fixpoint remove_loop (steps : nat) (index : nat) (points : list Point)
  (delete_point : Point) : list Point :=
  match steps with
  | O => points
  | S steps' =>
      match nth_error points index with
      | None => points
      | Some point =>
          if Point_eq point delete_point
          then remove_loop steps' (S index) (list_remove point points) delete_point
          else remove_loop steps' (S index) points delete_point
      end
  end.

Definition remove_point (self : QuadtreeNode) (delete_point : Point)
  : result QuadtreeNode :=
  current_node <- find_node_ref self delete_point ;;
  update_ref
    (fun n => set_node_points n
                (remove_loop (length (node_points n)) 0 (node_points n)
                             delete_point))
    current_node self.

Definition find_node_contain_point (self : QuadtreeNode) (search_point : Point)
  : result QuadtreeNode :=
  r <- find_node self search_point [] ;; Ok (fst r).

(** *** class QuadTree *)

Record QuadTree : Type := mkQuadTree {
  width : Z;
  height : Z;
  root : QuadtreeNode;
  max_depth : Z
}.

Definition error_le (err : R) (threshold : Z) : bool :=
  if Rle_dec err (IZR threshold) then true else false.

(** The threads of [__build_tree] in the run in which each thread finishes
    before the next one is started; the state is the shared
    [self.__max_depth].  The nodes that the threads build are the same in
    every run; for the counter in the other runs see [Threads]. *)
Fixpoint run_threads {A S : Type} (target : A -> S -> option (A * S))
  (args : list A) (s : S) : option (list A * S) :=
  match args with
  | [] => Some ([], s)
  | a :: args' =>
      match target a s with
      | Some (a', s') =>
          match run_threads target args' s' with
          | Some (l, s'') => Some (a' :: l, s'')
          | None => None
          end
      | None => None
      end
  end.

(** [__build_tree]: the node and [self.__max_depth] are updated in place; the
    recursion is driven by [fuel], [None] when it runs out. *)
Fixpoint build_tree (fuel : nat) (image : Image) (node : QuadtreeNode)
  (max_depth0 : Z) : option (QuadtreeNode * Z) :=
  match fuel with
  | O => None
  | S fuel' =>
      if (MAX_DEPTH <=? depth node) || error_le (error node) ERROR_THRESHOLD
      then
        let max_depth1 :=
          if max_depth0 <? depth node then depth node else max_depth0 in
        Some (set_is_leaf node true, max_depth1)
      else
        match run_threads (build_tree fuel' image)
                          (split_childrens image node) max_depth0 with
        | Some (cs, max_depth1) => Some (set_childrens node (Some cs), max_depth1)
        | None => None
        end
  end.

(** [QuadTree.__init__]; a box of [None] fails at [self.__border_box[0]]. *)
Definition QuadTree_init (image : Image) : result QuadTree :=
  match getbbox image with
  | None => Raise TypeError
  | Some (left_, top, right_, bottom) =>
      let root0 :=
        node_init image
          (inject_Z left_, inject_Z top, inject_Z right_, inject_Z bottom) 0 in
      match build_tree (S (Z.to_nat MAX_DEPTH)) image root0 0 with
      | Some (root1, max_depth1) =>
          Ok (mkQuadTree (fst (size image)) (snd (size image)) root1 max_depth1)
      | None => OutOfFuel
      end
  end.

Fixpoint get_leaf_nodes_recursion (node : QuadtreeNode) (depth0 : Z)
  (leaf_nodes : list QuadtreeNode) {struct node} : list QuadtreeNode :=
  if is_leaf node || (depth node =? depth0) then leaf_nodes ++ [node]
  else
    match childrens node with
    | Some cs =>
        fold_left (fun acc child => get_leaf_nodes_recursion child depth0 acc)
                  cs leaf_nodes
    | None => leaf_nodes
    end.

Definition get_leaf_nodes (self : QuadTree) (depth0 : Z)
  : result (list QuadtreeNode) :=
  if max_depth self <? depth0 then Raise ValueError
  else Ok (get_leaf_nodes_recursion (root self) depth0 []).

End Tree.

(** ** work_with_images.py *)

Module WorkWithImages.
Import Pillow Tree.

(** One call of [ImageDraw.rectangle]: the box, the fill colour and whether
    a black outline is asked for. *)
Record rectangle : Type := mkRectangle {
  rect_box : box;
  rect_fill : Z * Z * Z;
  rect_outline : bool
}.

(** An [Image.new] canvas and the rectangles drawn on it, in order. *)
Record picture : Type := mkPicture {
  canvas : Z * Z;
  drawn : list rectangle
}.

Record CreatorGifImages : Type := mkGif {
  frames : list picture;
  frames_count : Z;
  gif_number : Z
}.

(** The files that a run writes. *)
Inductive output : Type :=
| ImageSaved (image : picture)
| GifSaved (gif_frames : list picture).

Definition add_img_to_gif (image : picture) (gif : CreatorGifImages)
  : CreatorGifImages :=
  mkGif (frames gif ++ [image]) (frames_count gif + 1) (gif_number gif).

(** [create_gif]: [gif.frames[0].save(..., append_images=gif.frames[1:])] *)
Definition create_gif (gif : CreatorGifImages)
  : result (CreatorGifImages * list output) :=
  match frames gif with
  | [] => Raise IndexError
  | first :: rest =>
      Ok (mkGif [] 0 (gif_number gif + 1), [GifSaved (first :: rest)])
  end.

Definition create_image (quadtree : QuadTree) (level : Z) (borders : bool)
  : result picture :=
  let background :=
    mkRectangle (0, 0, inject_Z (width quadtree), inject_Z (height quadtree))%Q
                (0, 0, 0) false in
  leaf_nodes <- get_leaf_nodes quadtree level ;;
  Ok (mkPicture (width quadtree, height quadtree)
        (background
         :: map (fun node =>
                   mkRectangle (border_box node) (average_color node) borders)
                leaf_nodes)).

(** The loop [for value in range(MAX_DEPTH + 1)] of [compression_start]; the
    state is the [CreatorGifImages] object. *)
Fixpoint gif_loop (quadtree : QuadTree) (borders : bool) (values : list Z)
  (gif : CreatorGifImages) : CreatorGifImages * result unit :=
  match values with
  | [] => (gif, Ok tt)
  | value :: values' =>
      match create_image quadtree value borders with
      | Ok new_img =>
          gif_loop quadtree borders values' (add_img_to_gif new_img gif)
      | Raise e => (gif, Raise e)
      | OutOfFuel => (gif, OutOfFuel)
      end
  end.

(** [compression_start], from the opened image on: the files written and
    how the call ends.  The directory that [CreatorGifImages()] makes and the
    path it chooses are not part of the outputs. *)
Definition compression_start (original_image : Image) (level : Z)
  (borders gif : bool) : list output * result unit :=
  match QuadTree_init original_image with
  | Ok quadtree =>
      match create_image quadtree level borders with
      | Ok result_image =>
          let saved := [ImageSaved result_image] in
          if gif then
            match gif_loop quadtree borders (range 0 (MAX_DEPTH + 1))
                           (mkGif [] 0 1) with
            | (gif1, Ok _) =>
                match create_gif gif1 with
                | Ok (_, written) => (saved ++ written, Ok tt)
                | Raise e => (saved, Raise e)
                | OutOfFuel => (saved, OutOfFuel)
                end
            | (_, Raise e) => (saved, Raise e)
            | (_, OutOfFuel) => (saved, OutOfFuel)
            end
          else (saved, Ok tt)
      | Raise e => ([], Raise e)
      | OutOfFuel => ([], OutOfFuel)
      end
  | Raise e => ([], Raise e)
  | OutOfFuel => ([], OutOfFuel)
  end.

End WorkWithImages.

(** ** Vocabulary of the properties *)

Module Props.
Import Pillow Tree WorkWithImages.

(** A region is half-open: it holds its left and top edge and not its right
    and bottom edge. *)
Definition in_box (p : Point) (b : box) : bool :=
  let '(left_, top, right_, bottom) := b in
  Qle_bool left_ (x_coordinate p) && Qlt_bool (x_coordinate p) right_
  && Qle_bool top (y_coordinate p) && Qlt_bool (y_coordinate p) bottom.

(** The number of nodes of a list whose region holds the point. *)
Definition covering (p : Point) (l : list QuadtreeNode) : nat :=
  length (filter (fun n => in_box p (border_box n)) l).

(** The test that opens [__build_tree]. *)
Definition stop_rule (n : QuadtreeNode) : bool :=
  (MAX_DEPTH <=? depth n) || error_le (error n) ERROR_THRESHOLD.

(** The test that opens [get_leaf_nodes_recursion]. *)
Definition cut (d : Z) (n : QuadtreeNode) : bool :=
  is_leaf n || (depth n =? d).

(** The nodes of a tree in pre-order, each with its proper ancestors, the
    root first. *)
Fixpoint preorder (ancestors : list QuadtreeNode) (n : QuadtreeNode)
  {struct n} : list (list QuadtreeNode * QuadtreeNode) :=
  (ancestors, n)
  :: match childrens n with
     | Some cs => flat_map (preorder (ancestors ++ [n])) cs
     | None => []
     end.

(** A node is the first of its branch to be cut at depth [d]. *)
Definition first_cut (d : Z) (entry : list QuadtreeNode * QuadtreeNode) : bool :=
  cut d (snd entry) && forallb (fun a => negb (cut d a)) (fst entry).

(** [subnode x n]: [x] is [n] or one of its descendants. *)
Inductive subnode (x : QuadtreeNode) : QuadtreeNode -> Prop :=
| subnode_here : subnode x x
| subnode_child n cs c :
    childrens n = Some cs -> In c cs -> subnode x c -> subnode x n.

(** The node at a position. *)
Fixpoint node_at (n : QuadtreeNode) (ref : list nat) : option QuadtreeNode :=
  match ref with
  | [] => Some n
  | i :: ref' =>
      match childrens n with
      | Some cs =>
          match nth_error cs i with
          | Some c => node_at c ref'
          | None => None
          end
      | None => None
      end
  end.

(** The trees that [__build_tree] makes of a fresh node over box [b] at
    depth [d]. *)
Inductive built (image : Image) : box -> Z -> QuadtreeNode -> Prop :=
| built_stop b d :
    stop_rule (node_init image b d) = true ->
    built image b d (set_is_leaf (node_init image b d) true)
| built_split b d f0 f1 f2 f3 c0 c1 c2 c3 :
    stop_rule (node_init image b d) = false ->
    split_childrens image (node_init image b d) = [f0; f1; f2; f3] ->
    built image (border_box f0) (depth f0) c0 ->
    built image (border_box f1) (depth f1) c1 ->
    built image (border_box f2) (depth f2) c2 ->
    built image (border_box f3) (depth f3) c3 ->
    built image b d (set_childrens (node_init image b d) (Some [c0; c1; c2; c3])).

(** The sum of [f i] over [0 <= i < n], as the specification writes it. *)
Fixpoint Sigma (n : nat) (f : Z -> R) : R :=
  match n with
  | O => 0%R
  | S n' => (Sigma n' f + f (Z.of_nat n'))%R
  end.

(** [bins[i]] *)
Definition bin (bins : list Z) (i : Z) : Z := nth (Z.to_nat i) bins 0.

(** A channel histogram with all its mass, [count], at level [k]. *)
Definition spike (k count : Z) : list Z :=
  map (fun i => if i =? k then count else 0) (range 0 256).

(** The midpoint of a box. *)
Definition center (b : box) : Point :=
  mkPoint (box_left b + (box_right b - box_left b) / 2)%Q
          (box_top b + (box_bottom b - box_top b) / 2)%Q.

(** The four boxes that a box is cut into at a point: top left, top right,
    bottom left, bottom right. *)
Definition quadrants (b : box) (c : Point) : list box :=
  let '(left_, top, right_, bottom) := b in
  [(left_, top, x_coordinate c, y_coordinate c);
   (x_coordinate c, top, right_, y_coordinate c);
   (left_, y_coordinate c, x_coordinate c, bottom);
   (x_coordinate c, y_coordinate c, right_, bottom)].

(** A tree in which every node has no children or four. *)
Inductive four_way : QuadtreeNode -> Prop :=
| four_way_leaf n : childrens n = None -> four_way n
| four_way_node n c0 c1 c2 c3 :
    childrens n = Some [c0; c1; c2; c3] ->
    four_way c0 -> four_way c1 -> four_way c2 -> four_way c3 ->
    four_way n.

(** The child that the descent moves to from a node with four children:
    right of or on the centre adds 1, below or on the centre adds 2. *)
Definition step (n : QuadtreeNode) (p : Point) : nat :=
  ((if x_ge p (node_center_point n) then 1 else 0)
   + (if y_ge p (node_center_point n) then 2 else 0))%nat.

(** What [insert_point] leaves on a node of the descent path: the region
    and the depth, and the points when the node has children and the
    descent leaves it for one of its two top quadrants. *)
Definition passed_over (p : Point) (v v' : QuadtreeNode) : Prop :=
  border_box v' = border_box v /\ depth v' = depth v
  /\ (childrens v <> None -> y_lt p (node_center_point v) = true ->
      node_points v' = node_points v).

(** The box of integers that [getbbox] returns, as a box. *)
Definition box_of (bbox : Z * Z * Z * Z) : box :=
  let '(left_, top, right_, bottom) := bbox in
  (inject_Z left_, inject_Z top, inject_Z right_, inject_Z bottom).

(** The depths of the leaves of a tree. *)
Fixpoint leaf_depths (n : QuadtreeNode) : list Z :=
  match childrens n with
  | Some cs => flat_map leaf_depths cs
  | None => [depth n]
  end.

(** A channel histogram whose mean is the integer [v] and whose standard
    deviation is the integer [s]; the test runs on integers only. *)
Definition integral_channel (hist : list Z) (v s : Z) : bool :=
  let total := sumZ hist in
  (0 <? total)
  && (sumZ (map (fun ix => fst ix * snd ix) (enumerate hist)) =? v * total)
  && (sumZ (map (fun ix => snd ix * ((v - fst ix) * (v - fst ix)))
                (enumerate hist)) =? s * s * total)
  && (0 <=? s).

(** *** Images used as examples *)

Definition grey : pixel := (128, 128, 128).
Definition dark : pixel := (10, 10, 10).
Definition light : pixel := (250, 250, 250).

(** A raster of [w] columns and [h] rows of one colour. *)
Definition uniform (w h : nat) (c : pixel) : raster := repeat (repeat c w) h.

(** A uniform 8x8 image. *)
Definition flat8 : Image := raster_image (uniform 8 8 grey).

(** A 2x2 checkerboard. *)
Definition checker2 : Image := raster_image [[dark; light]; [light; dark]].

(** A 2x1 image whose left pixel is black. *)
Definition margin2 : Image := raster_image [[black; grey]].

(** A uniform black 8x8 image. *)
Definition black8 : Image := raster_image (uniform 8 8 black).

(** A grey 4x4 image with a 2x2 checkerboard in its top left quadrant. *)
Definition low : pixel := (8, 8, 8).
Definition high : pixel := (248, 248, 248).
Definition nested4 : Image :=
  raster_image [[low; high; grey; grey];
                [high; low; grey; grey];
                [grey; grey; grey; grey];
                [grey; grey; grey; grey]].

(** A point of the top left pixel of a 2x2 image, a point off the diagonal
    and a point on it. *)
Definition top_left_point : Point := mkPoint (1 # 2) (1 # 2).
Definition bottom_left_point : Point := mkPoint (1 # 2) (3 # 2).
Definition off_diagonal : Point := mkPoint 0 1.
Definition on_diagonal : Point := mkPoint 1 1.

(** A fresh node marked as a leaf. *)
Definition leaf_over (image : Image) (b : box) (d : Z) : QuadtreeNode :=
  set_is_leaf (node_init image b d) true.

(** The trees of these images. *)
Definition flat8_tree : QuadTree :=
  mkQuadTree 8 8 (leaf_over flat8 (box_of (0, 0, 8, 8)) 0) 0.

Definition margin2_tree : QuadTree :=
  mkQuadTree 2 1 (leaf_over margin2 (box_of (1, 0, 2, 1)) 0) 0.

Definition checker2_tree : QuadTree :=
  let b := box_of (0, 0, 2, 2) in
  mkQuadTree 2 2
    (set_childrens (node_init checker2 b 0)
       (Some (map (fun q => leaf_over checker2 q 1) (quadrants b (center b)))))
    1.

(** The tree of the 4x4 image: the top left quadrant is split once more,
    the three others are leaves. *)
Definition nested4_tree : QuadTree :=
  let b := box_of (0, 0, 4, 4) in
  let q := quadrants b (center b) in
  let q0 := nth 0 q b in
  mkQuadTree 4 4
    (set_childrens (node_init nested4 b 0)
       (Some [set_childrens (node_init nested4 q0 1)
                (Some (map (fun q1 => leaf_over nested4 q1 2)
                           (quadrants q0 (center q0))));
              leaf_over nested4 (nth 1 q b) 1;
              leaf_over nested4 (nth 2 q b) 1;
              leaf_over nested4 (nth 3 q b) 1]))
    2.

(** *** Vocabulary of the further properties *)

(** The leaves of a tree, the nodes without children, in pre-order. *)
Fixpoint leaves (n : QuadtreeNode) : list QuadtreeNode :=
  match childrens n with
  | Some cs => flat_map leaves cs
  | None => [n]
  end.

(** A tree in which every node with children has four, whose regions are
    the quadrants of the node's region cut at its centre. *)
Inductive tiled : QuadtreeNode -> Prop :=
| tiled_leaf n : childrens n = None -> tiled n
| tiled_node n c0 c1 c2 c3 :
    childrens n = Some [c0; c1; c2; c3] ->
    node_center_point n = center (border_box n) ->
    map border_box [c0; c1; c2; c3]
    = quadrants (border_box n) (node_center_point n) ->
    tiled c0 -> tiled c1 -> tiled c2 -> tiled c3 ->
    tiled n.

(** A tree without the points that its nodes hold. *)
Fixpoint erase_points (n : QuadtreeNode) : QuadtreeNode :=
  mkNode (border_box n) (depth n)
         (match childrens n with
          | Some cs => Some (map erase_points cs)
          | None => None
          end)
         (is_leaf n) [] (node_center_point n) (average_color n) (error n).

(** A tree with another root object. *)
Definition with_root (t : QuadTree) (n : QuadtreeNode) : QuadTree :=
  mkQuadTree (width t) (height t) n (max_depth t).

(** The points that the loop of [remove_point] leaves alone: those that
    [Point.__eq__] does not relate to the point to delete. *)
Definition unmatched (delete_point q : Point) : bool :=
  negb (Point_eq q delete_point).

End Props.

(** ** tree.py: the shared counter under the schedules of the threads

    Every leaf of the tree reports its depth from a thread of its own (the
    root, when it is a leaf, from the calling thread).  A report is the two
    steps of
    [if node.depth > self.__max_depth: self.__max_depth = node.depth],
    the test, which reads the counter, and the store; nothing keeps other
    threads from running between the two.  A run of the constructor
    interleaves the steps of the reports in some order and returns when all
    threads are joined.  Every run of the program is one of the schedules
    below; the schedules below do not ask that a thread is started before it
    moves. *)

Module Threads.
Import Pillow Tree Props.

(** A report that has not made its test yet, and a report whose test held
    and whose store is still to come. *)
Inductive report : Type :=
| Test (depth0 : Z)
| Store (depth0 : Z).


(** The report at position [i] among the reports still under way makes its
    next step; a report that is over leaves the list. *)
Definition report_step (i : nat) (reports : list report) (counter : Z)
  : option (list report * Z) :=
  match nth_error reports i with
  | Some (Test d) =>
      if counter <? d
      then Some (firstn i reports ++ Store d :: skipn (S i) reports, counter)
      else Some (firstn i reports ++ skipn (S i) reports, counter)
  | Some (Store d) => Some (firstn i reports ++ skipn (S i) reports, d)
  | None => None
  end.

(** A schedule names, step by step, the report that moves. *)
Fixpoint run_schedule (schedule : list nat) (reports : list report)
  (counter : Z) : option (list report * Z) :=
  match schedule with
  | [] => Some (reports, counter)
  | i :: schedule' =>
      match report_step i reports counter with
      | Some (reports', counter') => run_schedule schedule' reports' counter'
      | None => None
      end
  end.

(** [self.__max_depth] when the constructor returns, in the run of the
    schedule: every report is over then.  [None] when the schedule is not one
    of a whole run. *)
Definition max_depth_under (schedule : list nat) (root0 : QuadtreeNode)
  : option Z :=
  match run_schedule schedule (map Test (leaf_depths root0)) 0 with
  | Some ([], counter) => Some counter
  | _ => None
  end.


(** The tree object with the counter that a run has left. *)
Definition with_max_depth (t : QuadTree) (counter : Z) : QuadTree :=
  mkQuadTree (width t) (height t) (root t) counter.

End Threads.

(** ** work_with_images.py: the names of the files

    The name under which [compression_start] saves the picture, and the
    path that [CreatorGifImages.create_path] chooses.  A Python [str] is the
    list of its characters; the file system is what [os.path.exists]
    answers. *)

Module Paths.
Import Stdlib.Strings.Ascii.

Definition str : Type := list ascii.

(** [a == b] on strings *)
Fixpoint str_eqb (a b : str) : bool :=
  match a, b with
  | [], [] => true
  | x :: a', y :: b' => Ascii.eqb x y && str_eqb a' b'
  | _, _ => false
  end.

(** [s[start::]]: a negative start counts from the end; a start outside the
    string is clipped. *)
Definition slice_from {A : Type} (start : Z) (s : list A) : list A :=
  let n := Z.of_nat (length s) in
  let lower := if start <? 0 then Z.max (start + n) 0 else Z.min start n in
  skipn (Z.to_nat lower) s.

(** [s[:stop]] *)
Definition slice_to {A : Type} (stop : Z) (s : list A) : list A :=
  let n := Z.of_nat (length s) in
  let upper := if stop <? 0 then Z.max (stop + n) 0 else Z.min stop n in
  firstn (Z.to_nat upper) s.

(** [f"{n}"] for an [int] *)
Definition format_int (n : Z) : str :=
  String.list_ascii_of_string
    (DecimalString.NilZero.string_of_int (Z.to_int n)).

Definition quadtree_mark : str :=
  ["_"; "q"; "u"; "a"; "d"; "t"; "r"; "e"; "e"; "."]%char.

(** The name of the saved picture in [compression_start]:
    [file_name = file[:-4]], [file_extension = file[len(file) - 3::]],
    [f"{file_name}_quadtree.{file_extension}"]. *)
Definition result_path (file : str) : str :=
  let file_name := slice_to (-4) file in
  let file_extension := slice_from (Z.of_nat (length file) - 3) file in
  file_name ++ quadtree_mark ++ file_extension.

Definition directory : str := ["g"; "i"; "f"]%char.

(** [f"{directory}\\gif{self.gif_number}.gif"] *)
Definition gif_path (gif_number : Z) : str :=
  directory ++ ["\"; "g"; "i"; "f"]%char ++ format_int gif_number
  ++ ["."; "g"; "i"; "f"]%char.

(** [os.mkdir(directory)] *)
Definition mkdir (exists_ : str -> bool) (path : str) : str -> bool :=
  fun p => str_eqb p path || exists_ p.

(** The [while os.path.exists(path)] loop of [create_path]; the state is
    [self.gif_number]. *)
Fixpoint create_path_loop (fuel : nat) (exists_ : str -> bool)
  (gif_number : Z) : result (Z * str) :=
  match fuel with
  | O => OutOfFuel
  | S fuel' =>
      if exists_ (gif_path gif_number)
      then create_path_loop fuel' exists_ (gif_number + 1)
      else Ok (gif_number, gif_path gif_number)
  end.

(** [create_path]: the file system after the call, [self.gif_number] and
    the path returned. *)
Definition create_path (fuel : nat) (exists_ : str -> bool) (gif_number : Z)
  : result ((str -> bool) * Z * str) :=
  let exists1 := if negb (exists_ directory) then mkdir exists_ directory
                 else exists_ in
  r <- create_path_loop fuel exists1 gif_number ;;
  Ok (exists1, fst r, snd r).

End Paths.

(** ** main.py

    The arguments are those that [argparse] has parsed.  The lines that the
    program prints are left out; [Image.open] is taken to succeed and its
    result is a parameter. *)

Module Main.
Import Pillow Tree WorkWithImages Paths.
Import Stdlib.Strings.Ascii.

Record Namespace : Type := mkArgs {
  file : str;
  level : Z;
  borders : bool;
  gif : bool
}.

Definition jpg : str := ["j"; "p"; "g"]%char.
Definition png : str := ["p"; "n"; "g"]%char.
Definition jpeg : str := ["j"; "p"; "e"; "g"]%char.

(** [x in l] for a list of strings, and for a list of ints *)
Definition str_in (x : str) (l : list str) : bool := existsb (str_eqb x) l.
Definition int_in (x : Z) (l : list Z) : bool := existsb (Z.eqb x) l.

Definition check_fields (exists_ : str -> bool) (args : Namespace) : bool :=
  if negb (exists_ (file args))
     || negb (str_in (slice_from (Z.of_nat (length (file args)) - 3) (file args))
                     [jpg; png; jpeg])
  then false
  else if negb (int_in (level args) (range 1 9)) then false
  else true.

(** [parse_args], from the parsed arguments on: the files written and how
    the call ends. *)
Definition parse_args (exists_ : str -> bool) (opened : Image)
  (args : Namespace) : list output * result unit :=
  if check_fields exists_ args
  then compression_start opened (level args) (borders args) (gif args)
  else ([], Ok tt).

End Main.

(** ** Lists, sums and comparisons *)

Section Basics.

Lemma Qle_bool_true (a b : Q) : Qle_bool a b = true <-> (a <= b)%Q.
Proof. apply Qle_bool_iff. Qed.

Lemma Qlt_bool_true (a b : Q) : Qlt_bool a b = true <-> (a < b)%Q.
Proof.
  unfold Qlt_bool. rewrite negb_true_iff. split; intro H.
  - apply Qnot_le_lt. intro Hle. apply Qle_bool_iff in Hle. congruence.
  - destruct (Qle_bool b a) eqn:E; [| reflexivity].
    apply Qle_bool_iff in E. exfalso. exact (Qlt_not_le _ _ H E).
Qed.

Lemma Qlt_bool_false (a b : Q) : Qlt_bool a b = false <-> (b <= a)%Q.
Proof.
  unfold Qlt_bool. rewrite negb_false_iff. apply Qle_bool_iff.
Qed.

Lemma Qle_bool_false (a b : Q) : Qle_bool a b = false <-> (b < a)%Q.
Proof.
  rewrite <- Qlt_bool_true. unfold Qlt_bool.
  destruct (Qle_bool a b); simpl; intuition congruence.
Qed.

Lemma sumZ_app (l1 l2 : list Z) : sumZ (l1 ++ l2) = sumZ l1 + sumZ l2.
Proof.
  unfold sumZ. induction l1 as [| x l1 IH]; simpl; [reflexivity | rewrite IH; lia].
Qed.

Lemma sumR_app (l1 l2 : list R) : sumR (l1 ++ l2) = (sumR l1 + sumR l2)%R.
Proof.
  unfold sumR. induction l1 as [| x l1 IH]; simpl; [lra | rewrite IH; lra].
Qed.

Lemma sumZ_nonneg (l : list Z) : Forall (fun x => 0 <= x) l -> 0 <= sumZ l.
Proof. unfold sumZ. induction 1; simpl; lia. Qed.

Lemma enumerate_from_app {A : Type} (l1 l2 : list A) (i : Z) :
  enumerate_from i (l1 ++ l2)
  = enumerate_from i l1 ++ enumerate_from (i + Z.of_nat (length l1)) l2.
Proof.
  revert i. induction l1 as [| x l1 IH]; intro i; simpl.
  - now rewrite Z.add_0_r.
  - rewrite IH. do 3 f_equal. lia.
Qed.

Lemma map_snd_enumerate_from {A : Type} (l : list A) (i : Z) :
  map snd (enumerate_from i l) = l.
Proof. revert i. induction l as [| x l IH]; intro i; simpl; [| rewrite IH]; reflexivity. Qed.

Lemma range_length (a b : Z) : length (range a b) = Z.to_nat (b - a).
Proof. unfold range. now rewrite length_map, length_seq. Qed.

Lemma range_nth (a b : Z) (i : nat) (d : Z) :
  (i < Z.to_nat (b - a))%nat -> nth i (range a b) d = a + Z.of_nat i.
Proof.
  intro H. unfold range.
  rewrite (nth_indep _ d (a + Z.of_nat 0)) by (now rewrite length_map, length_seq).
  rewrite (map_nth (fun j => a + Z.of_nat j)), seq_nth by assumption.
  reflexivity.
Qed.

End Basics.

(** ** Colour statistics *)

Section ColourStatistics.
Import Pillow Tree Props.

Lemma Sigma_ext (n : nat) (f g : Z -> R) :
  (forall i, 0 <= i < Z.of_nat n -> f i = g i) -> Sigma n f = Sigma n g.
Proof.
  induction n as [| n IH]; intro H; simpl; [reflexivity |].
  rewrite IH, (H (Z.of_nat n)) by (intros; try apply H; lia). reflexivity.
Qed.

Lemma Sigma_zero (n : nat) (f : Z -> R) :
  (forall i, 0 <= i < Z.of_nat n -> f i = 0%R) -> Sigma n f = 0%R.
Proof.
  induction n as [| n IH]; intro H; simpl; [reflexivity |].
  rewrite IH, (H (Z.of_nat n)) by (intros; try apply H; lia). lra.
Qed.

Lemma Sigma_single (n : nat) (k : Z) (g : Z -> R) :
  0 <= k < Z.of_nat n ->
  Sigma n (fun i => if i =? k then g i else 0%R) = g k.
Proof.
  induction n as [| n IH]; intro H; [lia |]. simpl.
  destruct (Z.eqb_spec (Z.of_nat n) k) as [Heq | Hne].
  - subst k. rewrite Sigma_zero; [lra |].
    intros i Hi. destruct (Z.eqb_spec i (Z.of_nat n)); [lia | reflexivity].
  - rewrite IH by lia. lra.
Qed.

Lemma bin_app_l (l : list Z) (x i : Z) :
  0 <= i < Z.of_nat (length l) -> bin (l ++ [x]) i = bin l i.
Proof. intro H. unfold bin. apply app_nth1. lia. Qed.

Lemma bin_app_r (l : list Z) (x : Z) : bin (l ++ [x]) (Z.of_nat (length l)) = x.
Proof.
  unfold bin. rewrite Nat2Z.id, app_nth2, Nat.sub_diag by lia. reflexivity.
Qed.

(** The sum that runs over [enumerate(hist)] is the sum over the indices. *)
Lemma sumR_enumerate (g : Z -> Z -> R) (l : list Z) :
  sumR (map (fun ix => g (fst ix) (snd ix)) (enumerate l))
  = Sigma (length l) (fun i => g i (bin l i)).
Proof.
  unfold enumerate. induction l as [| x l IH] using rev_ind; [reflexivity |].
  rewrite enumerate_from_app, map_app, sumR_app, IH, length_app, Nat.add_1_r.
  simpl. rewrite bin_app_r.
  rewrite (Sigma_ext _ (fun i => g i (bin (l ++ [x]) i)) (fun i => g i (bin l i)))
    by (intros i Hi; now rewrite bin_app_l).
  lra.
Qed.

Lemma IZR_sumZ (l : list Z) : IZR (sumZ l) = sumR (map IZR l).
Proof.
  induction l as [| x l IH]; simpl; [reflexivity |].
  now rewrite plus_IZR, IH.
Qed.

Lemma IZR_sumZ_Sigma (l : list Z) :
  IZR (sumZ l) = Sigma (length l) (fun i => IZR (bin l i)).
Proof.
  rewrite <- (sumR_enumerate (fun _ x => IZR x)), IZR_sumZ.
  unfold enumerate.
  rewrite <- (map_snd_enumerate_from l 0) at 1. now rewrite map_map.
Qed.

Lemma IZR_weighted_Sigma (l : list Z) :
  IZR (sumZ (map (fun ix => fst ix * snd ix) (enumerate l)))
  = Sigma (length l) (fun i => (IZR i * IZR (bin l i))%R).
Proof.
  rewrite <- (sumR_enumerate (fun i x => (IZR i * IZR x)%R)), IZR_sumZ, map_map.
  f_equal. apply map_ext. intros [i x]. simpl. apply mult_IZR.
Qed.

(** [weighted_average] on a histogram of positive total, with the sums
    written over the indices. *)
Lemma weighted_average_positive (hist : list Z) :
  0 < sumZ hist ->
  let total := Sigma (length hist) (fun i => IZR (bin hist i)) in
  let value :=
    (Sigma (length hist) (fun i => IZR i * IZR (bin hist i)) / total)%R in
  weighted_average hist
  = (value,
     sqrt (Sigma (length hist)
             (fun i => IZR (bin hist i) * (value - IZR i) ^ 2) / total)%R).
Proof.
  intros Hpos total value. unfold weighted_average.
  destruct (Z.ltb_spec 0 (sumZ hist)) as [_ | Hle]; [| lia].
  rewrite IZR_weighted_Sigma, IZR_sumZ_Sigma.
  rewrite (sumR_enumerate (fun i x => (IZR x * (value - IZR i) ^ 2)%R)).
  reflexivity.
Qed.

Lemma weighted_average_empty (hist : list Z) :
  sumZ hist <= 0 -> weighted_average hist = (0%R, 0%R).
Proof.
  intro H. unfold weighted_average.
  destruct (Z.ltb_spec 0 (sumZ hist)); [lia | reflexivity].
Qed.

(** All the mass at one level: the value is the level and the error is 0. *)
Lemma weighted_average_concentrated (hist : list Z) (k : Z) :
  0 <= k < Z.of_nat (length hist) ->
  0 < bin hist k ->
  (forall i, 0 <= i < Z.of_nat (length hist) -> i <> k -> bin hist i = 0) ->
  weighted_average hist = (IZR k, 0%R).
Proof.
  intros Hk Hc Hz.
  assert (Htotal : Sigma (length hist) (fun i => IZR (bin hist i))
                   = IZR (bin hist k)).
  { rewrite <- (Sigma_single (length hist) k (fun i => IZR (bin hist i))) by assumption.
    apply Sigma_ext. intros i Hi. destruct (Z.eqb_spec i k); [reflexivity |].
    now rewrite Hz. }
  assert (Hw : Sigma (length hist) (fun i => (IZR i * IZR (bin hist i))%R)
               = (IZR k * IZR (bin hist k))%R).
  { rewrite <- (Sigma_single (length hist) k
                  (fun i => (IZR i * IZR (bin hist i))%R)) by assumption.
    apply Sigma_ext. intros i Hi. destruct (Z.eqb_spec i k); [reflexivity |].
    rewrite Hz by assumption. lra. }
  assert (Hpos : (0 < IZR (bin hist k))%R) by now apply IZR_lt.
  rewrite weighted_average_positive
    by (apply lt_IZR; rewrite IZR_sumZ_Sigma, Htotal; assumption).
  rewrite Hw, Htotal.
  replace (IZR k * IZR (bin hist k) / IZR (bin hist k))%R with (IZR k)
    by (field; lra).
  rewrite Sigma_zero.
  - unfold Rdiv. now rewrite Rmult_0_l, sqrt_0.
  - intros i Hi. destruct (Z.eq_dec i k) as [-> | Hne].
    + ring.
    + rewrite Hz by assumption. ring.
Qed.

End ColourStatistics.

(** ** The nodes that construction makes *)

Section Nodes.
Import Pillow Tree Props.

(** Induction over a node and the nodes of its list of children. *)
Lemma QuadtreeNode_induction (P : QuadtreeNode -> Prop) :
  (forall n, (forall cs, childrens n = Some cs -> Forall P cs) -> P n) ->
  forall n, P n.
Proof.
  intro step. fix IH 1. intros [bb d cs lf ps c col e].
  apply step. simpl. intros cs0 Heq. destruct cs as [l |]; [| discriminate].
  injection Heq as <-.
  induction l as [| a l IHl]; constructor; [apply IH | exact IHl].
Qed.

Variable image : Image.

Lemma node_init_border_box b d : border_box (node_init image b d) = b.
Proof. reflexivity. Qed.

Lemma node_init_depth b d : depth (node_init image b d) = d.
Proof. reflexivity. Qed.

Lemma node_init_childrens b d : childrens (node_init image b d) = None.
Proof. reflexivity. Qed.

Lemma node_init_is_leaf b d : is_leaf (node_init image b d) = false.
Proof. reflexivity. Qed.

Lemma node_init_node_points b d : node_points (node_init image b d) = [].
Proof. reflexivity. Qed.

Lemma node_init_center b d : node_center_point (node_init image b d) = center b.
Proof. reflexivity. Qed.

Lemma node_init_error b d :
  error (node_init image b d) = snd (color_from_histogram (crop_histogram image b)).
Proof. reflexivity. Qed.

Lemma split_childrens_quadrants (n : QuadtreeNode) :
  split_childrens image n
  = map (fun b => node_init image b (depth n + 1))
        (quadrants (border_box n) (node_center_point n)).
Proof.
  unfold split_childrens, quadrants.
  now destruct (border_box n) as [[[l t] r] bt].
Qed.

Lemma quadrants_length b c : length (quadrants b c) = 4%nat.
Proof. now destruct b as [[[l t] r] bt]. Qed.

End Nodes.

(** ** Construction *)

Section Construction.
Import Pillow Tree Props.

Variable image : Image.

Lemma run_threads_total {A S : Type} (target : A -> S -> option (A * S))
  (args : list A) :
  Forall (fun a => forall s, exists r, target a s = Some r) args ->
  forall s, exists r, run_threads target args s = Some r.
Proof.
  induction 1 as [| a args Ha _ IH]; intro s; simpl.
  - eauto.
  - destruct (Ha s) as [[a' s'] ->]. destruct (IH s') as [[l s''] ->]. eauto.
Qed.

Lemma run_threads_weaken {A S : Type} (f g : A -> S -> option (A * S))
  (args : list A) :
  (forall a s r, f a s = Some r -> g a s = Some r) ->
  forall s r, run_threads f args s = Some r -> run_threads g args s = Some r.
Proof.
  intro Hfg. induction args as [| a args IH]; intros s r; simpl; [easy |].
  destruct (f a s) as [[a' s'] |] eqn:Ef; [| discriminate].
  rewrite (Hfg _ _ _ Ef).
  destruct (run_threads f args s') as [[l s''] |] eqn:Er; [| discriminate].
  now rewrite (IH _ _ Er).
Qed.

(** One step of [__build_tree]. *)
Lemma build_tree_step (fuel : nat) (node : QuadtreeNode) (m : Z) :
  build_tree (S fuel) image node m
  = if stop_rule node
    then Some (set_is_leaf node true, Z.max m (depth node))
    else match run_threads (build_tree fuel image)
                 (map (fun b => node_init image b (depth node + 1))
                      (quadrants (border_box node) (node_center_point node)))
                 m with
         | Some (cs, m') => Some (set_childrens node (Some cs), m')
         | None => None
         end.
Proof.
  cbn [build_tree]. fold (stop_rule node).
  destruct (stop_rule node).
  - do 2 f_equal. destruct (Z.ltb_spec m (depth node)); lia.
  - now rewrite split_childrens_quadrants.
Qed.

Lemma build_tree_inv (fuel : nat) (node n : QuadtreeNode) (m m' : Z) :
  build_tree (S fuel) image node m = Some (n, m') ->
  (stop_rule node = true /\ n = set_is_leaf node true
   /\ m' = Z.max m (depth node))
  \/ (stop_rule node = false
      /\ exists b0 b1 b2 b3 c0 c1 c2 c3 m1 m2 m3,
          quadrants (border_box node) (node_center_point node) = [b0; b1; b2; b3]
          /\ build_tree fuel image (node_init image b0 (depth node + 1)) m
             = Some (c0, m1)
          /\ build_tree fuel image (node_init image b1 (depth node + 1)) m1
             = Some (c1, m2)
          /\ build_tree fuel image (node_init image b2 (depth node + 1)) m2
             = Some (c2, m3)
          /\ build_tree fuel image (node_init image b3 (depth node + 1)) m3
             = Some (c3, m')
          /\ n = set_childrens node (Some [c0; c1; c2; c3])).
Proof.
  rewrite build_tree_step. destruct (stop_rule node).
  - intro H. injection H as <- <-. now left.
  - intro H. right. split; [reflexivity |].
    destruct (border_box node) as [[[l t] r] bt]. cbn [quadrants map run_threads] in *.
    destruct (build_tree fuel image _ m) as [[c0 m1] |] eqn:E0; [| discriminate].
    destruct (build_tree fuel image _ m1) as [[c1 m2] |] eqn:E1; [| discriminate].
    destruct (build_tree fuel image _ m2) as [[c2 m3] |] eqn:E2; [| discriminate].
    destruct (build_tree fuel image _ m3) as [[c3 m4] |] eqn:E3; [| discriminate].
    injection H as <- <-.
    do 4 eexists. exists c0, c1, c2, c3, m1, m2, m3.
    split; [reflexivity |]. auto.
Qed.

Lemma stop_rule_false (node : QuadtreeNode) :
  stop_rule node = false ->
  depth node < MAX_DEPTH /\ ~ (error node <= IZR ERROR_THRESHOLD)%R.
Proof.
  unfold stop_rule, error_le. intro H. apply orb_false_iff in H as [Hd He].
  split; [lia |]. now destruct (Rle_dec _ _).
Qed.

Lemma stop_rule_true (node : QuadtreeNode) :
  stop_rule node = true <->
  MAX_DEPTH <= depth node \/ (error node <= IZR ERROR_THRESHOLD)%R.
Proof.
  unfold stop_rule, error_le. rewrite orb_true_iff, Z.leb_le.
  destruct (Rle_dec _ _); intuition congruence.
Qed.

(** Construction returns: a counter above the number of levels left is
    enough. *)
Lemma build_tree_terminates (fuel : nat) :
  forall (node : QuadtreeNode) (m : Z),
    (Z.to_nat (MAX_DEPTH - depth node) < fuel)%nat ->
    exists r, build_tree fuel image node m = Some r.
Proof.
  induction fuel as [| fuel IH]; intros node m Hfuel; [lia |].
  rewrite build_tree_step. destruct (stop_rule node) eqn:Hstop; [eauto |].
  apply stop_rule_false in Hstop as [Hd _].
  destruct (run_threads_total (build_tree fuel image)
              (map (fun b => node_init image b (depth node + 1))
                   (quadrants (border_box node) (node_center_point node)))) with (s := m)
    as [[cs m'] ->]; [| eauto].
  apply Forall_forall. intros c Hc s. apply in_map_iff in Hc as [b [<- _]].
  apply IH. rewrite node_init_depth. unfold MAX_DEPTH in *. lia.
Qed.

(** A larger counter gives the same tree. *)
Lemma build_tree_fuel_succ (fuel : nat) :
  forall node m r,
    build_tree fuel image node m = Some r ->
    build_tree (S fuel) image node m = Some r.
Proof.
  induction fuel as [| fuel IH]; intros node m r H; [discriminate |].
  rewrite build_tree_step in *. destruct (stop_rule node); [assumption |].
  destruct (run_threads (build_tree fuel image) _ m) as [[cs m'] |] eqn:E;
    [| discriminate].
  now rewrite (run_threads_weaken _ _ _ IH _ _ E).
Qed.

Lemma build_tree_fuel_mono (fuel fuel' : nat) node m r :
  (fuel <= fuel')%nat ->
  build_tree fuel image node m = Some r ->
  build_tree fuel' image node m = Some r.
Proof.
  induction 1 as [| fuel' _ IH]; [easy |].
  intro H. now apply build_tree_fuel_succ, IH.
Qed.

(** What construction returns is a [built] tree. *)
Lemma build_tree_built (fuel : nat) :
  forall b d m n m',
    build_tree fuel image (node_init image b d) m = Some (n, m') ->
    built image b d n.
Proof.
  induction fuel as [| fuel IH]; intros b d m n m' H; [discriminate |].
  apply build_tree_inv in H
    as [(Hstop & -> & _)
       | (Hstop & b0 & b1 & b2 & b3 & c0 & c1 & c2 & c3 & m1 & m2 & m3
          & Hq & H0 & H1 & H2 & H3 & ->)].
  - now constructor.
  - apply (built_split image b d
             (node_init image b0 (d + 1)) (node_init image b1 (d + 1))
             (node_init image b2 (d + 1)) (node_init image b3 (d + 1))).
    + assumption.
    + rewrite split_childrens_quadrants, Hq. reflexivity.
    + exact (IH _ _ _ _ _ H0).
    + exact (IH _ _ _ _ _ H1).
    + exact (IH _ _ _ _ _ H2).
    + exact (IH _ _ _ _ _ H3).
Qed.

End Construction.

(** ** The shape of a built tree *)

Section Shape.
Import Pillow Tree Props.

Variable image : Image.

Lemma built_fields b d n :
  built image b d n ->
  border_box n = b /\ depth n = d /\ node_center_point n = center b
  /\ node_points n = []
  /\ error n = snd (color_from_histogram (crop_histogram image b)).
Proof.
  intro H. destruct H; cbn;
    now rewrite node_init_border_box, node_init_depth, node_init_center,
      node_init_node_points, node_init_error.
Qed.

Lemma built_stop_rule b d n :
  built image b d n -> stop_rule n = stop_rule (node_init image b d).
Proof. intro H. now destruct H. Qed.

(** A built node is a marked leaf without children, or an unmarked node
    with four built children over the quadrants of its box, one level down. *)
Lemma built_cases b d n :
  built image b d n ->
  (is_leaf n = true /\ childrens n = None /\ stop_rule n = true)
  \/ (is_leaf n = false /\ stop_rule n = false
      /\ exists b0 b1 b2 b3 c0 c1 c2 c3,
          quadrants b (center b) = [b0; b1; b2; b3]
          /\ childrens n = Some [c0; c1; c2; c3]
          /\ built image b0 (d + 1) c0 /\ built image b1 (d + 1) c1
          /\ built image b2 (d + 1) c2 /\ built image b3 (d + 1) c3).
Proof.
  intro H. destruct H as [b d Hstop | b d f0 f1 f2 f3 c0 c1 c2 c3 Hstop Hsplit H0 H1 H2 H3].
  - left. cbn. now rewrite node_init_childrens.
  - right. cbn. rewrite node_init_is_leaf. repeat split; [assumption |].
    rewrite split_childrens_quadrants, node_init_border_box, node_init_center,
      node_init_depth in Hsplit.
    destruct (quadrants b (center b)) as [| b0 [| b1 [| b2 [| b3 [| ? ?]]]]];
      try discriminate.
    cbn in Hsplit. injection Hsplit as <- <- <- <-.
    rewrite !node_init_border_box, !node_init_depth in *.
    exists b0, b1, b2, b3, c0, c1, c2, c3. auto 10.
Qed.

(** The nodes of a built tree are built, and none lies above its root or,
    when the root is within [MAX_DEPTH], below [MAX_DEPTH]. *)
Lemma built_subnode x n :
  subnode x n ->
  forall b d, built image b d n ->
  exists b' d', built image b' d' x /\ d <= d'
                /\ (d <= MAX_DEPTH -> d' <= MAX_DEPTH).
Proof.
  induction 1 as [| n cs c Hcs Hin _ IH]; intros b d Hb.
  - exists b, d. repeat split; [assumption | lia | easy].
  - pose proof (built_fields _ _ _ Hb) as (_ & Hd & _).
    destruct (built_cases _ _ _ Hb)
      as [(_ & Hnone & _)
         | (_ & Hstop & b0 & b1 & b2 & b3 & c0 & c1 & c2 & c3 & _ & Hsome
            & H0 & H1 & H2 & H3)]; [congruence |].
    apply stop_rule_false in Hstop as [Hlt _]. rewrite Hd in Hlt.
    rewrite Hcs in Hsome. injection Hsome as ->.
    assert (Hc : exists b', built image b' (d + 1) c).
    { cbn in Hin. destruct Hin as [<- | [<- | [<- | [<- | []]]]]; eauto. }
    destruct Hc as [b' Hc].
    destruct (IH _ _ Hc) as (b'' & d'' & Hx & Hle & Hmax).
    exists b'', d''. repeat split; [assumption | lia | intros _; apply Hmax; lia].
Qed.

Lemma built_leaf_depths b d n :
  built image b d n ->
  leaf_depths n <> [] /\ Forall (fun x => d <= x) (leaf_depths n).
Proof.
  induction 1 as [b d Hstop
                 | b d f0 f1 f2 f3 c0 c1 c2 c3 Hstop Hsplit
                     H0 [N0 F0] H1 [N1 F1] H2 [N2 F2] H3 [N3 F3]].
  - cbn. rewrite node_init_childrens, node_init_depth. split; [easy |].
    constructor; [lia | constructor].
  - rewrite split_childrens_quadrants, node_init_border_box, node_init_center,
      node_init_depth in Hsplit.
    assert (Hd : depth f0 = d + 1 /\ depth f1 = d + 1
                 /\ depth f2 = d + 1 /\ depth f3 = d + 1).
    { destruct (quadrants b (center b)) as [| b0 [| b1 [| b2 [| b3 [| ? ?]]]]];
        try discriminate.
      cbn in Hsplit. injection Hsplit as <- <- <- <-.
      now rewrite !node_init_depth. }
    destruct Hd as (D0 & D1 & D2 & D3). rewrite D0 in F0. rewrite D1 in F1.
    rewrite D2 in F2. rewrite D3 in F3.
    cbn. rewrite app_nil_r. split.
    + destruct (leaf_depths c0); [congruence | easy].
    + repeat (apply Forall_app; split);
        (eapply Forall_impl; [| eassumption]); cbn; intros; lia.
Qed.

(** The shared counter after construction: not below its former value, not
    below the depth of any leaf made, and one of the two. *)
Lemma build_tree_max_depth (fuel : nat) :
  forall node m n m',
    build_tree fuel image node m = Some (n, m') ->
    childrens node = None ->
    m <= m' /\ Forall (fun x => x <= m') (leaf_depths n)
    /\ (m' = m \/ In m' (leaf_depths n)).
Proof.
  induction fuel as [| fuel IH]; intros node m n m' H Hnone; [discriminate |].
  apply build_tree_inv in H
    as [(Hstop & -> & ->)
       | (Hstop & b0 & b1 & b2 & b3 & c0 & c1 & c2 & c3 & m1 & m2 & m3
          & Hq & H0 & H1 & H2 & H3 & ->)].
  - cbn. rewrite Hnone. repeat split; [lia | |].
    + constructor; [lia | constructor].
    + destruct (Z.max_spec m (depth node)) as [[_ ->] | [_ ->]]; cbn; auto.
  - apply IH in H0 as (L0 & F0 & A0); [| apply node_init_childrens].
    apply IH in H1 as (L1 & F1 & A1); [| apply node_init_childrens].
    apply IH in H2 as (L2 & F2 & A2); [| apply node_init_childrens].
    apply IH in H3 as (L3 & F3 & A3); [| apply node_init_childrens].
    cbn. rewrite app_nil_r. repeat split.
    + lia.
    + repeat (apply Forall_app; split);
        (eapply Forall_impl; [| eassumption]); cbn; intros; lia.
    + rewrite !in_app_iff.
      destruct A3 as [-> | A3]; [| auto].
      destruct A2 as [-> | A2]; [| auto].
      destruct A1 as [-> | A1]; [| auto].
      destruct A0 as [-> | A0]; auto.
Qed.

End Shape.

(** ** Regions *)

Section Regions.
Import Pillow Tree Props.

(** Turns the comparisons of a goal into hypotheses over [Q]. *)
Ltac compare_all :=
  repeat match goal with
    | |- context [Qle_bool ?a ?b] =>
        let E := fresh "E" in
        destruct (Qle_bool a b) eqn:E;
        [apply Qle_bool_true in E | apply Qle_bool_false in E]
    end.

Lemma midpoint (l r : Q) :
  ((l + (r - l) / 2) + (l + (r - l) / 2) == l + r)%Q.
Proof. field. Qed.

(** The halves of an interval, cut at its midpoint. *)
Lemma halves (l r x : Q) :
  let c := (l + (r - l) / 2)%Q in
  (Qle_bool l x && Qlt_bool x c) && (Qle_bool c x && Qlt_bool x r) = false
  /\ (Qle_bool l x && Qlt_bool x c) || (Qle_bool c x && Qlt_bool x r)
     = Qle_bool l x && Qlt_bool x r.
Proof.
  cbv zeta. pose proof (midpoint l r) as Hc.
  set (c := (l + (r - l) / 2)%Q) in *. clearbody c.
  unfold Qlt_bool. compare_all; cbn; split; try reflexivity;
    exfalso; lra.
Qed.

Lemma in_box_split (p : Point) (l t r bt : Q) :
  in_box p (l, t, r, bt)
  = (Qle_bool l (x_coordinate p) && Qlt_bool (x_coordinate p) r)
    && (Qle_bool t (y_coordinate p) && Qlt_bool (y_coordinate p) bt).
Proof. unfold in_box. now rewrite <- !andb_assoc. Qed.

(** The quadrants of a box, cut at its centre, hold each point of the box
    once and no other point. *)
Lemma quadrants_partition (b : box) (p : Point) :
  length (filter (in_box p) (quadrants b (center b)))
  = if in_box p b then 1%nat else 0%nat.
Proof.
  destruct b as [[[l t] r] bt]. destruct p as [x y].
  pose proof (halves l r x) as [Hx1 Hx2].
  pose proof (halves t bt y) as [Hy1 Hy2].
  cbv zeta in *.
  unfold center, quadrants, box_left, box_right, box_top, box_bottom.
  cbn [filter fst snd x_coordinate y_coordinate].
  rewrite !in_box_split. cbn [x_coordinate y_coordinate].
  rewrite <- Hx2, <- Hy2.
  set (X1 := Qle_bool l x && Qlt_bool x (l + (r - l) / 2)) in *.
  set (X2 := Qle_bool (l + (r - l) / 2) x && Qlt_bool x r) in *.
  set (Y1 := Qle_bool t y && Qlt_bool y (t + (bt - t) / 2)) in *.
  set (Y2 := Qle_bool (t + (bt - t) / 2) y && Qlt_bool y bt) in *.
  clearbody X1 X2 Y1 Y2.
  destruct X1, X2, Y1, Y2; cbn in *; congruence.
Qed.

Lemma covering_app (p : Point) (l1 l2 : list QuadtreeNode) :
  covering p (l1 ++ l2) = (covering p l1 + covering p l2)%nat.
Proof. unfold covering. now rewrite filter_app, length_app. Qed.

Lemma covering_boxes (p : Point) (l : list QuadtreeNode) :
  covering p l = length (filter (in_box p) (map border_box l)).
Proof.
  unfold covering. induction l as [| n l IH]; cbn; [reflexivity |].
  destruct (in_box p (border_box n)); cbn; now rewrite IH.
Qed.

End Regions.

(** ** The tree of an image *)

Section TreeOfImage.
Import Pillow Tree Props.

Variable image : Image.

Lemma QuadTree_init_inv (t : QuadTree) :
  QuadTree_init image = Ok t ->
  exists bbox,
    getbbox image = Some bbox
    /\ build_tree (S (Z.to_nat MAX_DEPTH)) image (node_init image (box_of bbox) 0) 0
       = Some (root t, max_depth t)
    /\ width t = fst (size image) /\ height t = snd (size image).
Proof.
  unfold QuadTree_init. destruct (getbbox image) as [[[[l tp] r] bt] |];
    [| discriminate].
  destruct (build_tree _ _ _ _) as [[root1 m] |] eqn:E; [| discriminate].
  intro H. injection H as <-. exists (l, tp, r, bt). cbn. auto.
Qed.

Lemma QuadTree_init_total (bbox : Z * Z * Z * Z) :
  getbbox image = Some bbox -> exists t, QuadTree_init image = Ok t.
Proof.
  intro H. unfold QuadTree_init. rewrite H. destruct bbox as [[[l tp] r] bt].
  destruct (build_tree_terminates image (S (Z.to_nat MAX_DEPTH))
              (node_init image (box_of (l, tp, r, bt)) 0) 0) as [[n m] E].
  - rewrite node_init_depth. unfold MAX_DEPTH. lia.
  - cbn [box_of] in E. rewrite E. eauto.
Qed.

Lemma QuadTree_init_no_bbox :
  getbbox image = None -> QuadTree_init image = Raise TypeError.
Proof. intro H. unfold QuadTree_init. now rewrite H. Qed.


Lemma QuadTree_init_built (t : QuadTree) :
  QuadTree_init image = Ok t ->
  exists bbox, getbbox image = Some bbox /\ built image (box_of bbox) 0 (root t).
Proof.
  intro H. apply QuadTree_init_inv in H as (bbox & Hb & Hbuild & _).
  exists bbox. split; [assumption |]. eapply build_tree_built, Hbuild.
Qed.

(** In the run in start order [max_depth] is the depth of the deepest
    leaf. *)
Lemma QuadTree_init_max_depth (t : QuadTree) :
  QuadTree_init image = Ok t ->
  0 <= max_depth t
  /\ Forall (fun d => d <= max_depth t) (leaf_depths (root t))
  /\ In (max_depth t) (leaf_depths (root t)).
Proof.
  intro H. pose proof (QuadTree_init_built _ H) as (bbox' & _ & Hbuilt).
  apply QuadTree_init_inv in H as (bbox & _ & Hbuild & _).
  apply build_tree_max_depth in Hbuild as (Hle & Hall & Hin); [| reflexivity].
  repeat split; [assumption | assumption |].
  destruct Hin as [Heq | Hin]; [| assumption].
  apply built_leaf_depths in Hbuilt as [Hne Hge].
  destruct (leaf_depths (root t)) as [| d ds]; [congruence |].
  inversion Hall; subst. inversion Hge; subst. left. lia.
Qed.

Lemma QuadTree_init_nodes (t : QuadTree) (n : QuadtreeNode) :
  QuadTree_init image = Ok t -> subnode n (root t) ->
  exists b d, built image b d n /\ 0 <= d <= MAX_DEPTH.
Proof.
  intros H Hsub. apply QuadTree_init_built in H as (bbox & _ & Hbuilt).
  destruct (built_subnode image _ _ Hsub _ _ Hbuilt) as (b & d & Hb & Hge & Hle).
  exists b, d. split; [assumption |]. split; [assumption |].
  apply Hle. unfold MAX_DEPTH. lia.
Qed.

End TreeOfImage.

(** ** Evaluating the statistics of a region *)

Section Evaluation.
Import Pillow Tree Props.

Lemma weighted_average_integral (hist : list Z) (v s : Z) :
  integral_channel hist v s = true ->
  weighted_average hist = (IZR v, IZR s).
Proof.
  unfold integral_channel, weighted_average. cbv zeta.
  rewrite !andb_true_iff, Z.ltb_lt, !Z.eqb_eq, Z.leb_le.
  intros [[[Hpos Hmean] Hdev] Hs].
  destruct (Z.ltb_spec 0 (sumZ hist)) as [_ | Hle]; [| lia].
  assert (Ht : (IZR (sumZ hist) <> 0)%R) by (apply not_0_IZR; lia).
  rewrite Hmean, mult_IZR.
  replace (IZR v * IZR (sumZ hist) / IZR (sumZ hist))%R with (IZR v)
    by (field; assumption).
  rewrite (map_ext _ (fun ix => IZR (snd ix * ((v - fst ix) * (v - fst ix)))))
    by (intros [i x]; cbn [fst snd]; rewrite !mult_IZR, minus_IZR; ring).
  rewrite <- (map_map (fun ix => snd ix * ((v - fst ix) * (v - fst ix))) IZR),
    <- IZR_sumZ, Hdev, !mult_IZR.
  replace (IZR s * IZR s * IZR (sumZ hist) / IZR (sumZ hist))%R
    with (IZR s * IZR s)%R by (field; assumption).
  rewrite sqrt_square by (apply IZR_le; assumption). reflexivity.
Qed.

Variable image : Image.

(** The error of a fresh node over a region whose three channels have
    integral statistics. *)
Lemma node_error_integral (b : box) (d : Z) (vr sr vg sg vb sb : Z) :
  integral_channel (slice 0 256 (crop_histogram image b)) vr sr = true ->
  integral_channel (slice 256 512 (crop_histogram image b)) vg sg = true ->
  integral_channel (slice 512 768 (crop_histogram image b)) vb sb = true ->
  error (node_init image b d)
  = (IZR sr * 0.2989 + IZR sg * 0.5870 + IZR sb * 0.1140)%R.
Proof.
  intros Hr Hg Hb. rewrite node_init_error. unfold color_from_histogram.
  now rewrite (weighted_average_integral _ _ _ Hr),
    (weighted_average_integral _ _ _ Hg), (weighted_average_integral _ _ _ Hb).
Qed.

(** A region of one colour stops construction. *)
Lemma stop_rule_flat (b : box) (d vr vg vb : Z) :
  integral_channel (slice 0 256 (crop_histogram image b)) vr 0 = true ->
  integral_channel (slice 256 512 (crop_histogram image b)) vg 0 = true ->
  integral_channel (slice 512 768 (crop_histogram image b)) vb 0 = true ->
  stop_rule (node_init image b d) = true.
Proof.
  intros Hr Hg Hb. apply stop_rule_true. right.
  rewrite (node_error_integral _ _ _ _ _ _ _ _ Hr Hg Hb).
  unfold ERROR_THRESHOLD. lra.
Qed.

(** A region whose channels deviate by [s] with [0.9999 * s] above the
    threshold is split, above [MAX_DEPTH]. *)
Lemma stop_rule_contrast (b : box) (d vr vg vb s : Z) :
  integral_channel (slice 0 256 (crop_histogram image b)) vr s = true ->
  integral_channel (slice 256 512 (crop_histogram image b)) vg s = true ->
  integral_channel (slice 512 768 (crop_histogram image b)) vb s = true ->
  d < MAX_DEPTH -> 14 <= s ->
  stop_rule (node_init image b d) = false.
Proof.
  intros Hr Hg Hb Hd Hs.
  destruct (stop_rule (node_init image b d)) eqn:E; [| reflexivity].
  apply stop_rule_true in E as [E | E].
  - rewrite node_init_depth in E. lia.
  - rewrite (node_error_integral _ _ _ _ _ _ _ _ Hr Hg Hb) in E.
    apply IZR_le in Hs. unfold ERROR_THRESHOLD in E. lra.
Qed.

End Evaluation.

(** ** The example images *)

Section Examples.
Import Pillow Tree Props.

Ltac evaluate := first [lia | vm_compute; reflexivity].

Lemma QuadTree_init_flat8 : QuadTree_init flat8 = Ok flat8_tree.
Proof.
  unfold QuadTree_init.
  replace (getbbox flat8) with (Some (0, 0, 8, 8)) by (vm_compute; reflexivity).
  rewrite build_tree_step, (stop_rule_flat flat8 _ _ 128 128 128) by evaluate.
  reflexivity.
Qed.

Lemma QuadTree_init_margin2 : QuadTree_init margin2 = Ok margin2_tree.
Proof.
  unfold QuadTree_init.
  replace (getbbox margin2) with (Some (1, 0, 2, 1)) by (vm_compute; reflexivity).
  rewrite build_tree_step, (stop_rule_flat margin2 _ _ 128 128 128) by evaluate.
  reflexivity.
Qed.

Lemma QuadTree_init_black8 : QuadTree_init black8 = Raise TypeError.
Proof. apply QuadTree_init_no_bbox. vm_compute. reflexivity. Qed.

Lemma QuadTree_init_checker2 : QuadTree_init checker2 = Ok checker2_tree.
Proof.
  unfold QuadTree_init.
  replace (getbbox checker2) with (Some (0, 0, 2, 2)) by (vm_compute; reflexivity).
  change (Z.to_nat MAX_DEPTH) with 8%nat.
  rewrite build_tree_step, (stop_rule_contrast checker2 _ _ 130 130 130 120)
    by evaluate.
  rewrite node_init_border_box, node_init_center, node_init_depth.
  cbn [quadrants center map run_threads box_left box_right box_top box_bottom
       fst snd x_coordinate y_coordinate].
  rewrite build_tree_step, (stop_rule_flat checker2 _ _ 10 10 10) by evaluate.
  rewrite build_tree_step, (stop_rule_flat checker2 _ _ 250 250 250) by evaluate.
  rewrite build_tree_step, (stop_rule_flat checker2 _ _ 250 250 250) by evaluate.
  rewrite build_tree_step, (stop_rule_flat checker2 _ _ 10 10 10) by evaluate.
  reflexivity.
Qed.

Lemma QuadTree_init_nested4 : QuadTree_init nested4 = Ok nested4_tree.
Proof.
  unfold QuadTree_init.
  replace (getbbox nested4) with (Some (0, 0, 4, 4)) by (vm_compute; reflexivity).
  change (Z.to_nat MAX_DEPTH) with 8%nat.
  rewrite build_tree_step, (stop_rule_contrast nested4 _ _ 128 128 128 60)
    by evaluate.
  rewrite node_init_border_box, node_init_center, node_init_depth.
  cbn [quadrants center map run_threads box_left box_right box_top box_bottom
       fst snd x_coordinate y_coordinate].
  rewrite build_tree_step, (stop_rule_contrast nested4 _ _ 128 128 128 120)
    by evaluate.
  rewrite node_init_border_box, node_init_center, node_init_depth.
  cbn [quadrants center map run_threads box_left box_right box_top box_bottom
       fst snd x_coordinate y_coordinate].
  rewrite build_tree_step, (stop_rule_flat nested4 _ _ 8 8 8) by evaluate.
  rewrite build_tree_step, (stop_rule_flat nested4 _ _ 248 248 248) by evaluate.
  rewrite build_tree_step, (stop_rule_flat nested4 _ _ 248 248 248) by evaluate.
  rewrite build_tree_step, (stop_rule_flat nested4 _ _ 8 8 8) by evaluate.
  rewrite build_tree_step, (stop_rule_flat nested4 _ _ 128 128 128) by evaluate.
  rewrite build_tree_step, (stop_rule_flat nested4 _ _ 128 128 128) by evaluate.
  rewrite build_tree_step, (stop_rule_flat nested4 _ _ 128 128 128) by evaluate.
  reflexivity.
Qed.

End Examples.

(** ** Structure of the built tree *)

Section Structure.
Import Pillow Tree Props.

(** C7: every node of the tree of an image has no children or exactly
    four; a node marked as a leaf has no children and a node with children
    is not marked; the children of a node lie one level below it and their
    regions, cut at the centre of the node's region, hold every point of
    that region exactly once and no point outside it. *)
Theorem built_tree_structure (image : Image) (t : QuadTree) (n : QuadtreeNode) :
  QuadTree_init image = Ok t ->
  subnode n (root t) ->
  (childrens n = None
   \/ exists c0 c1 c2 c3, childrens n = Some [c0; c1; c2; c3])
  /\ (is_leaf n = true -> childrens n = None)
  /\ (childrens n <> None -> is_leaf n = false)
  /\ (forall cs, childrens n = Some cs ->
        Forall (fun c => depth c = depth n + 1) cs
        /\ node_center_point n = center (border_box n)
        /\ map border_box cs = quadrants (border_box n) (node_center_point n)
        /\ forall p, covering p cs
                     = if in_box p (border_box n) then 1%nat else 0%nat).
Proof.
  intros Hinit Hsub.
  destruct (QuadTree_init_nodes image t n Hinit Hsub) as (b & d & Hb & _).
  pose proof (built_fields image _ _ _ Hb) as (Hbox & Hd & Hc & _).
  destruct (built_cases image _ _ _ Hb)
    as [(Hleaf & Hnone & _)
       | (Hleaf & _ & b0 & b1 & b2 & b3 & c0 & c1 & c2 & c3 & Hq & Hsome
          & H0 & H1 & H2 & H3)].
  - repeat split; [now left | easy | congruence | | | |]; intros; congruence.
  - apply built_fields in H0 as (B0 & D0 & _). apply built_fields in H1 as (B1 & D1 & _).
    apply built_fields in H2 as (B2 & D2 & _). apply built_fields in H3 as (B3 & D3 & _).
    split; [right; eauto |]. split; [congruence |]. split; [easy |].
    intros cs Hcs. rewrite Hsome in Hcs. injection Hcs as <-.
    assert (Hboxes : map border_box [c0; c1; c2; c3]
                     = quadrants (border_box n) (node_center_point n)).
    { rewrite Hbox, Hc, Hq. cbn. congruence. }
    repeat split.
    + rewrite Hd. repeat constructor; assumption.
    + now rewrite Hbox.
    + exact Hboxes.
    + intro p. rewrite covering_boxes, Hboxes, Hc, Hbox.
      apply quadrants_partition.
Qed.

(** The tree of the 2x2 checkerboard: its root has four children. *)
Lemma built_tree_structure_witness :
  QuadTree_init checker2 = Ok checker2_tree
  /\ subnode (root checker2_tree) (root checker2_tree)
  /\ (exists c0 c1 c2 c3,
        childrens (root checker2_tree) = Some [c0; c1; c2; c3])
  /\ is_leaf (root checker2_tree) = false
  /\ forall p, covering p
                 (map (fun q => leaf_over checker2 q 1)
                      (quadrants (box_of (0, 0, 2, 2))
                                 (center (box_of (0, 0, 2, 2)))))
               = if in_box p (box_of (0, 0, 2, 2)) then 1%nat else 0%nat.
Proof.
  pose proof (built_tree_structure checker2 checker2_tree (root checker2_tree)
                QuadTree_init_checker2 (subnode_here _))
    as (_ & _ & Hleaf & Hchildren).
  split; [exact QuadTree_init_checker2 |].
  split; [constructor |].
  split; [do 4 eexists; reflexivity |].
  split; [apply Hleaf; discriminate |].
  exact (proj2 (proj2 (proj2 (Hchildren _ eq_refl)))).
Defined.

End Structure.

(** ** Termination and the stopping rule *)

Section Stopping.
Import Pillow Tree Props Threads.

Lemma leaf_depths_subnode (n : QuadtreeNode) :
  forall d, In d (leaf_depths n) ->
            exists x, subnode x n /\ childrens x = None /\ depth x = d.
Proof.
  induction n as [n IH] using QuadtreeNode_induction. intros d Hd.
  destruct n as [bb dn [cs |] lf ps c col e]; cbn in *.
  - apply in_flat_map in Hd as (c0 & Hc0 & Hd).
    specialize (IH cs eq_refl). rewrite Forall_forall in IH.
    destruct (IH c0 Hc0 d Hd) as (x & Hx & Hnone & Hdepth).
    exists x. split; [| easy].
    eapply subnode_child; [reflexivity | exact Hc0 | exact Hx].
  - destruct Hd as [<- | []]. eexists. split; [constructor | easy].
Qed.









(** A lost update, on the 4x4 image: the leaves lie at depths 2, 2, 2, 2,
    1, 1, 1.  The report of the top right quadrant passes its test while the
    counter is 0; the four reports of depth 2 run, the first one storing 2;
    the two other reports of depth 1 fail their tests; the late store of the
    top right quadrant then leaves the counter at 1, above a leaf of depth
    2. *)
Lemma max_depth_under_lost_update :
  leaf_depths (root nested4_tree) = [2; 2; 2; 2; 1; 1; 1]
  /\ max_depth nested4_tree = 2
  /\ max_depth_under [4; 0; 0; 0; 0; 0; 1; 1; 0]%nat (root nested4_tree)
     = Some 1.
Proof. repeat split. Qed.



End Stopping.

(** ** The weighted average of a histogram *)

Section WeightedAverage.
Import Pillow Tree Props.

Lemma spike_length (k count : Z) : length (spike k count) = 256%nat.
Proof. unfold spike. now rewrite length_map, range_length. Qed.

Lemma spike_bin (k count i : Z) :
  0 <= i < 256 -> bin (spike k count) i = if i =? k then count else 0.
Proof.
  intro Hi. unfold bin, spike.
  rewrite (nth_indep _ 0 ((fun j => if j =? k then count else 0) 0))
    by (rewrite length_map, range_length; lia).
  rewrite (map_nth (fun j => if j =? k then count else 0)), range_nth by lia.
  now rewrite Z.add_0_l, Z2Nat.id by lia.
Qed.

Lemma spike_nonneg (k count : Z) :
  0 <= count -> Forall (fun x => 0 <= x) (spike k count).
Proof.
  intro H. apply Forall_forall. intros x Hx. unfold spike in Hx.
  apply in_map_iff in Hx as [i [<- _]]. destruct (i =? k); lia.
Qed.

(** C6: on 256 non-negative counts, [weighted_average] returns [(0, 0)]
    when the counts sum to 0 and otherwise the mean level, the sum of
    [i * bins[i]] over the total, and the square root of the sum of
    [bins[i] * (value - i)^2] over the total; with all the mass at level [k]
    it returns [(k, 0)]. *)
Theorem weighted_average_correct (bins : list Z) :
  length bins = 256%nat ->
  Forall (fun x => 0 <= x) bins ->
  let total := sumZ bins in
  IZR total = Sigma 256 (fun i => IZR (bin bins i))
  /\ (total = 0 -> weighted_average bins = (0%R, 0%R))
  /\ (total <> 0 ->
      let value :=
        (Sigma 256 (fun i => IZR i * IZR (bin bins i)) / IZR total)%R in
      weighted_average bins
      = (value,
         sqrt (Sigma 256 (fun i => IZR (bin bins i) * (value - IZR i) ^ 2)
               / IZR total)%R))
  /\ (forall k,
        0 <= k < 256 -> 0 < bin bins k ->
        (forall i, 0 <= i < 256 -> i <> k -> bin bins i = 0) ->
        weighted_average bins = (IZR k, 0%R)).
Proof.
  intros Hlen Hpos total.
  assert (Htotal : IZR total = Sigma 256 (fun i => IZR (bin bins i))).
  { subst total. now rewrite IZR_sumZ_Sigma, Hlen. }
  split; [exact Htotal |]. split; [| split].
  - intro H0. apply weighted_average_empty. fold total. lia.
  - intros Hne value.
    pose proof (sumZ_nonneg bins Hpos) as Hge. fold total in Hge.
    assert (Hgt : 0 < sumZ bins) by (fold total; lia).
    rewrite (weighted_average_positive bins Hgt). rewrite Hlen.
    subst value. now rewrite <- Htotal.
  - intros k Hk Hmass Hrest.
    apply weighted_average_concentrated; rewrite ?Hlen; try assumption; lia.
Qed.

(** A histogram of 64 pixels at level 128. *)
Lemma weighted_average_correct_witness :
  length (spike 128 64) = 256%nat
  /\ Forall (fun x => 0 <= x) (spike 128 64)
  /\ weighted_average (spike 128 64) = (IZR 128, 0%R).
Proof.
  split; [reflexivity |].
  split; [apply spike_nonneg; lia |].
  destruct (weighted_average_correct (spike 128 64) eq_refl
              (spike_nonneg 128 64 ltac:(lia))) as (_ & _ & _ & H).
  apply (H 128).
  - lia.
  - reflexivity.
  - intros i Hi Hne. rewrite spike_bin by assumption.
    destruct (Z.eqb_spec i 128); [contradiction | reflexivity].
Defined.

End WeightedAverage.

(** ** Leaf extraction *)

Section LeafExtraction.
Import Pillow Tree Props.

Lemma preorder_unfold (anc : list QuadtreeNode) (n : QuadtreeNode) :
  preorder anc n
  = (anc, n) :: match childrens n with
                | Some cs => flat_map (preorder (anc ++ [n])) cs
                | None => []
                end.
Proof. now destruct n. Qed.

Lemma get_leaf_nodes_recursion_unfold (n : QuadtreeNode) (d : Z)
  (acc : list QuadtreeNode) :
  get_leaf_nodes_recursion n d acc
  = if cut d n then acc ++ [n]
    else match childrens n with
         | Some cs =>
             fold_left (fun acc child => get_leaf_nodes_recursion child d acc)
                       cs acc
         | None => acc
         end.
Proof. now destruct n. Qed.

Lemma existsb_forallb_negb {A : Type} (f : A -> bool) (l : list A) :
  forallb (fun a => negb (f a)) l = negb (existsb f l).
Proof.
  induction l as [| a l IH]; cbn; [reflexivity |].
  rewrite IH. now destruct (f a).
Qed.

(** Below a node that is cut, no node is the first of its branch. *)
Lemma first_cut_blocked (d : Z) (n : QuadtreeNode) :
  forall anc,
    existsb (cut d) anc = true ->
    filter (first_cut d) (preorder anc n) = [].
Proof.
  induction n as [n IH] using QuadtreeNode_induction. intros anc Hanc.
  rewrite preorder_unfold. cbn [filter]. unfold first_cut at 1. cbn [fst snd].
  rewrite existsb_forallb_negb, Hanc, andb_false_r.
  destruct (childrens n) as [cs |]; [| reflexivity].
  specialize (IH cs eq_refl).
  induction IH as [| c cs Hc _ IHcs]; cbn; [reflexivity |].
  rewrite filter_app, IHcs, Hc; [reflexivity |].
  rewrite existsb_app, Hanc. reflexivity.
Qed.

(** The traversal returns, in pre-order, the nodes that are the first of
    their branch to be cut. *)
Lemma get_leaf_nodes_recursion_first_cut (d : Z) (n : QuadtreeNode) :
  forall anc acc,
    existsb (cut d) anc = false ->
    get_leaf_nodes_recursion n d acc
    = acc ++ map snd (filter (first_cut d) (preorder anc n)).
Proof.
  induction n as [n IH] using QuadtreeNode_induction. intros anc acc Hanc.
  rewrite get_leaf_nodes_recursion_unfold, preorder_unfold. cbn [filter].
  unfold first_cut at 1. cbn [fst snd].
  rewrite existsb_forallb_negb, Hanc. cbn [negb]. rewrite andb_true_r.
  destruct (cut d n) eqn:Hcut.
  - destruct (childrens n) as [cs |]; [| reflexivity].
    assert (Hblocked : filter (first_cut d) (flat_map (preorder (anc ++ [n])) cs) = []).
    { clear IH. induction cs as [| c cs IHcs]; cbn; [reflexivity |].
      rewrite filter_app, IHcs, first_cut_blocked; [reflexivity |].
      rewrite existsb_app. cbn. rewrite Hcut. now rewrite orb_true_r. }
    now rewrite Hblocked.
  - destruct (childrens n) as [cs |]; [| now rewrite app_nil_r].
    specialize (IH cs eq_refl).
    assert (Hanc' : existsb (cut d) (anc ++ [n]) = false).
    { rewrite existsb_app, Hanc. cbn. now rewrite Hcut. }
    revert acc. induction IH as [| c cs Hc _ IHcs]; intro acc; cbn.
    + now rewrite app_nil_r.
    + rewrite (Hc _ _ Hanc'), IHcs, filter_app, map_app, app_assoc. reflexivity.
Qed.

Lemma first_cut_ancestors (d : Z) (entry : list QuadtreeNode * QuadtreeNode) :
  first_cut d entry = true ->
  cut d (snd entry) = true /\ forall a, In a (fst entry) -> cut d a = false.
Proof.
  unfold first_cut. rewrite andb_true_iff, forallb_forall.
  intros [Hx Hanc]. split; [assumption |].
  intros a Ha. apply Hanc in Ha. now apply negb_true_iff.
Qed.

(** The nodes returned for a built tree hold each point of its region
    once and no other point. *)
Lemma get_leaf_nodes_recursion_covering (image : Image) (d : Z) (p : Point)
  (b : box) (dn : Z) (n : QuadtreeNode) :
  built image b dn n ->
  forall acc,
    covering p (get_leaf_nodes_recursion n d acc)
    = (covering p acc + if in_box p b then 1 else 0)%nat.
Proof.
  induction 1 as [b dn Hstop
                 | b dn f0 f1 f2 f3 c0 c1 c2 c3 Hstop Hsplit
                     H0 IH0 H1 IH1 H2 IH2 H3 IH3]; intro acc;
    rewrite get_leaf_nodes_recursion_unfold.
  - unfold cut. cbn [is_leaf set_is_leaf orb].
    rewrite covering_app. unfold covering at 2. cbn [filter border_box set_is_leaf].
    rewrite node_init_border_box. now destruct (in_box p b).
  - remember (set_childrens (node_init image b dn) (Some [c0; c1; c2; c3])) as n.
    destruct (cut d n).
    + rewrite covering_app. unfold covering at 2. subst n.
      cbn [filter border_box set_childrens].
      rewrite node_init_border_box. now destruct (in_box p b).
    + subst n. cbn [childrens set_childrens fold_left].
      rewrite IH3, IH2, IH1, IH0.
      rewrite <- (quadrants_partition b p).
      rewrite split_childrens_quadrants, node_init_border_box, node_init_center
        in Hsplit.
      destruct (quadrants b (center b)) as [| b0 [| b1 [| b2 [| b3 [| ? ?]]]]];
        try discriminate.
      cbn in Hsplit. injection Hsplit as <- <- <- <-.
      rewrite !node_init_border_box. cbn [filter].
      destruct (in_box p b0), (in_box p b1), (in_box p b2), (in_box p b3);
        cbn [length]; lia.
Qed.

Lemma get_leaf_nodes_beyond (t : QuadTree) (d : Z) :
  max_depth t < d -> get_leaf_nodes t d = Raise ValueError.
Proof.
  intro H. unfold get_leaf_nodes.
  destruct (Z.ltb_spec (max_depth t) d); [reflexivity | lia].
Qed.

Lemma get_leaf_nodes_within (t : QuadTree) (d : Z) :
  d <= max_depth t ->
  get_leaf_nodes t d = Ok (get_leaf_nodes_recursion (root t) d []).
Proof.
  intro H. unfold get_leaf_nodes.
  destruct (Z.ltb_spec (max_depth t) d); [lia | reflexivity].
Qed.

(** C4: [get_leaf_nodes] raises [ValueError] exactly when the depth asked
    for exceeds [max_depth]; it does so at [max_depth + 1]; at any depth up
    to [max_depth] it returns the traversal for that very depth. *)
Theorem get_leaf_nodes_invalid_depth (t : QuadTree) (d : Z) :
  (get_leaf_nodes t d = Raise ValueError <-> max_depth t < d)
  /\ ((exists l, get_leaf_nodes t d = Ok l) <-> d <= max_depth t)
  /\ get_leaf_nodes t (max_depth t + 1) = Raise ValueError
  /\ (d <= max_depth t ->
      get_leaf_nodes t d = Ok (get_leaf_nodes_recursion (root t) d [])).
Proof.
  unfold get_leaf_nodes. repeat split.
  - destruct (Z.ltb_spec (max_depth t) d); [easy | discriminate].
  - intro H. destruct (Z.ltb_spec (max_depth t) d); [reflexivity | lia].
  - intros [l H]. destruct (Z.ltb_spec (max_depth t) d); [discriminate | assumption].
  - intro H. destruct (Z.ltb_spec (max_depth t) d); [lia | eauto].
  - destruct (Z.ltb_spec (max_depth t) (max_depth t + 1)); [reflexivity | lia].
  - intro H. destruct (Z.ltb_spec (max_depth t) d); [lia | reflexivity].
Qed.

End LeafExtraction.

Section LeafPartition.
Import Pillow Tree Props.

(** C1, as the code has it: for the tree of an image and a depth [d] from 0
    to [max_depth], [get_leaf_nodes] returns, in pre-order, exactly the nodes
    that are the first of their branch to be a leaf or to lie at depth [d];
    no ancestor of a returned node is returned; and the returned regions
    hold every point of the root's region exactly once and no other point.
    The root's region is the box that [image.getbbox()] returns. *)
Theorem get_leaf_nodes_partition (image : Image) (t : QuadTree) (d : Z) :
  QuadTree_init image = Ok t ->
  0 <= d <= max_depth t ->
  exists bbox,
    getbbox image = Some bbox
    /\ border_box (root t) = box_of bbox
    /\ let selected := filter (first_cut d) (preorder [] (root t)) in
       get_leaf_nodes t d = Ok (map snd selected)
       /\ (forall anc x a,
             In (anc, x) selected -> In a anc ->
             cut d x = true /\ cut d a = false /\ ~ In a (map snd selected))
       /\ (forall p,
             covering p (map snd selected)
             = if in_box p (box_of bbox) then 1%nat else 0%nat).
Proof.
  intros Hinit Hd.
  destruct (QuadTree_init_built image t Hinit) as (bbox & Hbbox & Hbuilt).
  exists bbox. split; [assumption |].
  split; [apply (built_fields image _ _ _ Hbuilt) |].
  cbv zeta.
  assert (Hrec : get_leaf_nodes_recursion (root t) d []
                 = map snd (filter (first_cut d) (preorder [] (root t)))).
  { now rewrite (get_leaf_nodes_recursion_first_cut d (root t) [] []). }
  split; [| split].
  - rewrite get_leaf_nodes_within by lia. now rewrite Hrec.
  - intros anc x a Hsel Ha. apply filter_In in Hsel as [_ Hfirst].
    apply first_cut_ancestors in Hfirst as [Hx Hanc]. cbn [fst snd] in *.
    split; [assumption |]. split; [now apply Hanc |].
    intro Hin. apply in_map_iff in Hin as [[anc' a'] [Heq Hin]].
    cbn in Heq. subst a'. apply filter_In in Hin as [_ Hfirst].
    apply first_cut_ancestors in Hfirst as [Hcut _]. cbn in Hcut.
    rewrite (Hanc a Ha) in Hcut. discriminate.
  - intro p. rewrite <- Hrec.
    now rewrite (get_leaf_nodes_recursion_covering image d p _ _ _ Hbuilt).
Qed.

(** The 2x2 checkerboard at depth 1: the four quadrants are returned. *)
Lemma get_leaf_nodes_partition_witness :
  QuadTree_init checker2 = Ok checker2_tree
  /\ 0 <= 1 <= max_depth checker2_tree
  /\ exists l,
      get_leaf_nodes checker2_tree 1 = Ok l
      /\ length l = 4%nat
      /\ forall p, covering p l
                   = if in_box p (box_of (0, 0, 2, 2)) then 1%nat else 0%nat.
Proof.
  split; [exact QuadTree_init_checker2 |].
  split; [cbn; lia |].
  destruct (get_leaf_nodes_partition checker2 checker2_tree 1
              QuadTree_init_checker2 ltac:(cbn; lia))
    as (bbox & Hbbox & _ & Hget & _ & Hcover).
  assert (Hb : bbox = (0, 0, 2, 2)).
  { assert (H : getbbox checker2 = Some (0, 0, 2, 2)) by (vm_compute; reflexivity).
    congruence. }
  subst bbox. eexists. split; [exact Hget |]. split; [reflexivity | exact Hcover].
Defined.

(** C1 as stated fails on a 2x1 image whose left pixel is black: the
    bounding box leaves that pixel out, the tree is one leaf over the right
    pixel, and the point [(0, 0)] of the image lies in no returned region. *)
Lemma get_leaf_nodes_misses_black_margin :
  QuadTree_init margin2 = Ok margin2_tree
  /\ size margin2 = (2, 1)
  /\ 0 <= 0 <= max_depth margin2_tree
  /\ exists l,
      get_leaf_nodes margin2_tree 0 = Ok l
      /\ map border_box l = [box_of (1, 0, 2, 1)]
      /\ in_box (mkPoint 0 0)
                (0, 0, inject_Z (width margin2_tree),
                 inject_Z (height margin2_tree))%Q = true
      /\ covering (mkPoint 0 0) l = 0%nat.
Proof.
  split; [exact QuadTree_init_margin2 |].
  split; [reflexivity |].
  split; [cbn; lia |].
  eexists. split; [reflexivity |]. repeat split.
Qed.

End LeafPartition.

(** ** Images of one colour *)

Section FlatImages.
Import Pillow Tree Props WorkWithImages.

Lemma skipn_app_exact {A : Type} (l1 l2 : list A) :
  skipn (length l1) (l1 ++ l2) = l2.
Proof. now rewrite skipn_app, skipn_all, Nat.sub_diag. Qed.

Lemma firstn_app_exact {A : Type} (l1 l2 : list A) :
  firstn (length l1) (l1 ++ l2) = l1.
Proof. now rewrite firstn_app, Nat.sub_diag, firstn_all, firstn_O, app_nil_r. Qed.

Lemma slice_spikes (s1 s2 s3 : list Z) :
  length s1 = 256%nat -> length s2 = 256%nat -> length s3 = 256%nat ->
  slice 0 256 (s1 ++ s2 ++ s3) = s1
  /\ slice 256 512 (s1 ++ s2 ++ s3) = s2
  /\ slice 512 768 (s1 ++ s2 ++ s3) = s3.
Proof.
  intros H1 H2 H3. unfold slice.
  change (256 - 0)%nat with 256%nat. change (512 - 256)%nat with 256%nat.
  change (768 - 512)%nat with 256%nat.
  change (skipn 0 (s1 ++ s2 ++ s3)) with (s1 ++ s2 ++ s3).
  assert (E1 : skipn 256 (s1 ++ s2 ++ s3) = s2 ++ s3)
    by (rewrite <- H1; apply skipn_app_exact).
  assert (E2 : skipn 512 (s1 ++ s2 ++ s3) = s3).
  { replace 512%nat with (length (s1 ++ s2)) by (rewrite length_app; lia).
    rewrite app_assoc. apply skipn_app_exact. }
  rewrite E1, E2. repeat split.
  - rewrite <- H1. apply firstn_app_exact.
  - rewrite <- H2. apply firstn_app_exact.
  - rewrite <- H3. apply firstn_all.
Qed.

Lemma weighted_average_spike (k count : Z) :
  0 <= k < 256 -> 0 < count ->
  weighted_average (spike k count) = (IZR k, 0%R).
Proof.
  intros Hk Hc. apply weighted_average_concentrated.
  - rewrite spike_length. lia.
  - rewrite spike_bin, Z.eqb_refl by assumption. assumption.
  - rewrite spike_length. intros i Hi Hne. rewrite spike_bin by lia.
    destruct (Z.eqb_spec i k); [contradiction | reflexivity].
Qed.

(** A region whose histogram is one spike per channel has error 0. *)
Lemma node_error_flat (image : Image) (b : box) (d r g bl count : Z) :
  0 <= r < 256 -> 0 <= g < 256 -> 0 <= bl < 256 -> 0 < count ->
  crop_histogram image b = spike r count ++ spike g count ++ spike bl count ->
  error (node_init image b d) = 0%R.
Proof.
  intros Hr Hg Hb Hc Hhist. rewrite node_init_error, Hhist.
  unfold color_from_histogram.
  destruct (slice_spikes (spike r count) (spike g count) (spike bl count))
    as (-> & -> & ->); try apply spike_length.
  rewrite !weighted_average_spike by assumption. cbn [snd]. lra.
Qed.

(** C5, as the code has it: an image that has a bounding box and whose
    histogram over it is one spike per channel yields a tree that is a
    single leaf at depth 0, with [max_depth] 0; the leaf set, and the
    picture drawn from it, is that leaf for every level up to 0, and for
    every level from 1 on [get_leaf_nodes] raises [ValueError]. *)
Theorem flat_image_single_leaf (image : Image) (bbox : Z * Z * Z * Z)
  (r g b count : Z) :
  getbbox image = Some bbox ->
  0 <= r < 256 -> 0 <= g < 256 -> 0 <= b < 256 -> 0 < count ->
  crop_histogram image (box_of bbox)
  = spike r count ++ spike g count ++ spike b count ->
  exists t,
    QuadTree_init image = Ok t
    /\ root t = leaf_over image (box_of bbox) 0
    /\ is_leaf (root t) = true /\ childrens (root t) = None
    /\ depth (root t) = 0 /\ error (root t) = 0%R
    /\ max_depth t = 0
    /\ (forall level, level <= 0 -> get_leaf_nodes t level = Ok [root t])
    /\ (forall level, 1 <= level -> get_leaf_nodes t level = Raise ValueError)
    /\ (forall level borders,
          1 <= level -> create_image t level borders = Raise ValueError).
Proof.
  intros Hbbox Hr Hg Hb Hc Hhist.
  pose proof (node_error_flat image (box_of bbox) 0 r g b count Hr Hg Hb Hc Hhist)
    as Herr.
  assert (Hstop : stop_rule (node_init image (box_of bbox) 0) = true).
  { apply stop_rule_true. right. rewrite Herr. unfold ERROR_THRESHOLD. lra. }
  exists (mkQuadTree (fst (size image)) (snd (size image))
            (leaf_over image (box_of bbox) 0) 0).
  split.
  { unfold QuadTree_init. rewrite Hbbox. destruct bbox as [[[l tp] rt] bt].
    cbn [box_of] in *. now rewrite build_tree_step, Hstop. }
  cbn [root max_depth]. repeat split; try assumption.
  - intros level Hlevel. unfold get_leaf_nodes. cbn [max_depth root].
    destruct (Z.ltb_spec 0 level); [lia |].
    now rewrite get_leaf_nodes_recursion_unfold.
  - intros level Hlevel. unfold get_leaf_nodes. cbn [max_depth].
    destruct (Z.ltb_spec 0 level); [reflexivity | lia].
  - intros level borders Hlevel. unfold create_image, get_leaf_nodes.
    cbn [max_depth]. destruct (Z.ltb_spec 0 level); [reflexivity | lia].
Qed.

(** The uniform 8x8 image. *)
Lemma flat_image_single_leaf_witness :
  getbbox flat8 = Some (0, 0, 8, 8)
  /\ crop_histogram flat8 (box_of (0, 0, 8, 8))
     = spike 128 64 ++ spike 128 64 ++ spike 128 64
  /\ exists t,
      QuadTree_init flat8 = Ok t
      /\ max_depth t = 0
      /\ get_leaf_nodes t 0 = Ok [root t]
      /\ get_leaf_nodes t 1 = Raise ValueError.
Proof.
  assert (Hbbox : getbbox flat8 = Some (0, 0, 8, 8)) by (vm_compute; reflexivity).
  assert (Hhist : crop_histogram flat8 (box_of (0, 0, 8, 8))
                  = spike 128 64 ++ spike 128 64 ++ spike 128 64)
    by (vm_compute; reflexivity).
  split; [exact Hbbox |]. split; [exact Hhist |].
  destruct (flat_image_single_leaf flat8 (0, 0, 8, 8) 128 128 128 64 Hbbox
              ltac:(lia) ltac:(lia) ltac:(lia) ltac:(lia) Hhist)
    as (t & Hinit & _ & _ & _ & _ & _ & Hmax & Hget & Hfail & _).
  exists t. repeat split; [exact Hinit | exact Hmax | apply Hget | apply Hfail]; lia.
Defined.

Lemma leaf_over_error (image : Image) (b : box) (d : Z) :
  error (leaf_over image b d) = error (node_init image b d).
Proof. reflexivity. Qed.

Lemma root_flat8_tree :
  root flat8_tree = leaf_over flat8 (box_of (0, 0, 8, 8)) 0.
Proof. reflexivity. Qed.

(** C5 as stated fails on the uniform 8x8 image at level 1, a level that
    the command line accepts: the leaf set is refused and the run writes
    nothing.  A uniform black image has no bounding box, and construction
    itself raises [TypeError]. *)
Lemma flat_image_level_one_fails :
  QuadTree_init flat8 = Ok flat8_tree
  /\ error (root flat8_tree) = 0%R
  /\ get_leaf_nodes flat8_tree 1 = Raise ValueError
  /\ compression_start flat8 1 false false = ([], Raise ValueError)
  /\ getbbox black8 = None
  /\ QuadTree_init black8 = Raise TypeError.
Proof.
  split; [exact QuadTree_init_flat8 |].
  split.
  { rewrite root_flat8_tree, leaf_over_error.
    apply (node_error_flat flat8 _ 0 128 128 128 64); try lia.
    vm_compute. reflexivity. }
  split; [reflexivity |].
  split.
  { unfold compression_start. rewrite QuadTree_init_flat8. reflexivity. }
  split; [vm_compute; reflexivity | exact QuadTree_init_black8].
Qed.

End FlatImages.

(** ** The animation *)

Section Animation.
Import Pillow Tree Props WorkWithImages.

Lemma range_cons (a b : Z) : a < b -> range a b = a :: range (a + 1) b.
Proof.
  intro H. unfold range.
  replace (Z.to_nat (b - a)) with (S (Z.to_nat (b - (a + 1)))) by lia.
  cbn [seq map]. rewrite Z.add_0_r. f_equal.
  rewrite <- seq_shift, map_map. apply map_ext. intro i. lia.
Qed.

Lemma create_image_ok (t : QuadTree) (level : Z) (borders : bool) :
  level <= max_depth t -> exists image, create_image t level borders = Ok image.
Proof.
  intro H. unfold create_image.
  rewrite (get_leaf_nodes_within t level H). cbn [bind]. eauto.
Qed.

Lemma create_image_fails (t : QuadTree) (level : Z) (borders : bool) :
  max_depth t < level -> create_image t level borders = Raise ValueError.
Proof.
  intro H. unfold create_image.
  now rewrite (get_leaf_nodes_beyond t level H).
Qed.

(** The loop adds one frame per depth up to [max_depth] and fails at the
    next depth, when that depth is still asked for. *)
Lemma gif_loop_fails (t : QuadTree) (borders : bool) (stop : Z) (todo : nat) :
  forall (value : Z) (gif : CreatorGifImages),
    value + Z.of_nat todo = max_depth t + 1 ->
    max_depth t + 1 < stop ->
    exists gif',
      gif_loop t borders (range value stop) gif = (gif', Raise ValueError)
      /\ length (frames gif') = (length (frames gif) + todo)%nat.
Proof.
  induction todo as [| todo IH]; intros value gif Hvalue Hstop.
  - rewrite range_cons by lia. cbn [gif_loop].
    rewrite create_image_fails by lia. exists gif. split; [reflexivity | lia].
  - rewrite range_cons by lia. cbn [gif_loop].
    destruct (create_image_ok t value borders) as [image ->]; [lia |].
    destruct (IH (value + 1) (add_img_to_gif image gif)) as (gif' & -> & Hlen);
      [lia | lia |].
    exists gif'. split; [reflexivity |].
    rewrite Hlen. cbn [frames add_img_to_gif]. rewrite length_app. cbn. lia.
Qed.

Lemma QuadTree_init_max_depth_nonneg (image : Image) (t : QuadTree) :
  QuadTree_init image = Ok t -> 0 <= max_depth t.
Proof. intro H. apply (QuadTree_init_max_depth image t H). Qed.

(** C10: with the animation flag set, [compression_start] asks for the
    leaf set at every depth from 0 to [MAX_DEPTH]; when the tree of the
    image has [max_depth] below [MAX_DEPTH], the call ends with
    [ValueError] and writes no animation: for a level within [max_depth]
    the still picture is written, the loop makes [max_depth + 1] frames and
    fails at depth [max_depth + 1]; for a larger level the call fails before
    it writes anything. *)
Theorem animation_fails_below_max_depth (image : Image) (t : QuadTree)
  (level : Z) (borders : bool) :
  QuadTree_init image = Ok t ->
  max_depth t < MAX_DEPTH ->
  range 0 (MAX_DEPTH + 1) = [0; 1; 2; 3; 4; 5; 6; 7; 8]
  /\ snd (compression_start image level borders true) = Raise ValueError
  /\ (forall gif_frames,
        ~ In (GifSaved gif_frames)
             (fst (compression_start image level borders true)))
  /\ (level <= max_depth t ->
      exists result_image gif,
        create_image t level borders = Ok result_image
        /\ fst (compression_start image level borders true)
           = [ImageSaved result_image]
        /\ gif_loop t borders (range 0 (MAX_DEPTH + 1)) (mkGif [] 0 1)
           = (gif, Raise ValueError)
        /\ length (frames gif) = Z.to_nat (max_depth t + 1)
        /\ create_image t (max_depth t + 1) borders = Raise ValueError)
  /\ (max_depth t < level ->
      fst (compression_start image level borders true) = []).
Proof.
  intros Hinit Hmax.
  pose proof (QuadTree_init_max_depth_nonneg image t Hinit) as Hnonneg.
  destruct (gif_loop_fails t borders (MAX_DEPTH + 1) (Z.to_nat (max_depth t + 1))
              0 (mkGif [] 0 1)) as (gif & Hloop & Hlen); [lia | lia |].
  cbn [frames length Nat.add] in Hlen.
  split; [reflexivity |].
  unfold compression_start. rewrite Hinit.
  destruct (Z.le_gt_cases level (max_depth t)) as [Hle | Hgt].
  - destruct (create_image_ok t level borders Hle) as [result_image Himage].
    rewrite Himage, Hloop. cbn [fst snd].
    split; [reflexivity |]. split; [| split].
    + intros gif_frames [H | []]. discriminate H.
    + intros _. exists result_image, gif.
      repeat split; try assumption. apply create_image_fails. lia.
    + intro H. lia.
  - rewrite create_image_fails by lia. cbn [fst snd].
    split; [reflexivity |]. split; [| split].
    + intros gif_frames [].
    + intro H. lia.
    + reflexivity.
Qed.

(** The 2x2 checkerboard at level 1: the picture is written, two frames
    are made and the animation is not. *)
Lemma animation_fails_below_max_depth_witness :
  QuadTree_init checker2 = Ok checker2_tree
  /\ max_depth checker2_tree < MAX_DEPTH
  /\ snd (compression_start checker2 1 true true) = Raise ValueError
  /\ exists result_image gif,
      fst (compression_start checker2 1 true true) = [ImageSaved result_image]
      /\ gif_loop checker2_tree true (range 0 (MAX_DEPTH + 1)) (mkGif [] 0 1)
         = (gif, Raise ValueError)
      /\ length (frames gif) = 2%nat.
Proof.
  assert (Hmax : max_depth checker2_tree < MAX_DEPTH) by reflexivity.
  destruct (animation_fails_below_max_depth checker2 checker2_tree 1 true
              QuadTree_init_checker2 Hmax) as (_ & Hend & _ & Hrun & _).
  destruct (Hrun ltac:(cbn; lia)) as (result_image & gif & _ & Hout & Hloop & Hlen & _).
  split; [exact QuadTree_init_checker2 |]. split; [exact Hmax |].
  split; [exact Hend |].
  exists result_image, gif. auto.
Defined.

End Animation.

(** ** The point index *)

Section PointIndex.
Import Pillow Tree Props.

Lemma built_four_way (image : Image) (b : box) (d : Z) (n : QuadtreeNode) :
  built image b d n -> four_way n.
Proof.
  induction 1.
  - apply four_way_leaf. reflexivity.
  - eapply four_way_node; [reflexivity | assumption ..].
Qed.

Lemma quadrant_step (n : QuadtreeNode) (p : Point) :
  quadrant n p = Some (step n p).
Proof.
  unfold quadrant, step, x_lt, y_lt, x_ge, y_ge, Qlt_bool.
  now destruct (Qle_bool _ (x_coordinate p)), (Qle_bool _ (y_coordinate p)).
Qed.

Lemma insert_point_leaf (n : QuadtreeNode) (p : Point) :
  childrens n = None ->
  insert_point n p = Ok (set_node_points n (node_points n ++ [p])).
Proof. destruct n. cbn. now intros ->. Qed.

(** [insert_point] at a node with four children, by the quadrant of the
    point: the two top quadrants return from the call on the child, the two
    bottom ones go on to the [append]. *)
Lemma insert_point_node (n c0 c1 c2 c3 : QuadtreeNode) (p : Point) :
  childrens n = Some [c0; c1; c2; c3] ->
  insert_point n p
  = match step n p with
    | 0%nat => c <- insert_point c0 p ;; Ok (set_childrens n (Some [c; c1; c2; c3]))
    | 1%nat => c <- insert_point c1 p ;; Ok (set_childrens n (Some [c0; c; c2; c3]))
    | 2%nat =>
        c <- insert_point c2 p ;;
        Ok (set_node_points (set_childrens n (Some [c0; c1; c; c3]))
                            (node_points n ++ [p]))
    | _ =>
        c <- insert_point c3 p ;;
        Ok (set_node_points (set_childrens n (Some [c0; c1; c2; c]))
                            (node_points n ++ [p]))
    end.
Proof.
  destruct n as [bb d cs lf ps c col e]. cbn [childrens]. intros ->.
  unfold step. cbn [insert_point childrens node_center_point].
  unfold x_lt, y_lt, x_ge, y_ge, Qlt_bool.
  destruct (Qle_bool (x_coordinate c) (x_coordinate p)),
    (Qle_bool (y_coordinate c) (y_coordinate p));
    cbn [negb andb Nat.add update_at bind];
    match goal with
    | |- context [insert_point ?ci p] => destruct (insert_point ci p)
    end; reflexivity.
Qed.

Lemma find_node_leaf (n : QuadtreeNode) (p : Point) (acc : list QuadtreeNode) :
  childrens n = None -> find_node n p acc = Ok (n, acc ++ [n]).
Proof. destruct n. cbn. now intros ->. Qed.

Lemma find_node_node (n c0 c1 c2 c3 : QuadtreeNode) (p : Point)
  (acc : list QuadtreeNode) :
  childrens n = Some [c0; c1; c2; c3] ->
  find_node n p acc
  = find_node (match step n p with
               | 0%nat => c0 | 1%nat => c1 | 2%nat => c2 | _ => c3
               end) p (acc ++ [n]).
Proof.
  intro H. pose proof (quadrant_step n p) as Hq.
  destruct n as [bb d cs lf ps c col e]. cbn [childrens] in H. subst cs.
  cbn [find_node childrens]. rewrite Hq.
  unfold step. cbn [node_center_point].
  now destruct (x_ge p c), (y_ge p c).
Qed.

End PointIndex.

Section PointInsertion.
Import Pillow Tree Props.

Lemma y_lt_step (n : QuadtreeNode) (p : Point) :
  y_lt p (node_center_point n) = true <-> (step n p < 2)%nat.
Proof.
  unfold step, y_lt, y_ge, Qlt_bool.
  destruct (x_ge p (node_center_point n)),
    (Qle_bool (y_coordinate (node_center_point n)) (y_coordinate p));
    cbn; split; intro; try lia; try discriminate; reflexivity.
Qed.

Lemma insert_point_descent (p : Point) (n : QuadtreeNode) :
  four_way n ->
  exists n' x x' visited visited',
    insert_point n p = Ok n'
    /\ (forall acc, find_node n p acc = Ok (x, acc ++ visited))
    /\ (forall acc, find_node n' p acc = Ok (x', acc ++ visited'))
    /\ childrens x = None
    /\ node_points x' = node_points x ++ [p]
    /\ Forall2 (passed_over p) visited visited'
    /\ four_way n'.
Proof.
  induction 1 as [n Hnone | n c0 c1 c2 c3 Hsome F0 IH0 F1 IH1 F2 IH2 F3 IH3].
  - exists (set_node_points n (node_points n ++ [p])), n,
      (set_node_points n (node_points n ++ [p])), [n],
      [set_node_points n (node_points n ++ [p])].
    split; [now apply insert_point_leaf |].
    split; [intro acc; now apply find_node_leaf |].
    split; [intro acc; now apply find_node_leaf |].
    split; [assumption |]. split; [reflexivity |].
    split.
    + constructor; [| constructor]. repeat split. intros Hc. contradiction.
    + now apply four_way_leaf.
  - rewrite (insert_point_node n c0 c1 c2 c3 p Hsome).
    pose proof (y_lt_step n p) as Hy.
    destruct (step n p) as [| [| [| k]]] eqn:Hstep;
      [destruct IH0 as (c & x & x' & vis & vis' & -> & Hf & Hf' & Hx & Hp & Hall & Hc)
      |destruct IH1 as (c & x & x' & vis & vis' & -> & Hf & Hf' & Hx & Hp & Hall & Hc)
      |destruct IH2 as (c & x & x' & vis & vis' & -> & Hf & Hf' & Hx & Hp & Hall & Hc)
      |destruct IH3 as (c & x & x' & vis & vis' & -> & Hf & Hf' & Hx & Hp & Hall & Hc)];
      cbn [bind];
      match goal with
      | |- context [@Ok QuadtreeNode ?m] =>
          exists m, x, x', (n :: vis), (m :: vis')
      end;
      (split; [reflexivity |]);
      (split; [intro acc; rewrite (find_node_node n c0 c1 c2 c3 p acc Hsome), Hstep, Hf;
               now rewrite <- app_assoc |]);
      (split; [intro acc;
               erewrite find_node_node by reflexivity;
               match goal with
               | |- context [step ?m p] => change (step m p) with (step n p)
               end;
               rewrite Hstep, Hf'; now rewrite <- app_assoc |]);
      (split; [assumption |]); (split; [assumption |]);
      (split; [constructor; [| assumption]; repeat split;
               intros _ Hlt; apply Hy in Hlt; try lia
              | eapply four_way_node; [reflexivity | assumption ..]]).
Qed.


Lemma QuadTree_init_four_way (image : Image) (t : QuadTree) :
  QuadTree_init image = Ok t -> four_way (root t).
Proof.
  intro H. apply QuadTree_init_built in H as (bbox & _ & Hbuilt).
  eapply built_four_way, Hbuilt.
Qed.

(** The descent of [insert_point]: on a tree whose nodes have no children
    or four (the tree of an image, also after insertions), it succeeds
    and appends the point to the collection of the terminal node, the one
    that [find_node] reaches by comparing the point with the centre of each
    node, a coordinate equal to the centre going to the greater-or-equal
    side; a node of the descent path that the descent leaves for one of its
    two top quadrants keeps its collection as it was. *)
Theorem insert_point_records_terminal (n : QuadtreeNode) (p : Point) :
  four_way n ->
  exists n' x x' visited visited',
    insert_point n p = Ok n'
    /\ find_node n p [] = Ok (x, visited)
    /\ find_node n' p [] = Ok (x', visited')
    /\ childrens x = None
    /\ node_points x' = node_points x ++ [p]
    /\ Forall2 (passed_over p) visited visited'
    /\ (forall c0 c1 c2 c3,
          childrens n = Some [c0; c1; c2; c3] ->
          find_node n p []
          = find_node (nth (step n p) [c0; c1; c2; c3] c3) p [n]
          /\ (y_lt p (node_center_point n) = true ->
              node_points n' = node_points n)).
Proof.
  intro Hn.
  destruct (insert_point_descent p n Hn)
    as (n' & x & x' & vis & vis' & Hins & Hf & Hf' & Hx & Hp & Hall & _).
  exists n', x, x', vis, vis'.
  split; [assumption |]. split; [apply (Hf []) |]. split; [apply (Hf' []) |].
  split; [assumption |]. split; [assumption |]. split; [assumption |].
  intros c0 c1 c2 c3 Hsome. split.
  - rewrite (find_node_node n c0 c1 c2 c3 p [] Hsome).
    destruct (step n p) as [| [| [| [| [| k]]]]]; reflexivity.
  - intro Hy. rewrite (insert_point_node n c0 c1 c2 c3 p Hsome) in Hins.
    apply y_lt_step in Hy.
    destruct (step n p) as [| [| k]]; [| | lia];
      match type of Hins with
      | context [insert_point ?c p] => destruct (insert_point c p)
      end; try discriminate; cbn [bind] in Hins; injection Hins as <-; reflexivity.
Qed.

End PointInsertion.

Section PointExamples.
Import Pillow Tree Props.

Lemma leaf_over_childrens (image : Image) (b : box) (d : Z) :
  childrens (leaf_over image b d) = None.
Proof. reflexivity. Qed.

Lemma leaf_over_node_points (image : Image) (b : box) (d : Z) :
  node_points (leaf_over image b d) = [].
Proof. reflexivity. Qed.

Lemma root_checker2_tree :
  exists q0 q1 q2 q3,
    root checker2_tree
    = set_childrens (node_init checker2 (box_of (0, 0, 2, 2)) 0)
        (Some [leaf_over checker2 q0 1; leaf_over checker2 q1 1;
               leaf_over checker2 q2 1; leaf_over checker2 q3 1]).
Proof. do 4 eexists. reflexivity. Qed.

(** The 2x2 checkerboard and a point of its top left pixel. *)
Lemma insert_point_records_terminal_witness :
  four_way (root checker2_tree)
  /\ exists n' x x' visited visited',
      insert_point (root checker2_tree) top_left_point = Ok n'
      /\ find_node (root checker2_tree) top_left_point [] = Ok (x, visited)
      /\ find_node n' top_left_point [] = Ok (x', visited')
      /\ childrens x = None
      /\ node_points x' = node_points x ++ [top_left_point]
      /\ Forall2 (passed_over top_left_point) visited visited'.
Proof.
  pose proof (QuadTree_init_four_way checker2 checker2_tree QuadTree_init_checker2)
    as Hfour.
  split; [exact Hfour |].
  destruct (insert_point_records_terminal (root checker2_tree) top_left_point Hfour)
    as (n' & x & x' & visited & visited' & H1 & H2 & H3 & H4 & H5 & H6 & _).
  exists n', x, x', visited, visited'. auto 10.
Defined.

(** C2 fails on the code, at the root of the 2x2 checkerboard, which has
    four children.  A point of the top left pixel is inserted: the descent
    path is the root and its top left child, and afterwards the child holds
    the point and the root holds none, the branch of the top quadrants
    returning before the append.  A point of the bottom left pixel takes the
    sibling branch, which goes on to the append: the root and the child both
    hold it. *)
Lemma insert_point_skips_ancestor :
  (exists c0 c1 c2 c3, childrens (root checker2_tree) = Some [c0; c1; c2; c3])
  /\ node_points (root checker2_tree) = []
  /\ (exists n' x visited,
        insert_point (root checker2_tree) top_left_point = Ok n'
        /\ find_node n' top_left_point [] = Ok (x, visited)
        /\ map node_points visited = [[]; [top_left_point]]
        /\ node_points n' = [])
  /\ (exists n' x visited,
        insert_point (root checker2_tree) bottom_left_point = Ok n'
        /\ find_node n' bottom_left_point [] = Ok (x, visited)
        /\ map node_points visited
           = [[bottom_left_point]; [bottom_left_point]]
        /\ node_points n' = [bottom_left_point]).
Proof.
  destruct root_checker2_tree as (q0 & q1 & q2 & q3 & Hroot).
  rewrite Hroot.
  split; [cbn [childrens set_childrens]; eauto |].
  split; [reflexivity |].
  set (n := node_init checker2 (box_of (0, 0, 2, 2)) 0).
  set (c0 := leaf_over checker2 q0 1). set (c1 := leaf_over checker2 q1 1).
  set (c2 := leaf_over checker2 q2 1). set (c3 := leaf_over checker2 q3 1).
  split.
  - set (c := set_node_points c0 (node_points c0 ++ [top_left_point])).
    assert (Hstep : forall cs, step (set_childrens n cs) top_left_point = 0%nat)
      by (intro cs; reflexivity).
    exists (set_childrens (set_childrens n (Some [c0; c1; c2; c3]))
              (Some [c; c1; c2; c3])), c,
      [set_childrens (set_childrens n (Some [c0; c1; c2; c3]))
         (Some [c; c1; c2; c3]); c].
    split.
    { rewrite (insert_point_node (set_childrens n (Some [c0; c1; c2; c3]))
                 c0 c1 c2 c3 top_left_point eq_refl), Hstep.
      now rewrite (insert_point_leaf c0 top_left_point eq_refl). }
    split.
    { rewrite (find_node_node
                 (set_childrens (set_childrens n (Some [c0; c1; c2; c3]))
                    (Some [c; c1; c2; c3])) c c1 c2 c3 top_left_point [] eq_refl).
      change (step (set_childrens (set_childrens n (Some [c0; c1; c2; c3]))
                      (Some [c; c1; c2; c3])) top_left_point)
        with (step (set_childrens n (Some [c; c1; c2; c3])) top_left_point).
      rewrite Hstep. now rewrite (find_node_leaf c top_left_point _ eq_refl). }
    split; reflexivity.
  - set (c := set_node_points c2 (node_points c2 ++ [bottom_left_point])).
    assert (Hstep : forall cs,
              step (set_childrens n cs) bottom_left_point = 2%nat)
      by (intro cs; reflexivity).
    set (m := set_node_points
                (set_childrens (set_childrens n (Some [c0; c1; c2; c3]))
                   (Some [c0; c1; c; c3]))
                (node_points (set_childrens n (Some [c0; c1; c2; c3]))
                 ++ [bottom_left_point])).
    exists m, c, [m; c].
    split.
    { rewrite (insert_point_node (set_childrens n (Some [c0; c1; c2; c3]))
                 c0 c1 c2 c3 bottom_left_point eq_refl), Hstep.
      now rewrite (insert_point_leaf c2 bottom_left_point eq_refl). }
    split.
    { rewrite (find_node_node m c0 c1 c c3 bottom_left_point [] eq_refl).
      change (step m bottom_left_point)
        with (step (set_childrens n (Some [c0; c1; c; c3])) bottom_left_point).
      rewrite Hstep. now rewrite (find_node_leaf c bottom_left_point _ eq_refl). }
    split; reflexivity.
Qed.

Lemma remove_point_leaf (n : QuadtreeNode) (p : Point) :
  childrens n = None ->
  remove_point n p
  = Ok (set_node_points n
          (remove_loop (length (node_points n)) 0 (node_points n) p)).
Proof. destruct n. cbn. now intros ->. Qed.

Lemma find_node_contain_point_leaf (n : QuadtreeNode) (p : Point) :
  childrens n = None -> find_node_contain_point n p = Ok n.
Proof.
  intro H. unfold find_node_contain_point. now rewrite find_node_leaf.
Qed.

(** [Point.__eq__] holds of a point and itself only on the diagonal. *)
Lemma Point_eq_self (p : Point) :
  Point_eq p p = true <-> (x_coordinate p == y_coordinate p)%Q.
Proof.
  unfold Point_eq. rewrite andb_true_iff, !Qeq_bool_iff.
  split; [now intros [H _] | intro H; split; [assumption | reflexivity]].
Qed.

(** C3 on the code: in the tree of the uniform 8x8 image, a single leaf,
    the points [(1, 1)] and [(0, 1)] are inserted and [(0, 1)] is removed;
    the terminal node then still holds [(0, 1)], and [(1, 1)] is gone. *)
Theorem remove_point_keeps_point :
  exists n1 n2 n3 x,
    insert_point (root flat8_tree) on_diagonal = Ok n1
    /\ insert_point n1 off_diagonal = Ok n2
    /\ node_points n2 = [on_diagonal; off_diagonal]
    /\ remove_point n2 off_diagonal = Ok n3
    /\ find_node_contain_point n3 off_diagonal = Ok x
    /\ node_points x = [off_diagonal]
    /\ Point_eq off_diagonal off_diagonal = false
    /\ Point_eq on_diagonal off_diagonal = true.
Proof.
  rewrite root_flat8_tree.
  set (n := leaf_over flat8 (box_of (0, 0, 8, 8)) 0).
  set (n1 := set_node_points n (node_points n ++ [on_diagonal])).
  set (n2 := set_node_points n1 (node_points n1 ++ [off_diagonal])).
  set (n3 := set_node_points n2
               (remove_loop (length (node_points n2)) 0 (node_points n2)
                            off_diagonal)).
  exists n1, n2, n3, n3.
  split; [exact (insert_point_leaf n on_diagonal eq_refl) |].
  split; [exact (insert_point_leaf n1 off_diagonal eq_refl) |].
  split; [reflexivity |].
  split; [exact (remove_point_leaf n2 off_diagonal eq_refl) |].
  split; [exact (find_node_contain_point_leaf n3 off_diagonal eq_refl) |].
  repeat split.
Qed.

End PointExamples.

(** ** Uniform rasters *)

Section UniformRasters.
Import Pillow Tree Props.

Lemma range_In (a b x : Z) : In x (range a b) <-> a <= x < b.
Proof.
  unfold range. rewrite in_map_iff. split.
  - intros [i [<- Hi]]. apply in_seq in Hi. lia.
  - intro H. exists (Z.to_nat (x - a)). split; [lia |]. apply in_seq. lia.
Qed.

Lemma round_half_even_inject_Z (k : Z) : round_half_even (inject_Z k) = k.
Proof.
  unfold round_half_even. rewrite Qfloor_Z.
  assert (H : Qlt_bool (inject_Z k - inject_Z k) (1 # 2) = true)
    by (apply Qlt_bool_true; lra).
  now rewrite H.
Qed.

Lemma filter_all {A : Type} (f : A -> bool) (l : list A) :
  (forall x, In x l -> f x = true) -> filter f l = l.
Proof.
  induction l as [| a l IH]; intro H; cbn; [reflexivity |].
  rewrite (H a) by now left. f_equal. apply IH. intros x Hx. apply H. now right.
Qed.

Lemma filter_none {A : Type} (f : A -> bool) (l : list A) :
  (forall x, In x l -> f x = false) -> filter f l = [].
Proof.
  induction l as [| a l IH]; intro H; cbn; [reflexivity |].
  rewrite (H a) by now left. apply IH. intros x Hx. apply H. now right.
Qed.

Lemma fold_min_lower (a : Z) (l : list Z) :
  (forall x, In x l -> a <= x) -> fold_right Z.min a l = a.
Proof.
  induction l as [| y l IH]; intro H; cbn; [reflexivity |].
  rewrite IH by (intros x Hx; apply H; now right).
  specialize (H y (or_introl eq_refl)). lia.
Qed.

Lemma fold_max_attained (a m : Z) (l : list Z) :
  (forall x, In x (a :: l) -> x <= m) -> In m (a :: l) ->
  fold_right Z.max a l = m.
Proof.
  induction l as [| y l IH]; intros Hall Hin; cbn.
  - destruct Hin as [-> | []]. reflexivity.
  - assert (Hy : y <= m) by (apply Hall; right; now left).
    assert (Hle : fold_right Z.max a l <= m).
    { clear IH Hin. induction l as [| z l IHl]; cbn.
      - apply Hall. now left.
      - assert (z <= m) by (apply Hall; right; right; now left).
        assert (fold_right Z.max a l <= m).
        { apply IHl. intros x [-> | [-> | Hx]]; apply Hall; cbn; auto. }
        lia. }
    destruct Hin as [-> | [-> | Hin]].
    + rewrite IH; [lia | | now left].
      intros x [-> | Hx]; [lia | apply Hall; right; now right].
    + lia.
    + rewrite IH; [lia | | now right].
      intros x [-> | Hx]; apply Hall; cbn; auto.
Qed.

Lemma flat_map_length_const {A B : Type} (f : A -> list B) (l : list A) (n : nat) :
  (forall a, In a l -> length (f a) = n) ->
  length (flat_map f l) = (length l * n)%nat.
Proof.
  induction l as [| a l IH]; intro H; cbn; [reflexivity |].
  rewrite length_app, (H a) by now left.
  rewrite IH by (intros a' Ha'; apply H; now right). reflexivity.
Qed.

Variables (w h : nat) (c : pixel).
Hypothesis Hw : (0 < w)%nat.
Hypothesis Hh : (0 < h)%nat.

Lemma raster_width_uniform : raster_width (uniform w h c) = Z.of_nat w.
Proof.
  unfold uniform. destruct h as [| h']; [lia |]. cbn. now rewrite repeat_length.
Qed.

Lemma raster_height_uniform : raster_height (uniform w h c) = Z.of_nat h.
Proof. unfold raster_height, uniform. now rewrite repeat_length. Qed.

Lemma getpixel_uniform (x y : Z) :
  0 <= x < Z.of_nat w -> 0 <= y < Z.of_nat h ->
  getpixel (uniform w h c) x y = c.
Proof.
  intros Hx Hy. unfold getpixel, uniform.
  destruct (Z.ltb_spec x 0); [lia |]. destruct (Z.ltb_spec y 0); [lia |]. cbn [orb].
  rewrite (nth_indep _ [] (repeat c w)) by (rewrite repeat_length; lia).
  rewrite nth_repeat.
  rewrite (nth_indep _ black c) by (rewrite repeat_length; lia).
  apply nth_repeat.
Qed.

Lemma crop_pixels_uniform :
  let pixels :=
    crop_pixels (uniform w h c) (box_of (0, 0, Z.of_nat w, Z.of_nat h)) in
  (forall p, In p pixels -> p = c) /\ length pixels = (h * w)%nat.
Proof.
  cbv zeta. unfold crop_pixels, box_of. rewrite !round_half_even_inject_Z. split.
  - intros p Hp. apply in_flat_map in Hp as (y & Hy & Hp).
    apply in_map_iff in Hp as (x & <- & Hx).
    apply range_In in Hx, Hy. now apply getpixel_uniform.
  - rewrite (flat_map_length_const _ _ w).
    + rewrite range_length. lia.
    + intros y _. rewrite length_map, range_length. lia.
Qed.

Lemma band_histogram_uniform (band : pixel -> Z) (pixels : list pixel) :
  (forall p, In p pixels -> p = c) ->
  band_histogram band pixels = spike (band c) (Z.of_nat (length pixels)).
Proof.
  intro H. unfold band_histogram, spike. apply map_ext. intro i.
  destruct (Z.eqb_spec i (band c)) as [-> | Hne].
  - rewrite filter_all; [reflexivity |].
    intros p Hp. rewrite (H p Hp). apply Z.eqb_refl.
  - rewrite filter_none; [reflexivity |].
    intros p Hp. rewrite (H p Hp). apply Z.eqb_neq. congruence.
Qed.

(** The histogram of a uniform raster over its whole area. *)
Lemma crop_histogram_uniform :
  crop_histogram (raster_image (uniform w h c))
                 (box_of (0, 0, Z.of_nat w, Z.of_nat h))
  = spike (red c) (Z.of_nat (h * w)) ++ spike (green c) (Z.of_nat (h * w))
      ++ spike (blue c) (Z.of_nat (h * w)).
Proof.
  destruct crop_pixels_uniform as [Hall Hlen]. cbn [crop_histogram raster_image].
  unfold histogram. rewrite !band_histogram_uniform by assumption.
  now rewrite Hlen.
Qed.

(** The bounding box of a uniform raster that is not black is its area. *)
Lemma getbbox_uniform :
  is_black c = false ->
  getbbox (raster_image (uniform w h c)) = Some (0, 0, Z.of_nat w, Z.of_nat h).
Proof.
  intro Hc. cbn [getbbox raster_image]. unfold raster_getbbox, nonzero_coordinates.
  rewrite raster_width_uniform, raster_height_uniform.
  set (coords := flat_map (fun y => map (fun x => (x, y)) (range 0 (Z.of_nat w)))
                          (range 0 (Z.of_nat h))).
  assert (Hin : forall x y, In (x, y) coords
                            <-> 0 <= x < Z.of_nat w /\ 0 <= y < Z.of_nat h).
  { intros x y. unfold coords. rewrite in_flat_map. split.
    - intros (y' & Hy & Hxy). apply in_map_iff in Hxy as (x' & Heq & Hx).
      injection Heq as -> ->. apply range_In in Hx, Hy. easy.
    - intros [Hx Hy]. exists y. split; [now apply range_In |].
      apply in_map_iff. exists x. split; [reflexivity | now apply range_In]. }
  rewrite filter_all.
  2:{ intros [x y] Hxy. apply Hin in Hxy as [Hx Hy]. cbn [fst snd].
      now rewrite getpixel_uniform, Hc. }
  assert (Hhead : exists rest, coords = (0, 0) :: rest).
  { unfold coords. rewrite (range_cons 0 (Z.of_nat h)) by lia. cbn [flat_map].
    rewrite (range_cons 0 (Z.of_nat w)) by lia. cbn [map app]. eauto. }
  destruct Hhead as [rest Hrest]. rewrite Hrest in *.
  assert (Hx : forall x, In x (0 :: map fst rest) -> 0 <= x <= Z.of_nat w - 1).
  { intros x Hx. change (0 :: map fst rest) with (map fst ((0, 0) :: rest)) in Hx.
    apply in_map_iff in Hx as ([x' y'] & <- & Hxy). apply Hin in Hxy. cbn. lia. }
  assert (Hy : forall y, In y (0 :: map snd rest) -> 0 <= y <= Z.of_nat h - 1).
  { intros y Hy. change (0 :: map snd rest) with (map snd ((0, 0) :: rest)) in Hy.
    apply in_map_iff in Hy as ([x' y'] & <- & Hxy). apply Hin in Hxy. cbn. lia. }
  assert (Hcorner : In (Z.of_nat w - 1, Z.of_nat h - 1) ((0, 0) :: rest))
    by (apply Hin; lia).
  rewrite !fold_min_lower
    by (intros x Hx'; first [apply Hx; now right | apply Hy; now right]).
  rewrite (fold_max_attained 0 (Z.of_nat w - 1)), (fold_max_attained 0 (Z.of_nat h - 1)).
  - now rewrite !Z.sub_add.
  - intros y Hy'. now apply Hy.
  - change (0 :: map snd rest) with (map snd ((0, 0) :: rest)).
    apply in_map_iff. now exists (Z.of_nat w - 1, Z.of_nat h - 1).
  - intros x Hx'. now apply Hx.
  - change (0 :: map fst rest) with (map fst ((0, 0) :: rest)).
    apply in_map_iff. now exists (Z.of_nat w - 1, Z.of_nat h - 1).
Qed.

(** A uniform black raster has no bounding box: construction raises. *)
Lemma uniform_black_raster_fails :
  QuadTree_init (raster_image (uniform w h black)) = Raise TypeError.
Proof.
  apply QuadTree_init_no_bbox. cbn [getbbox raster_image].
  unfold raster_getbbox, nonzero_coordinates. rewrite filter_none; [reflexivity |].
  intros [x y] Hxy. cbn [fst snd]. apply negb_false_iff.
  unfold getpixel, uniform. destruct ((x <? 0) || (y <? 0)); [reflexivity |].
  destruct (nth_in_or_default (Z.to_nat y) (repeat (repeat black w) h) [])
    as [Hrow | ->].
  - apply repeat_spec in Hrow. rewrite Hrow.
    destruct (nth_in_or_default (Z.to_nat x) (repeat black w) black) as [Hp | ->];
      [apply repeat_spec in Hp; now rewrite Hp | reflexivity].
  - now destruct (Z.to_nat x).
Qed.

End UniformRasters.

(** ** Further properties of leaf extraction *)

Section LeafSets.
Import Pillow Tree Props.

Lemma leaves_unfold (n : QuadtreeNode) :
  leaves n = match childrens n with
             | Some cs => flat_map leaves cs
             | None => [n]
             end.
Proof. now destruct n. Qed.

Lemma leaf_depths_unfold (n : QuadtreeNode) :
  leaf_depths n = match childrens n with
                  | Some cs => flat_map leaf_depths cs
                  | None => [depth n]
                  end.
Proof. now destruct n. Qed.

(** When no inner node of a built tree lies at depth [d], the traversal
    returns the leaves. *)
Lemma get_leaf_nodes_recursion_leaves (image : Image) (d : Z) (b : box) (dn : Z)
  (n : QuadtreeNode) :
  built image b dn n ->
  d < dn \/ Forall (fun x => x <= d) (leaf_depths n) ->
  forall acc, get_leaf_nodes_recursion n d acc = acc ++ leaves n.
Proof.
  induction 1 as [b dn Hstop
                 | b dn f0 f1 f2 f3 c0 c1 c2 c3 Hstop Hsplit
                     H0 IH0 H1 IH1 H2 IH2 H3 IH3]; intros Hd acc;
    rewrite get_leaf_nodes_recursion_unfold, leaves_unfold.
  - reflexivity.
  - unfold cut. cbn [is_leaf depth childrens set_childrens].
    rewrite node_init_is_leaf, node_init_depth. cbn [orb].
    rewrite split_childrens_quadrants, node_init_border_box, node_init_center,
      node_init_depth in Hsplit.
    assert (Hf : depth f0 = dn + 1 /\ depth f1 = dn + 1
                 /\ depth f2 = dn + 1 /\ depth f3 = dn + 1).
    { destruct (quadrants b (center b)) as [| b0 [| b1 [| b2 [| b3 [| ? ?]]]]];
        try discriminate.
      cbn in Hsplit. injection Hsplit as <- <- <- <-. now rewrite !node_init_depth. }
    destruct Hf as (D0 & D1 & D2 & D3). rewrite D0, D1, D2, D3 in *.
    pose proof (built_leaf_depths image _ _ _ H0) as [N0 G0].
    assert (Hsub : d < dn
                   \/ (Forall (fun x => x <= d) (leaf_depths c0)
                       /\ Forall (fun x => x <= d) (leaf_depths c1)
                       /\ Forall (fun x => x <= d) (leaf_depths c2)
                       /\ Forall (fun x => x <= d) (leaf_depths c3))).
    { destruct Hd as [Hd | Hd]; [now left | right].
      rewrite leaf_depths_unfold in Hd. cbn [childrens set_childrens flat_map] in Hd.
      rewrite app_nil_r in Hd.
      apply Forall_app in Hd as [A0 Hd]. apply Forall_app in Hd as [A1 Hd].
      apply Forall_app in Hd as [A2 A3]. auto. }
    assert (Hne : dn <> d).
    { destruct Hsub as [Hlt | (A0 & _)]; [lia |].
      destruct (leaf_depths c0) as [| x xs]; [congruence |].
      inversion G0; subst. inversion A0; subst. lia. }
    destruct (Z.eqb_spec dn d); [contradiction |].
    cbn [fold_left flat_map]. rewrite app_nil_r.
    rewrite IH0, IH1, IH2, IH3
      by (destruct Hsub as [Hlt | (A0 & A1 & A2 & A3)]; [left; lia | now right]).
    now rewrite <- !app_assoc.
Qed.

Lemma built_leaves (image : Image) (b : box) (d : Z) (n : QuadtreeNode) :
  built image b d n ->
  Forall (fun x => is_leaf x = true /\ childrens x = None /\ subnode x n)
         (leaves n)
  /\ forall x, subnode x n -> is_leaf x = true -> In x (leaves n).
Proof.
  induction 1 as [b d Hstop
                 | b d f0 f1 f2 f3 c0 c1 c2 c3 Hstop Hsplit
                     H0 [L0 S0] H1 [L1 S1] H2 [L2 S2] H3 [L3 S3]];
    rewrite leaves_unfold.
  - cbn [childrens set_is_leaf]. rewrite node_init_childrens. split.
    + constructor; [| constructor]. repeat split. constructor.
    + intros x Hx _. inversion Hx as [| n cs c Hcs]; subst; [now left |].
      cbn in Hcs. discriminate.
  - cbn [childrens set_childrens flat_map]. rewrite app_nil_r.
    set (n := set_childrens (node_init image b d) (Some [c0; c1; c2; c3])).
    assert (Hup : forall c, In c [c0; c1; c2; c3] ->
                  forall x, subnode x c -> subnode x n).
    { intros c Hc x Hx. now apply (subnode_child x n [c0; c1; c2; c3] c). }
    split.
    + repeat (apply Forall_app; split);
        (eapply Forall_impl; [| eassumption]);
        intros x (A & B & C); repeat split; try assumption;
        (eapply Hup; [| exact C]); cbn; auto.
    + intros x Hx Hleaf. rewrite !in_app_iff.
      inversion Hx as [| n' cs c Hcs Hin Hsub]; subst.
      * cbn in Hleaf. discriminate.
      * cbn in Hcs. injection Hcs as <-.
        destruct Hin as [<- | [<- | [<- | [<- | []]]]]; auto.
Qed.

(** X2: a negative depth is not refused: [get_leaf_nodes] then returns the
    leaves of the tree. *)
Theorem get_leaf_nodes_negative_depth (image : Image) (t : QuadTree) (d : Z) :
  QuadTree_init image = Ok t ->
  d < 0 ->
  get_leaf_nodes t d = Ok (leaves (root t)).
Proof.
  intros Hinit Hd.
  destruct (QuadTree_init_built image t Hinit) as (bbox & _ & Hbuilt).
  pose proof (QuadTree_init_max_depth_nonneg image t Hinit) as Hmax.
  rewrite get_leaf_nodes_within by lia.
  now rewrite (get_leaf_nodes_recursion_leaves image _ _ _ _ Hbuilt (or_introl Hd)).
Qed.

(** The 2x2 checkerboard at depth -1. *)
Lemma get_leaf_nodes_negative_depth_witness :
  QuadTree_init checker2 = Ok checker2_tree
  /\ -1 < 0
  /\ get_leaf_nodes checker2_tree (-1) = Ok (leaves (root checker2_tree)).
Proof.
  split; [exact QuadTree_init_checker2 |]. split; [lia |].
  exact (get_leaf_nodes_negative_depth checker2 checker2_tree (-1)
           QuadTree_init_checker2 ltac:(lia)).
Defined.

End LeafSets.

(** ** Bounds on the tree *)

Section Bounds.
Import Pillow Tree Props.

Lemma built_children_depth (image : Image) (b : box) (d : Z)
  (f0 f1 f2 f3 : QuadtreeNode) :
  split_childrens image (node_init image b d) = [f0; f1; f2; f3] ->
  depth f0 = d + 1 /\ depth f1 = d + 1 /\ depth f2 = d + 1 /\ depth f3 = d + 1.
Proof.
  rewrite split_childrens_quadrants, node_init_border_box, node_init_center,
    node_init_depth.
  destruct (quadrants b (center b)) as [| b0 [| b1 [| b2 [| b3 [| ? ?]]]]];
    try discriminate.
  cbn. intro H. injection H as <- <- <- <-. now rewrite !node_init_depth.
Qed.

(** From a node at depth [dn], the traversal for depth [d] adds at most
    [4 ^ (d - dn)] nodes. *)
Lemma get_leaf_nodes_recursion_length (image : Image) (d : Z) (b : box) (dn : Z)
  (n : QuadtreeNode) :
  built image b dn n ->
  dn <= d ->
  forall acc,
    Z.of_nat (length (get_leaf_nodes_recursion n d acc))
    <= Z.of_nat (length acc) + 4 ^ (d - dn).
Proof.
  induction 1 as [b dn Hstop
                 | b dn f0 f1 f2 f3 c0 c1 c2 c3 Hstop Hsplit
                     H0 IH0 H1 IH1 H2 IH2 H3 IH3]; intros Hd acc;
    rewrite get_leaf_nodes_recursion_unfold.
  - cbn [cut is_leaf set_is_leaf orb]. unfold cut. cbn [is_leaf set_is_leaf orb].
    rewrite length_app. cbn [length].
    assert (0 < 4 ^ (d - dn)) by (apply Z.pow_pos_nonneg; lia). lia.
  - destruct (built_children_depth image b dn _ _ _ _ Hsplit) as (D0 & D1 & D2 & D3).
    rewrite D0, D1, D2, D3 in *.
    unfold cut. cbn [is_leaf depth childrens set_childrens].
    rewrite node_init_is_leaf, node_init_depth. cbn [orb].
    destruct (Z.eqb_spec dn d) as [Heq | Hne].
    + rewrite length_app. cbn [length].
      assert (0 < 4 ^ (d - dn)) by (apply Z.pow_pos_nonneg; lia). lia.
    + cbn [fold_left].
      assert (Hpow : 4 ^ (d - dn) = 4 * 4 ^ (d - (dn + 1))).
      { replace (d - dn) with (Z.succ (d - (dn + 1))) by lia.
        apply Z.pow_succ_r. lia. }
      pose proof (IH0 ltac:(lia) acc) as B0.
      pose proof (IH1 ltac:(lia) (get_leaf_nodes_recursion c0 d acc)) as B1.
      pose proof (IH2 ltac:(lia)
                    (get_leaf_nodes_recursion c1 d
                       (get_leaf_nodes_recursion c0 d acc))) as B2.
      pose proof (IH3 ltac:(lia)
                    (get_leaf_nodes_recursion c2 d
                       (get_leaf_nodes_recursion c1 d
                          (get_leaf_nodes_recursion c0 d acc)))) as B3.
      lia.
Qed.

(** X3: for a depth [d >= 0], [get_leaf_nodes] returns at most [4 ^ d] nodes,
    and [create_image] draws at most [4 ^ d + 1] rectangles. *)
Theorem get_leaf_nodes_at_most_4_pow (image : Image) (t : QuadTree) (d : Z)
  (l : list QuadtreeNode) :
  QuadTree_init image = Ok t ->
  0 <= d ->
  get_leaf_nodes t d = Ok l ->
  Z.of_nat (length l) <= 4 ^ d
  /\ forall borders picture,
       WorkWithImages.create_image t d borders = Ok picture ->
       Z.of_nat (length (WorkWithImages.drawn picture)) <= 4 ^ d + 1.
Proof.
  intros Hinit Hd Hget.
  destruct (QuadTree_init_built image t Hinit) as (bbox & _ & Hbuilt).
  assert (Hlen : Z.of_nat (length l) <= 4 ^ d).
  { unfold get_leaf_nodes in Hget.
    destruct (max_depth t <? d); [discriminate |]. injection Hget as <-.
    pose proof (get_leaf_nodes_recursion_length image d _ _ _ Hbuilt Hd []) as H.
    cbn [length] in H. now rewrite Z.sub_0_r in H. }
  split; [exact Hlen |].
  intros borders picture Hpic. unfold WorkWithImages.create_image in Hpic.
  rewrite Hget in Hpic. cbn [bind] in Hpic. injection Hpic as <-.
  cbn [WorkWithImages.drawn length]. rewrite length_map. lia.
Qed.

(** The 2x2 checkerboard at depth 1. *)
Lemma get_leaf_nodes_at_most_4_pow_witness :
  QuadTree_init checker2 = Ok checker2_tree
  /\ 0 <= 1
  /\ exists l, get_leaf_nodes checker2_tree 1 = Ok l
               /\ Z.of_nat (length l) <= 4 ^ 1.
Proof.
  split; [exact QuadTree_init_checker2 |]. split; [lia |].
  eexists. split; [reflexivity |].
  exact (proj1 (get_leaf_nodes_at_most_4_pow checker2 checker2_tree 1 _
                  QuadTree_init_checker2 ltac:(lia) eq_refl)).
Defined.

(** The region of a node of a built tree lies within the region of the
    tree. *)
Lemma built_region (image : Image) (p : Point) (x n : QuadtreeNode) :
  subnode x n ->
  forall b d, built image b d n ->
  in_box p (border_box x) = true -> in_box p b = true.
Proof.
  induction 1 as [| n cs c Hcs Hin _ IH]; intros b d Hb Hp.
  - now rewrite (proj1 (built_fields image _ _ _ Hb)) in Hp.
  - destruct (built_cases image _ _ _ Hb)
      as [(_ & Hnone & _)
         | (_ & _ & b0 & b1 & b2 & b3 & c0 & c1 & c2 & c3 & Hq & Hsome
            & H0 & H1 & H2 & H3)]; [congruence |].
    rewrite Hcs in Hsome. injection Hsome as ->.
    pose proof (quadrants_partition b p) as Hpart. rewrite Hq in Hpart.
    cbn [filter] in Hpart.
    assert (Hc : exists bi, In bi [b0; b1; b2; b3] /\ in_box p bi = true).
    { cbn in Hin. destruct Hin as [<- | [<- | [<- | [<- | []]]]];
        [exists b0 | exists b1 | exists b2 | exists b3];
        (split; [cbn; auto | eapply IH; eassumption]). }
    destruct Hc as (bi & Hbi & Hpi).
    destruct (in_box p b); [reflexivity |]. exfalso.
    cbn in Hbi. destruct Hbi as [<- | [<- | [<- | [<- | []]]]];
      rewrite Hpi in Hpart;
      repeat match type of Hpart with
        | context [in_box p ?q] => destruct (in_box p q)
        end; cbn in Hpart; discriminate.
Qed.

(** X4: the region of every node of the tree of an image lies within the
    region of the root: a point of the node's region is a point of the root's
    region. *)
Theorem node_region_within_root (image : Image) (t : QuadTree)
  (n : QuadtreeNode) (p : Point) :
  QuadTree_init image = Ok t ->
  subnode n (root t) ->
  in_box p (border_box n) = true ->
  in_box p (border_box (root t)) = true.
Proof.
  intros Hinit Hsub Hp.
  destruct (QuadTree_init_built image t Hinit) as (bbox & _ & Hbuilt).
  rewrite (proj1 (built_fields image _ _ _ Hbuilt)).
  exact (built_region image p n (root t) Hsub _ _ Hbuilt Hp).
Qed.

(** The top left quadrant of the 2x2 checkerboard. *)
Lemma node_region_within_root_witness :
  let b := box_of (0, 0, 2, 2) in
  let c := leaf_over checker2 (nth 0 (quadrants b (center b)) b) 1 in
  QuadTree_init checker2 = Ok checker2_tree
  /\ subnode c (root checker2_tree)
  /\ in_box top_left_point (border_box c) = true
  /\ in_box top_left_point (border_box (root checker2_tree)) = true.
Proof.
  cbv zeta.
  set (c := leaf_over checker2 _ 1).
  assert (Hsub : subnode c (root checker2_tree)).
  { eapply subnode_child; [reflexivity | | constructor]. now left. }
  assert (Hp : in_box top_left_point (border_box c) = true) by reflexivity.
  split; [exact QuadTree_init_checker2 |]. split; [exact Hsub |].
  split; [exact Hp |].
  exact (node_region_within_root checker2 checker2_tree c top_left_point
           QuadTree_init_checker2 Hsub Hp).
Defined.

Lemma preorder_length_ancestors (n : QuadtreeNode) :
  forall anc anc', length (preorder anc n) = length (preorder anc' n).
Proof.
  induction n as [n IH] using QuadtreeNode_induction. intros anc anc'.
  rewrite !preorder_unfold. cbn [length]. f_equal.
  destruct (childrens n) as [cs |]; [| reflexivity].
  specialize (IH cs eq_refl).
  induction IH as [| c cs Hc _ IHcs]; cbn; [reflexivity |].
  now rewrite !length_app, IHcs, (Hc (anc ++ [n]) (anc' ++ [n])).
Qed.

(** A built tree rooted at depth [dn] has at most [(4 ^ (9 - dn) - 1) / 3]
    nodes. *)
Lemma built_size (image : Image) (b : box) (dn : Z) (n : QuadtreeNode) :
  built image b dn n ->
  dn <= MAX_DEPTH ->
  forall anc,
    3 * Z.of_nat (length (preorder anc n)) + 1 <= 4 ^ (MAX_DEPTH + 1 - dn).
Proof.
  unfold MAX_DEPTH.
  induction 1 as [b dn Hstop
                 | b dn f0 f1 f2 f3 c0 c1 c2 c3 Hstop Hsplit
                     H0 IH0 H1 IH1 H2 IH2 H3 IH3]; intros Hd anc;
    rewrite preorder_unfold.
  - cbn [childrens set_is_leaf]. rewrite node_init_childrens. cbn [length].
    replace (8 + 1 - dn) with (Z.succ (8 - dn)) by lia.
    rewrite Z.pow_succ_r by lia.
    assert (0 < 4 ^ (8 - dn)) by (apply Z.pow_pos_nonneg; lia). lia.
  - destruct (built_children_depth image b dn _ _ _ _ Hsplit) as (D0 & D1 & D2 & D3).
    rewrite D0, D1, D2, D3 in *.
    apply stop_rule_false in Hstop as [Hlt _].
    rewrite node_init_depth in Hlt. unfold MAX_DEPTH in Hlt.
    cbn [childrens set_childrens flat_map length]. rewrite app_nil_r, !length_app.
    set (anc' := anc ++ [set_childrens (node_init image b dn) (Some [c0; c1; c2; c3])]).
    pose proof (IH0 ltac:(lia) anc') as B0. pose proof (IH1 ltac:(lia) anc') as B1.
    pose proof (IH2 ltac:(lia) anc') as B2. pose proof (IH3 ltac:(lia) anc') as B3.
    replace (8 + 1 - dn) with (Z.succ (8 + 1 - (dn + 1))) by lia.
    rewrite Z.pow_succ_r by lia. lia.
Qed.

(** X5: the tree of an image has at most 87381 nodes, so construction starts
    at most 87380 threads, one per node below the root; it has at most 65536
    leaves. *)
Theorem tree_size_bounded (image : Image) (t : QuadTree) :
  QuadTree_init image = Ok t ->
  Z.of_nat (length (preorder [] (root t))) <= 87381
  /\ Z.of_nat (length (leaves (root t))) <= 65536.
Proof.
  intro Hinit.
  destruct (QuadTree_init_built image t Hinit) as (bbox & _ & Hbuilt).
  split.
  - pose proof (built_size image _ _ _ Hbuilt ltac:(unfold MAX_DEPTH; lia) []) as H.
    change (4 ^ (MAX_DEPTH + 1 - 0)) with 262144 in H. lia.
  - pose proof (get_leaf_nodes_recursion_length image MAX_DEPTH _ _ _ Hbuilt
                  ltac:(unfold MAX_DEPTH; lia) []) as H.
    rewrite (get_leaf_nodes_recursion_leaves image MAX_DEPTH _ _ _ Hbuilt) in H.
    + change (4 ^ (MAX_DEPTH - 0)) with 65536 in H. cbn [app length] in H. lia.
    + right. destruct (QuadTree_init_max_depth image t Hinit) as (_ & Hall & Hin).
      destruct (leaf_depths_subnode _ _ Hin) as (x & Hx & _ & Hdx).
      destruct (QuadTree_init_nodes image t x Hinit Hx) as (bx & dx & Hbx & Hrange).
      pose proof (built_fields image _ _ _ Hbx) as (_ & Hdepth & _).
      eapply Forall_impl; [| exact Hall]. cbn. intros a Ha. lia.
Qed.

(** The 2x2 checkerboard has five nodes and four leaves. *)
Lemma tree_size_bounded_witness :
  QuadTree_init checker2 = Ok checker2_tree
  /\ length (preorder [] (root checker2_tree)) = 5%nat
  /\ Z.of_nat (length (preorder [] (root checker2_tree))) <= 87381.
Proof.
  split; [exact QuadTree_init_checker2 |]. split; [reflexivity |].
  exact (proj1 (tree_size_bounded checker2 checker2_tree QuadTree_init_checker2)).
Defined.

End Bounds.

(** ** Further properties of the colour statistics *)

Section ColourRanges.
Import Pillow Tree Props.

Lemma enumerate_from_map {A B : Type} (f : A -> B) (l : list A) :
  forall i, enumerate_from i (map f l)
            = map (fun ix => (fst ix, f (snd ix))) (enumerate_from i l).
Proof. induction l as [| x l IH]; intro i; cbn; [| rewrite IH]; reflexivity. Qed.

Lemma sumZ_scale (c : Z) (l : list Z) : sumZ (map (Z.mul c) l) = c * sumZ l.
Proof.
  unfold sumZ. induction l as [| x l IH]; cbn; [lia | rewrite IH; lia].
Qed.

Lemma sumR_scale (c : R) (l : list R) :
  sumR (map (Rmult c) l) = (c * sumR l)%R.
Proof.
  unfold sumR. induction l as [| x l IH]; cbn; [lra | rewrite IH; lra].
Qed.

Lemma slice_map {A B : Type} (f : A -> B) (a b : nat) (l : list A) :
  slice a b (map f l) = map f (slice a b l).
Proof. unfold slice. now rewrite skipn_map, firstn_map. Qed.

Lemma weighted_average_scale (c : Z) (hist : list Z) :
  0 < c -> weighted_average (map (Z.mul c) hist) = weighted_average hist.
Proof.
  intro Hc. unfold weighted_average, enumerate.
  rewrite sumZ_scale, enumerate_from_map, !map_map. cbn [fst snd].
  destruct (Z.ltb_spec 0 (sumZ hist)) as [Hpos | Hle];
    destruct (Z.ltb_spec 0 (c * sumZ hist)) as [Hpos' | Hle'];
    try nia; [| reflexivity].
  assert (Hc' : (0 < IZR c)%R) by now apply IZR_lt.
  assert (Ht : (0 < IZR (sumZ hist))%R) by now apply IZR_lt.
  rewrite (map_ext (fun ix : Z * Z => fst ix * (c * snd ix))
                   (fun ix => c * (fst ix * snd ix))) by (intro; lia).
  rewrite <- (map_map (fun ix : Z * Z => fst ix * snd ix) (Z.mul c)), sumZ_scale.
  set (w := sumZ (map (fun ix : Z * Z => fst ix * snd ix) (enumerate_from 0 hist))).
  assert (Hvalue : (IZR (c * w) / IZR (c * sumZ hist) = IZR w / IZR (sumZ hist))%R)
    by (rewrite !mult_IZR; field; lra).
  rewrite Hvalue. f_equal. f_equal.
  set (v := (IZR w / IZR (sumZ hist))%R).
  rewrite (map_ext (fun ix : Z * Z => (IZR (c * snd ix) * (v - IZR (fst ix)) ^ 2)%R)
                   (fun ix => (IZR c * (IZR (snd ix) * (v - IZR (fst ix)) ^ 2))%R))
    by (intro; rewrite mult_IZR; ring).
  rewrite <- (map_map (fun ix : Z * Z => (IZR (snd ix) * (v - IZR (fst ix)) ^ 2)%R)
                      (Rmult (IZR c))), sumR_scale, mult_IZR.
  field. lra.
Qed.

(** X6: in exact arithmetic, multiplying every count of a histogram by the
    same positive integer changes neither the colour nor the error that
    [color_from_histogram] returns, nor the result of [weighted_average]. *)
Theorem color_from_histogram_scale (c : Z) (hist : list Z) :
  0 < c ->
  weighted_average (map (Z.mul c) hist) = weighted_average hist
  /\ color_from_histogram (map (Z.mul c) hist) = color_from_histogram hist.
Proof.
  intro Hc. split; [now apply weighted_average_scale |].
  unfold color_from_histogram.
  now rewrite !slice_map, !weighted_average_scale.
Qed.

(** Every count of a spike histogram multiplied by 3. *)
Lemma color_from_histogram_scale_witness :
  0 < 3
  /\ weighted_average (map (Z.mul 3) (spike 128 64))
     = weighted_average (spike 128 64).
Proof.
  split; [lia |].
  exact (proj1 (color_from_histogram_scale 3 (spike 128 64) ltac:(lia))).
Defined.

Lemma weighted_sum_bounds (l : list Z) :
  Forall (fun x => 0 <= x) l ->
  forall i, 0 <= i ->
    0 <= sumZ (map (fun ix => fst ix * snd ix) (enumerate_from i l))
    <= (i + Z.of_nat (length l)) * sumZ l.
Proof.
  unfold sumZ. induction 1 as [| x l Hx Hl IH]; intros i Hi; cbn [enumerate_from map fold_right length].
  - lia.
  - specialize (IH (i + 1) ltac:(lia)). cbn [fst snd].
    pose proof (sumZ_nonneg l Hl) as Hs. unfold sumZ in Hs.
    rewrite Nat2Z.inj_succ. nia.
Qed.

Lemma weighted_sum_upper (l : list Z) :
  Forall (fun x => 0 <= x) l ->
  forall i, 0 <= i ->
    sumZ (map (fun ix => fst ix * snd ix) (enumerate_from i l))
    <= (i + Z.of_nat (length l) - 1) * sumZ l.
Proof.
  unfold sumZ. induction 1 as [| x l Hx Hl IH]; intros i Hi; cbn [enumerate_from map fold_right length].
  - lia.
  - specialize (IH (i + 1) ltac:(lia)). cbn [fst snd].
    pose proof (sumZ_nonneg l Hl) as Hs. unfold sumZ in Hs.
    rewrite Nat2Z.inj_succ. nia.
Qed.

Lemma deviation_sum_bounds (v N : R) (l : list Z) :
  (0 <= v <= N)%R ->
  Forall (fun x => 0 <= x) l ->
  forall i, 0 <= i -> (IZR (i + Z.of_nat (length l) - 1) <= N)%R ->
    (0 <= sumR (map (fun ix => IZR (snd ix) * (v - IZR (fst ix)) ^ 2)
                    (enumerate_from i l))
     <= IZR (sumZ l) * (N * N))%R.
Proof.
  intros Hv. unfold sumZ, sumR.
  induction 1 as [| x l Hx Hl IH]; intros i Hi HN;
    cbn [enumerate_from map fold_right length fst snd] in *.
  - lra.
  - rewrite Nat2Z.inj_succ in HN.
    assert (HN' : (IZR (i + 1 + Z.of_nat (length l) - 1) <= N)%R)
      by (replace (i + 1 + Z.of_nat (length l) - 1)
            with (i + Z.succ (Z.of_nat (length l)) - 1) by lia; exact HN).
    specialize (IH (i + 1) ltac:(lia) HN').
    assert (Hi' : (0 <= IZR i <= N)%R).
    { split; [now apply IZR_le |].
      eapply Rle_trans; [| exact HN]. apply IZR_le. lia. }
    assert (Hx' : (0 <= IZR x)%R) by now apply IZR_le.
    rewrite plus_IZR.
    assert (Hsq : (0 <= (v - IZR i) ^ 2 <= N * N)%R).
    { replace ((v - IZR i) ^ 2)%R with ((v - IZR i) * (v - IZR i))%R by ring.
      pose proof (Rmult_le_pos (N - (v - IZR i)) (N + (v - IZR i))
                    ltac:(lra) ltac:(lra)).
      pose proof (Rle_0_sqr (v - IZR i)) as Hsqr. unfold Rsqr in Hsqr. lra. }
    set (q := ((v - IZR i) ^ 2)%R) in *.
    fold (sumZ l) in *. 
    set (S := fold_right Rplus 0%R _) in *.
    assert (Hl' : (0 <= IZR (sumZ l))%R) by (apply IZR_le, sumZ_nonneg; assumption).
    split; [nra |].
    assert (IZR x * q <= IZR x * (N * N))%R by (apply Rmult_le_compat_l; lra).
    lra.
Qed.

(** The mean and the deviation of a histogram of at most [N + 1] non-negative
    counts lie between 0 and [N]. *)
Lemma weighted_average_range (hist : list Z) (N : Z) :
  Forall (fun x => 0 <= x) hist ->
  0 <= N -> Z.of_nat (length hist) <= N + 1 ->
  (0 <= fst (weighted_average hist) <= IZR N)%R
  /\ (0 <= snd (weighted_average hist) <= IZR N)%R.
Proof.
  intros Hpos HN Hlen. unfold weighted_average, enumerate.
  assert (HN' : (0 <= IZR N)%R) by now apply IZR_le.
  destruct (Z.ltb_spec 0 (sumZ hist)) as [Ht | Ht]; cbn [fst snd]; [| lra].
  pose proof (weighted_sum_bounds hist Hpos 0 ltac:(lia)) as [Hw0 _].
  pose proof (weighted_sum_upper hist Hpos 0 ltac:(lia)) as Hw1.
  set (w := sumZ (map (fun ix : Z * Z => fst ix * snd ix) (enumerate_from 0 hist))) in *.
  assert (Ht' : (0 < IZR (sumZ hist))%R) by now apply IZR_lt.
  assert (Hv : (0 <= IZR w / IZR (sumZ hist) <= IZR N)%R).
  { assert (Hw : (0 <= IZR w <= IZR N * IZR (sumZ hist))%R).
    { split; [now apply IZR_le |]. rewrite <- mult_IZR. apply IZR_le. nia. }
    split.
    - apply Rmult_le_pos; [lra |]. apply Rlt_le, Rinv_0_lt_compat. lra.
    - apply (Rmult_le_reg_r (IZR (sumZ hist))); [lra |].
      unfold Rdiv. rewrite Rmult_assoc, Rinv_l by lra. lra. }
  split; [exact Hv |].
  set (v := (IZR w / IZR (sumZ hist))%R) in *.
  destruct (deviation_sum_bounds v (IZR N) hist Hv Hpos 0 ltac:(lia)) as [Hs0 Hs1].
  { apply IZR_le. lia. }
  set (s := sumR _) in *.
  assert (Hq : (0 <= s / IZR (sumZ hist) <= IZR N * IZR N)%R).
  { split.
    - apply Rmult_le_pos; [lra |]. apply Rlt_le, Rinv_0_lt_compat. lra.
    - apply (Rmult_le_reg_r (IZR (sumZ hist))); [lra |].
      unfold Rdiv. rewrite Rmult_assoc, Rinv_l by lra. lra. }
  split; [apply sqrt_pos |].
  rewrite <- (sqrt_square (IZR N)) by lra. apply sqrt_le_1; lra.
Qed.

Lemma int_of_float_range (x : R) (N : Z) :
  (0 <= x <= IZR N)%R -> 0 <= int_of_float x <= N.
Proof.
  intros [H0 HN]. unfold int_of_float. destruct (Rle_dec 0 x); [| contradiction].
  destruct (base_Int_part x) as [Hle Hgt]. split.
  - assert (H : (IZR (-1) < IZR (Int_part x))%R) by (cbn; lra).
    apply lt_IZR in H. lia.
  - apply le_IZR. lra.
Qed.

Lemma Forall_slice {A : Type} (P : A -> Prop) (a b : nat) (l : list A) :
  Forall P l -> Forall P (slice a b l).
Proof.
  intro H. unfold slice.
  rewrite <- (firstn_skipn a l) in H. apply Forall_app in H as [_ H].
  rewrite <- (firstn_skipn (b - a) (skipn a l)) in H.
  now apply Forall_app in H as [H _].
Qed.

Lemma slice_length {A : Type} (a b : nat) (l : list A) :
  (length (slice a b l) <= b - a)%nat.
Proof. unfold slice. apply firstn_le_length. Qed.

(** X7: on a histogram of non-negative counts, the three channels of the
    colour that [color_from_histogram] returns lie between 0 and 255, and the
    error lies between 0 and 255. *)
Theorem color_from_histogram_range (hist : list Z) :
  Forall (fun x => 0 <= x) hist ->
  let '((r, g, b), e) := color_from_histogram hist in
  0 <= r <= 255 /\ 0 <= g <= 255 /\ 0 <= b <= 255 /\ (0 <= e <= 255)%R.
Proof.
  intro Hpos. unfold color_from_histogram.
  assert (Hch : forall a b, (b - a <= 256)%nat ->
            (0 <= fst (weighted_average (slice a b hist)) <= 255)%R
            /\ (0 <= snd (weighted_average (slice a b hist)) <= 255)%R).
  { intros a b Hab. apply weighted_average_range.
    - now apply Forall_slice.
    - lia.
    - pose proof (slice_length a b hist). lia. }
  destruct (Hch 0%nat 256%nat ltac:(lia)) as [Hr He1].
  destruct (Hch 256%nat 512%nat ltac:(lia)) as [Hg He2].
  destruct (Hch 512%nat 768%nat ltac:(lia)) as [Hb He3].
  destruct (weighted_average (slice 0 256 hist)) as [r e1].
  destruct (weighted_average (slice 256 512 hist)) as [g e2].
  destruct (weighted_average (slice 512 768 hist)) as [b e3].
  cbn [fst snd] in *.
  split; [now apply int_of_float_range |].
  split; [now apply int_of_float_range |].
  split; [now apply int_of_float_range |]. lra.
Qed.

(** The histogram of 64 grey pixels. *)
Lemma color_from_histogram_range_witness :
  let hist := spike 128 64 ++ spike 128 64 ++ spike 128 64 in
  Forall (fun x => 0 <= x) hist
  /\ let '((r, g, b), e) := color_from_histogram hist in
     0 <= r <= 255 /\ 0 <= g <= 255 /\ 0 <= b <= 255 /\ (0 <= e <= 255)%R.
Proof.
  cbv zeta.
  assert (H : Forall (fun x => 0 <= x)
                     (spike 128 64 ++ spike 128 64 ++ spike 128 64))
    by (repeat (apply Forall_app; split); apply spike_nonneg; lia).
  split; [exact H |].
  exact (color_from_histogram_range _ H).
Defined.

Lemma int_of_float_0 : int_of_float 0 = 0.
Proof.
  pose proof (int_of_float_range 0 0 ltac:(cbn; lra)). lia.
Qed.

Lemma sumZ_zeros (l : list Z) : Forall (fun x => x = 0) l -> sumZ l = 0.
Proof. unfold sumZ. induction 1 as [| x l -> _ IH]; cbn; [reflexivity | exact IH]. Qed.

Lemma color_from_histogram_zeros (hist : list Z) :
  Forall (fun x => x = 0) hist ->
  color_from_histogram hist = ((0, 0, 0), 0%R).
Proof.
  intro H. unfold color_from_histogram.
  rewrite !weighted_average_empty
    by (rewrite sumZ_zeros; [lia | now apply Forall_slice]).
  rewrite int_of_float_0. f_equal. lra.
Qed.

(** X8: a region whose histogram holds no pixel (every count is 0, or the
    histogram is empty) gets the colour [(0, 0, 0)] and the error 0, and
    construction marks its node as a leaf without splitting it, at any
    depth. *)
Theorem empty_region_is_leaf (image : Image) (b : box) (d m : Z) (fuel : nat) :
  Forall (fun x => x = 0) (crop_histogram image b) ->
  average_color (node_init image b d) = (0, 0, 0)
  /\ error (node_init image b d) = 0%R
  /\ build_tree (S fuel) image (node_init image b d) m
     = Some (leaf_over image b d, Z.max m d).
Proof.
  intro H. pose proof (color_from_histogram_zeros _ H) as Hc.
  assert (Herr : error (node_init image b d) = 0%R)
    by (rewrite node_init_error, Hc; reflexivity).
  split; [unfold node_init; cbn [average_color]; now rewrite Hc |].
  split; [exact Herr |].
  rewrite build_tree_step.
  assert (Hstop : stop_rule (node_init image b d) = true).
  { apply stop_rule_true. right. rewrite Herr. unfold ERROR_THRESHOLD. lra. }
  now rewrite Hstop, node_init_depth.
Qed.

(** The region [(0, 0, 0, 0)] of the uniform 8x8 image holds no pixel. *)
Lemma empty_region_is_leaf_witness :
  Forall (fun x => x = 0) (crop_histogram flat8 (0, 0, 0, 0)%Q)
  /\ error (node_init flat8 (0, 0, 0, 0)%Q 3) = 0%R
  /\ build_tree 1 flat8 (node_init flat8 (0, 0, 0, 0)%Q 3) 0
     = Some (leaf_over flat8 (0, 0, 0, 0)%Q 3, Z.max 0 3).
Proof.
  assert (H : Forall (fun x => x = 0) (crop_histogram flat8 (0, 0, 0, 0)%Q)).
  { apply Forall_forall. intros x Hx.
    change (crop_histogram flat8 (0, 0, 0, 0)%Q)
      with (histogram (crop_pixels (uniform 8 8 grey) (0, 0, 0, 0)%Q)) in Hx.
    replace (crop_pixels (uniform 8 8 grey) (0, 0, 0, 0)%Q) with (@nil pixel) in Hx
      by (vm_compute; reflexivity).
    unfold histogram, band_histogram in Hx. rewrite !in_app_iff, !in_map_iff in Hx.
    destruct Hx as [(i & <- & _) | [(i & <- & _) | (i & <- & _)]]; reflexivity. }
  destruct (empty_region_is_leaf flat8 (0, 0, 0, 0)%Q 3 0 0 H) as (_ & He & Hb).
  split; [exact H |]. split; [exact He | exact Hb].
Defined.

(** X9: on a histogram of at most 256 counts, as a single-band image gives,
    the green and the blue channel of the colour are 0, the red channel is
    the truncated mean, and the error is the deviation weighted by 0.2989. *)
Theorem color_from_histogram_single_band (hist : list Z) :
  (length hist <= 256)%nat ->
  color_from_histogram hist
  = ((int_of_float (fst (weighted_average hist)), 0, 0),
     (snd (weighted_average hist) * 0.2989)%R).
Proof.
  intro Hlen. unfold color_from_histogram.
  assert (H1 : slice 0 256 hist = hist) by (unfold slice; now apply firstn_all2).
  assert (H2 : slice 256 512 hist = [])
    by (unfold slice; rewrite skipn_all2 by assumption; apply firstn_nil).
  assert (H3 : slice 512 768 hist = [])
    by (unfold slice; rewrite skipn_all2 by lia; apply firstn_nil).
  rewrite H1, H2, H3.
  assert (Hnil : weighted_average [] = (0%R, 0%R)) by reflexivity.
  rewrite Hnil. destruct (weighted_average hist) as [v e]. cbn [fst snd].
  rewrite int_of_float_0. f_equal. lra.
Qed.

(** A single-band histogram of 64 pixels at level 128. *)
Lemma color_from_histogram_single_band_witness :
  (length (spike 128 64) <= 256)%nat
  /\ color_from_histogram (spike 128 64)
     = ((int_of_float (fst (weighted_average (spike 128 64))), 0, 0),
        (snd (weighted_average (spike 128 64)) * 0.2989)%R).
Proof.
  assert (H : (length (spike 128 64) <= 256)%nat) by (rewrite spike_length; lia).
  split; [exact H |]. exact (color_from_histogram_single_band _ H).
Defined.

End ColourRanges.

(** ** Looking a point up *)

Section Lookup.
Import Pillow Tree Props.

Lemma built_tiled (image : Image) (b : box) (d : Z) (n : QuadtreeNode) :
  built image b d n -> tiled n.
Proof.
  induction 1 as [b d Hstop
                 | b d f0 f1 f2 f3 c0 c1 c2 c3 Hstop Hsplit
                     H0 IH0 H1 IH1 H2 IH2 H3 IH3].
  - apply tiled_leaf. reflexivity.
  - apply (tiled_node _ c0 c1 c2 c3); try assumption; try reflexivity.
    cbn [border_box node_center_point set_childrens map].
    rewrite (proj1 (built_fields image _ _ _ H0)),
      (proj1 (built_fields image _ _ _ H1)),
      (proj1 (built_fields image _ _ _ H2)),
      (proj1 (built_fields image _ _ _ H3)).
    rewrite split_childrens_quadrants in Hsplit.
    change (map border_box [f0; f1; f2; f3]
            = quadrants (border_box (node_init image b d))
                        (node_center_point (node_init image b d))).
    rewrite <- Hsplit, map_map. cbn [border_box]. 
    rewrite (map_ext _ (fun q => q)) by (intro q; apply node_init_border_box).
    apply map_id.
Qed.

Lemma QuadTree_init_tiled (image : Image) (t : QuadTree) :
  QuadTree_init image = Ok t -> tiled (root t).
Proof.
  intro H. apply QuadTree_init_built in H as (bbox & _ & Hbuilt).
  eapply built_tiled, Hbuilt.
Qed.

Lemma tiled_four_way (n : QuadtreeNode) : tiled n -> four_way n.
Proof.
  induction 1; [now apply four_way_leaf | eapply four_way_node; eassumption].
Qed.

(** The half of an interval that the comparison with the midpoint selects
    holds the points of the interval that the comparison sends there. *)
Lemma selected_half (l r x : Q) :
  let c := (l + (r - l) / 2)%Q in
  (if Qle_bool c x
   then Qle_bool c x && Qlt_bool x r
   else Qle_bool l x && Qlt_bool x c)
  = Qle_bool l x && Qlt_bool x r.
Proof.
  cbv zeta. destruct (halves l r x) as [_ H2]. cbv zeta in H2.
  unfold Qlt_bool in *.
  destruct (Qle_bool (l + (r - l) / 2) x), (Qle_bool l x), (Qle_bool r x);
    cbn in *; congruence.
Qed.

(** The quadrant that the descent selects holds the point exactly when the
    box does. *)
Lemma selected_quadrant (b : box) (p : Point) (n : QuadtreeNode) :
  node_center_point n = center b ->
  in_box p (nth (step n p) (quadrants b (center b)) b) = in_box p b.
Proof.
  intro Hc. unfold step. rewrite Hc.
  destruct b as [[[l t] r] bt]. destruct p as [x y].
  unfold x_ge, y_ge, center, quadrants, box_left, box_right, box_top, box_bottom.
  cbn [fst snd x_coordinate y_coordinate].
  rewrite (in_box_split _ l t r bt). cbn [x_coordinate y_coordinate].
  rewrite <- (selected_half l r x), <- (selected_half t bt y). cbv zeta.
  destruct (Qle_bool (l + (r - l) / 2) x) eqn:Ex,
    (Qle_bool (t + (bt - t) / 2) y) eqn:Ey;
    cbn [Nat.add nth]; rewrite in_box_split; cbn [x_coordinate y_coordinate];
    rewrite ?Ex, ?Ey; reflexivity.
Qed.

Lemma last_default {A : Type} (l : list A) (d d' : A) :
  l <> [] -> last l d = last l d'.
Proof.
  induction l as [| a l IH]; [congruence |]. intros _.
  destruct l as [| b l]; [reflexivity |].
  change (last (b :: l) d = last (b :: l) d'). apply IH. discriminate.
Qed.

Lemma last_In {A : Type} (l : list A) (d : A) : l <> [] -> In (last l d) l.
Proof.
  induction l as [| a l IH]; [congruence |]. intros _.
  destruct l as [| b l]; [now left |].
  right. change (In (last (b :: l) d) (b :: l)). apply IH. discriminate.
Qed.

Lemma find_node_tiled (p : Point) (n : QuadtreeNode) :
  tiled n ->
  exists x visited,
    (forall acc, find_node n p acc = Ok (x, acc ++ visited))
    /\ childrens x = None
    /\ hd_error visited = Some n
    /\ last visited n = x
    /\ Forall (fun v => in_box p (border_box v) = in_box p (border_box n)) visited.
Proof.
  induction 1 as [n Hnone | n c0 c1 c2 c3 Hsome Hcenter Hboxes T0 IH0 T1 IH1 T2 IH2 T3 IH3].
  - exists n, [n]. split; [intro acc; now apply find_node_leaf |].
    repeat split; try assumption. constructor; [reflexivity | constructor].
  - pose proof (selected_quadrant (border_box n) p n Hcenter) as Hsel.
    rewrite <- Hcenter, <- Hboxes in Hsel.
    set (c := match step n p with
              | 0%nat => c0 | 1%nat => c1 | 2%nat => c2 | _ => c3
              end).
    assert (Hc : (exists x visited,
                    (forall acc, find_node c p acc = Ok (x, acc ++ visited))
                    /\ childrens x = None
                    /\ hd_error visited = Some c
                    /\ last visited c = x
                    /\ Forall (fun v => in_box p (border_box v)
                                        = in_box p (border_box c)) visited)
                 /\ in_box p (border_box c) = in_box p (border_box n)).
    { subst c. unfold step in *.
      destruct (x_ge p (node_center_point n)), (y_ge p (node_center_point n));
        cbn [Nat.add nth map] in *; split; assumption. }
    destruct Hc as ((x & visited & Hf & Hx & Hhd & Hlast & Hall) & Hin).
    exists x, (n :: visited).
    split.
    { intro acc. rewrite (find_node_node n c0 c1 c2 c3 p acc Hsome).
      fold c. rewrite Hf. now rewrite <- app_assoc. }
    split; [assumption |]. split; [reflexivity |]. split.
    { destruct visited as [| v vs]; [discriminate |].
      change (last (v :: vs) n = x). rewrite <- Hlast.
      apply last_default. discriminate. }
    constructor; [reflexivity |].
    eapply Forall_impl; [| exact Hall]. cbn. intros v Hv. now rewrite Hv.
Qed.

(** X10: in a tree whose nodes with children have the four quadrants of their
    region as children (the tree of an image, also after insertions and
    removals), [find_node] succeeds for every point; the node it returns has
    no children, is the last of the visited nodes, the first of which is the
    root, and every visited node, so the returned node too, holds the point in
    its region exactly when the root does. *)
Theorem find_node_contains_point (n : QuadtreeNode) (p : Point) :
  tiled n ->
  exists x visited,
    find_node n p [] = Ok (x, visited)
    /\ find_node_contain_point n p = Ok x
    /\ childrens x = None
    /\ hd_error visited = Some n
    /\ last visited n = x
    /\ Forall (fun v => in_box p (border_box v) = in_box p (border_box n)) visited
    /\ in_box p (border_box x) = in_box p (border_box n).
Proof.
  intro Hn.
  destruct (find_node_tiled p n Hn) as (x & visited & Hf & Hx & Hhd & Hlast & Hall).
  exists x, visited. split; [apply (Hf []) |].
  split; [unfold find_node_contain_point; now rewrite (Hf []) |].
  repeat split; try assumption.
  rewrite Forall_forall in Hall. apply Hall. rewrite <- Hlast.
  apply last_In. intro E. now rewrite E in Hhd.
Qed.

(** The 2x2 checkerboard and a point of its top left pixel. *)
Lemma find_node_contains_point_witness :
  tiled (root checker2_tree)
  /\ exists x visited,
      find_node (root checker2_tree) top_left_point [] = Ok (x, visited)
      /\ find_node_contain_point (root checker2_tree) top_left_point = Ok x
      /\ childrens x = None
      /\ hd_error visited = Some (root checker2_tree)
      /\ last visited (root checker2_tree) = x
      /\ Forall (fun v => in_box top_left_point (border_box v)
                          = in_box top_left_point (border_box (root checker2_tree)))
                visited
      /\ in_box top_left_point (border_box x)
         = in_box top_left_point (border_box (root checker2_tree)).
Proof.
  pose proof (QuadTree_init_tiled checker2 checker2_tree QuadTree_init_checker2)
    as Htiled.
  split; [exact Htiled |].
  exact (find_node_contains_point (root checker2_tree) top_left_point Htiled).
Defined.

End Lookup.

(** ** Insertions and removals *)

Section PointUpdates.
Import Pillow Tree WorkWithImages Props.

Lemma erase_points_unfold (n : QuadtreeNode) :
  erase_points n
  = mkNode (border_box n) (depth n)
           (match childrens n with
            | Some cs => Some (map erase_points cs)
            | None => None
            end)
           (is_leaf n) [] (node_center_point n) (average_color n) (error n).
Proof. now destruct n. Qed.

Lemma erase_points_set_node_points (n : QuadtreeNode) (ps : list Point) :
  erase_points (set_node_points n ps) = erase_points n.
Proof. now destruct n. Qed.

Lemma erase_points_set_childrens (n : QuadtreeNode) (cs cs' : list QuadtreeNode) :
  childrens n = Some cs ->
  map erase_points cs' = map erase_points cs ->
  erase_points (set_childrens n (Some cs')) = erase_points n.
Proof.
  destruct n as [bb d c lf ps ce col e]. cbn [childrens]. intros -> H.
  rewrite !erase_points_unfold. cbn [set_childrens childrens border_box depth
    is_leaf node_center_point average_color error]. now rewrite H.
Qed.

Lemma cut_erase_points (d : Z) (n : QuadtreeNode) :
  cut d (erase_points n) = cut d n.
Proof. now destruct n. Qed.

Lemma childrens_erase_points (n : QuadtreeNode) :
  childrens (erase_points n)
  = match childrens n with
    | Some cs => Some (map erase_points cs)
    | None => None
    end.
Proof. now destruct n. Qed.

(** The traversal of the tree without its points gives the nodes of the
    traversal, without their points. *)
Lemma get_leaf_nodes_recursion_erase (d : Z) (n : QuadtreeNode) :
  forall acc,
    get_leaf_nodes_recursion (erase_points n) d (map erase_points acc)
    = map erase_points (get_leaf_nodes_recursion n d acc).
Proof.
  induction n as [n IH] using QuadtreeNode_induction. intro acc.
  rewrite !get_leaf_nodes_recursion_unfold, cut_erase_points,
    childrens_erase_points.
  destruct (cut d n); [now rewrite map_app |].
  destruct (childrens n) as [cs |]; [| reflexivity].
  specialize (IH cs eq_refl). revert acc.
  induction cs as [| c cs IHcs]; intro acc; [reflexivity |].
  inversion IH as [| ? ? Hc Hcs]; subst.
  cbn [map fold_left]. rewrite Hc. now apply IHcs.
Qed.

Lemma erase_points_idem (n : QuadtreeNode) :
  erase_points (erase_points n) = erase_points n.
Proof.
  induction n as [n IH] using QuadtreeNode_induction.
  rewrite (erase_points_unfold (erase_points n)), childrens_erase_points.
  rewrite (erase_points_unfold n).
  cbn [border_box depth is_leaf node_center_point average_color error].
  destruct (childrens n) as [cs |]; [| reflexivity].
  f_equal. f_equal. rewrite map_map. apply map_ext_in. intros a Ha.
  specialize (IH cs eq_refl). rewrite Forall_forall in IH. now apply IH.
Qed.

Lemma erase_points_traversal {B : Type} (g : QuadtreeNode -> B)
  (n n' : QuadtreeNode) (d : Z) :
  (forall x, g (erase_points x) = g x) ->
  erase_points n' = erase_points n ->
  map g (get_leaf_nodes_recursion n' d [])
  = map g (get_leaf_nodes_recursion n d []).
Proof.
  intros Hg H.
  rewrite <- (map_ext _ _ Hg (get_leaf_nodes_recursion n' d [])),
    <- (map_ext _ _ Hg (get_leaf_nodes_recursion n d [])).
  rewrite <- !(map_map erase_points g).
  rewrite <- !(get_leaf_nodes_recursion_erase d _ []). cbn [map].
  now rewrite H.
Qed.

Lemma erase_points_create_image (t : QuadTree) (n' : QuadtreeNode)
  (level : Z) (borders : bool) :
  erase_points n' = erase_points (root t) ->
  create_image (with_root t n') level borders = create_image t level borders.
Proof.
  intro H. unfold create_image, get_leaf_nodes, with_root.
  cbn [width height root max_depth].
  destruct (max_depth t <? level); [reflexivity |]. cbn [bind].
  now rewrite (erase_points_traversal
                 (fun node => mkRectangle (border_box node) (average_color node)
                                          borders)
                 (root t) n' level (fun x => ltac:(now destruct x)) H).
Qed.

Lemma erase_points_tiled (n : QuadtreeNode) :
  tiled n -> forall n', erase_points n' = erase_points n -> tiled n'.
Proof.
  induction 1 as [n Hnone | n c0 c1 c2 c3 Hsome Hcenter Hboxes
                               T0 IH0 T1 IH1 T2 IH2 T3 IH3];
    intros n' H; rewrite !erase_points_unfold in H.
  - apply tiled_leaf. rewrite Hnone in H.
    destruct (childrens n'); [discriminate | reflexivity].
  - rewrite Hsome in H.
    destruct (childrens n') as [cs |] eqn:Hcs; [| discriminate].
    injection H as Hbox _ Hmap _ Hce _ _.
    destruct cs as [| d0 [| d1 [| d2 [| d3 [| d4 cs]]]]]; try discriminate.
    cbn [map] in Hmap. injection Hmap as E0 E1 E2 E3.
    apply (tiled_node n' d0 d1 d2 d3); auto.
    + now rewrite Hce, Hbox.
    + rewrite Hce, Hbox, <- Hboxes. cbn [map].
      assert (Hb : forall a b, erase_points a = erase_points b ->
                               border_box a = border_box b).
      { intros a b E. rewrite !erase_points_unfold in E. now injection E. }
      now rewrite (Hb _ _ E0), (Hb _ _ E1), (Hb _ _ E2), (Hb _ _ E3).
Qed.

Lemma insert_point_erase (p : Point) (n : QuadtreeNode) :
  four_way n ->
  forall n', insert_point n p = Ok n' -> erase_points n' = erase_points n.
Proof.
  induction 1 as [n Hnone | n c0 c1 c2 c3 Hsome F0 IH0 F1 IH1 F2 IH2 F3 IH3];
    intros n' H.
  - rewrite (insert_point_leaf n p Hnone) in H. injection H as <-.
    apply erase_points_set_node_points.
  - rewrite (insert_point_node n c0 c1 c2 c3 p Hsome) in H.
    destruct (step n p) as [| [| [| k]]];
      match type of H with
      | context [insert_point ?c p] => destruct (insert_point c p) as [c' | |] eqn:E
      end; try discriminate; cbn [bind] in H; injection H as <-;
      rewrite ?erase_points_set_node_points;
      apply (erase_points_set_childrens n _ _ Hsome); cbn [map];
      first [rewrite (IH0 _ eq_refl) | rewrite (IH1 _ eq_refl)
            | rewrite (IH2 _ eq_refl) | rewrite (IH3 _ eq_refl)]; reflexivity.
Qed.

(** [remove_point] at a node with four children, by the quadrant of the
    point. *)
Lemma remove_point_node (n c0 c1 c2 c3 : QuadtreeNode) (p : Point) :
  childrens n = Some [c0; c1; c2; c3] ->
  remove_point n p
  = match step n p with
    | 0%nat => c <- remove_point c0 p ;; Ok (set_childrens n (Some [c; c1; c2; c3]))
    | 1%nat => c <- remove_point c1 p ;; Ok (set_childrens n (Some [c0; c; c2; c3]))
    | 2%nat => c <- remove_point c2 p ;; Ok (set_childrens n (Some [c0; c1; c; c3]))
    | _ => c <- remove_point c3 p ;; Ok (set_childrens n (Some [c0; c1; c2; c]))
    end.
Proof.
  intro H. pose proof (quadrant_step n p) as Hq.
  destruct n as [bb d cs lf ps c col e]. cbn [childrens] in H. subst cs.
  unfold remove_point. cbn [find_node_ref childrens]. rewrite Hq.
  unfold step. cbn [node_center_point].
  destruct (x_ge p c), (y_ge p c); cbn [Nat.add call_at];
    match goal with
    | |- context [find_node_ref ?ci p] => destruct (find_node_ref ci p) as [ref | |]
    end; cbn [bind update_ref childrens update_at]; try reflexivity;
    match goal with
    | |- context [update_ref ?f ?r ?ci] => destruct (update_ref f r ci)
    end; reflexivity.
Qed.

Lemma remove_point_descent (p : Point) (n : QuadtreeNode) :
  four_way n ->
  exists n' x x' visited visited',
    remove_point n p = Ok n'
    /\ (forall acc, find_node n p acc = Ok (x, acc ++ visited))
    /\ (forall acc, find_node n' p acc = Ok (x', acc ++ visited'))
    /\ childrens x = None
    /\ node_points x'
       = remove_loop (length (node_points x)) 0 (node_points x) p
    /\ Forall2 (fun v v' => childrens v <> None ->
                            node_points v' = node_points v) visited visited'
    /\ four_way n'.
Proof.
  induction 1 as [n Hnone | n c0 c1 c2 c3 Hsome F0 IH0 F1 IH1 F2 IH2 F3 IH3].
  - set (m := set_node_points n
                (remove_loop (length (node_points n)) 0 (node_points n) p)).
    exists m, n, m, [n], [m].
    split; [now apply remove_point_leaf |].
    split; [intro acc; now apply find_node_leaf |].
    split; [intro acc; now apply find_node_leaf |].
    split; [assumption |]. split; [reflexivity |].
    split.
    + constructor; [| constructor]. intros Hc. contradiction.
    + now apply four_way_leaf.
  - rewrite (remove_point_node n c0 c1 c2 c3 p Hsome).
    destruct (step n p) as [| [| [| k]]] eqn:Hstep;
      [destruct IH0 as (c & x & x' & vis & vis' & -> & Hf & Hf' & Hx & Hp & Hall & Hc)
      |destruct IH1 as (c & x & x' & vis & vis' & -> & Hf & Hf' & Hx & Hp & Hall & Hc)
      |destruct IH2 as (c & x & x' & vis & vis' & -> & Hf & Hf' & Hx & Hp & Hall & Hc)
      |destruct IH3 as (c & x & x' & vis & vis' & -> & Hf & Hf' & Hx & Hp & Hall & Hc)];
      cbn [bind];
      match goal with
      | |- context [@Ok QuadtreeNode ?m] =>
          exists m, x, x', (n :: vis), (m :: vis')
      end;
      (split; [reflexivity |]);
      (split; [intro acc; rewrite (find_node_node n c0 c1 c2 c3 p acc Hsome), Hstep, Hf;
               now rewrite <- app_assoc |]);
      (split; [intro acc;
               erewrite find_node_node by reflexivity;
               match goal with
               | |- context [step ?m p] => change (step m p) with (step n p)
               end;
               rewrite Hstep, Hf'; now rewrite <- app_assoc |]);
      (split; [assumption |]); (split; [assumption |]);
      (split; [constructor; [intros _; reflexivity | assumption]
              | eapply four_way_node; [reflexivity | assumption ..]]).
Qed.

Lemma remove_point_erase (p : Point) (n : QuadtreeNode) :
  four_way n ->
  forall n', remove_point n p = Ok n' -> erase_points n' = erase_points n.
Proof.
  induction 1 as [n Hnone | n c0 c1 c2 c3 Hsome F0 IH0 F1 IH1 F2 IH2 F3 IH3];
    intros n' H.
  - rewrite (remove_point_leaf n p Hnone) in H. injection H as <-.
    apply erase_points_set_node_points.
  - rewrite (remove_point_node n c0 c1 c2 c3 p Hsome) in H.
    destruct (step n p) as [| [| [| k]]];
      match type of H with
      | context [remove_point ?c p] => destruct (remove_point c p) as [c' | |] eqn:E
      end; try discriminate; cbn [bind] in H; injection H as <-;
      apply (erase_points_set_childrens n _ _ Hsome); cbn [map];
      first [rewrite (IH0 _ eq_refl) | rewrite (IH1 _ eq_refl)
            | rewrite (IH2 _ eq_refl) | rewrite (IH3 _ eq_refl)]; reflexivity.
Qed.

(** X11: insertions and removals of points never change the picture.  On
    the tree of an image, or any tree whose nodes with children have their
    four quadrants as children, the tree after [insert_point] or
    [remove_point] differs from the tree before only in the points that its
    nodes hold: it is cut into quadrants as before, [get_leaf_nodes] gives
    the same nodes up to their points at every depth, and [create_image]
    gives the same picture or the same error. *)
Theorem point_updates_keep_picture (t : QuadTree) (p : Point)
  (n' : QuadtreeNode) :
  tiled (root t) ->
  insert_point (root t) p = Ok n' \/ remove_point (root t) p = Ok n' ->
  erase_points n' = erase_points (root t)
  /\ tiled n'
  /\ (forall d,
        match get_leaf_nodes (with_root t n') d, get_leaf_nodes t d with
        | Ok l', Ok l => map erase_points l' = map erase_points l
        | Raise e', Raise e => e' = e
        | _, _ => False
        end)
  /\ forall level borders,
       create_image (with_root t n') level borders
       = create_image t level borders.
Proof.
  intros Ht H.
  assert (He : erase_points n' = erase_points (root t)).
  { pose proof (tiled_four_way _ Ht) as Hfour.
    destruct H as [H | H];
      [now apply (insert_point_erase p) | now apply (remove_point_erase p)]. }
  split; [assumption |]. split; [now apply (erase_points_tiled (root t)) |].
  split.
  - intro d. unfold get_leaf_nodes, with_root. cbn [root max_depth].
    destruct (max_depth t <? d); [reflexivity |].
    apply erase_points_traversal; [| assumption].
    apply erase_points_idem.
  - intros level borders. now apply erase_points_create_image.
Qed.

(** The uniform 8x8 image, a single leaf, and the insertion of [(1, 1)]. *)
Lemma point_updates_keep_picture_witness :
  tiled (root flat8_tree)
  /\ (insert_point (root flat8_tree) on_diagonal
      = Ok (set_node_points (root flat8_tree)
              (node_points (root flat8_tree) ++ [on_diagonal]))
      \/ remove_point (root flat8_tree) on_diagonal
         = Ok (set_node_points (root flat8_tree)
                 (node_points (root flat8_tree) ++ [on_diagonal])))
  /\ erase_points (set_node_points (root flat8_tree)
                     (node_points (root flat8_tree) ++ [on_diagonal]))
     = erase_points (root flat8_tree)
  /\ tiled (set_node_points (root flat8_tree)
              (node_points (root flat8_tree) ++ [on_diagonal]))
  /\ (forall d,
        match get_leaf_nodes
                (with_root flat8_tree
                   (set_node_points (root flat8_tree)
                      (node_points (root flat8_tree) ++ [on_diagonal]))) d,
              get_leaf_nodes flat8_tree d with
        | Ok l', Ok l => map erase_points l' = map erase_points l
        | Raise e', Raise e => e' = e
        | _, _ => False
        end)
  /\ forall level borders,
       create_image
         (with_root flat8_tree
            (set_node_points (root flat8_tree)
               (node_points (root flat8_tree) ++ [on_diagonal])))
         level borders
       = create_image flat8_tree level borders.
Proof.
  pose proof (QuadTree_init_tiled flat8 flat8_tree QuadTree_init_flat8)
    as Htiled.
  assert (Hins : insert_point (root flat8_tree) on_diagonal
                 = Ok (set_node_points (root flat8_tree)
                         (node_points (root flat8_tree) ++ [on_diagonal]))).
  { apply insert_point_leaf. rewrite root_flat8_tree. apply leaf_over_childrens. }
  split; [exact Htiled |]. split; [left; exact Hins |].
  exact (point_updates_keep_picture flat8_tree on_diagonal _ Htiled
           (or_introl Hins)).
Defined.

End PointUpdates.

(** ** What a removal deletes *)

Section PointRemoval.
Import Pillow Tree Props.

(** A stored point that [list.remove] takes for a matching point matches
    the point to delete too. *)
Lemma Point_eq_chain (item point delete_point : Point) :
  Point_eq item point = true ->
  Point_eq point delete_point = true ->
  Point_eq item delete_point = true.
Proof.
  unfold Point_eq. rewrite !andb_true_iff, !Qeq_bool_iff.
  intros [H1 H2] [H3 H4]. split.
  - now rewrite H1, H4.
  - now rewrite H2, H4.
Qed.

Lemma Point_eq_matched_self (point delete_point : Point) :
  Point_eq point delete_point = true -> Point_eq point point = true.
Proof.
  unfold Point_eq. rewrite !andb_true_iff, !Qeq_bool_iff.
  intros [H1 H2]. split; [now rewrite H1, H2 | reflexivity].
Qed.

Lemma list_remove_unmatched (point delete_point : Point) (l : list Point) :
  Point_eq point delete_point = true ->
  filter (unmatched delete_point) (list_remove point l)
  = filter (unmatched delete_point) l.
Proof.
  intro H. induction l as [| item l IH]; [reflexivity |].
  cbn [list_remove filter]. destruct (Point_eq item point) eqn:E.
  - unfold unmatched at 2. now rewrite (Point_eq_chain _ _ _ E H).
  - cbn [filter]. now rewrite IH.
Qed.

Lemma list_remove_length (x : Point) (l : list Point) :
  (length (list_remove x l) <= length l)%nat.
Proof.
  induction l as [| item l IH]; [reflexivity |].
  cbn [list_remove]. destruct (Point_eq item x); cbn [length]; lia.
Qed.

Lemma list_remove_shorter (x : Point) (l : list Point) :
  (exists item, In item l /\ Point_eq item x = true) ->
  S (length (list_remove x l)) = length l.
Proof.
  induction l as [| item l IH]; intros (q & Hin & Hq); [contradiction |].
  cbn [list_remove]. destruct (Point_eq item x) eqn:E; [reflexivity |].
  cbn [length]. f_equal. apply IH. destruct Hin as [-> | Hin]; [congruence |].
  now exists q.
Qed.

Lemma remove_loop_unmatched (delete_point : Point) (steps : nat) :
  forall (index : nat) (points : list Point),
    filter (unmatched delete_point)
           (remove_loop steps index points delete_point)
    = filter (unmatched delete_point) points.
Proof.
  induction steps as [| steps IH]; intros index points; [reflexivity |].
  cbn [remove_loop]. destruct (nth_error points index) as [point |];
    [| reflexivity].
  destruct (Point_eq point delete_point) eqn:E; rewrite IH;
    [now apply list_remove_unmatched | reflexivity].
Qed.

Lemma remove_loop_length (delete_point : Point) (steps : nat) :
  forall (index : nat) (points : list Point),
    (length (remove_loop steps index points delete_point) <= length points)%nat.
Proof.
  induction steps as [| steps IH]; intros index points; [reflexivity |].
  cbn [remove_loop]. destruct (nth_error points index) as [point |];
    [| reflexivity].
  destruct (Point_eq point delete_point); [| apply IH].
  etransitivity; [apply IH | apply list_remove_length].
Qed.

(** The loop deletes a point when one of those it has still to look at
    matches. *)
Lemma remove_loop_shorter (delete_point : Point) (steps : nat) :
  forall (index : nat) (points : list Point),
    (length points <= steps + index)%nat ->
    Forall (fun q => Point_eq q delete_point = false) (firstn index points) ->
    (exists q, In q points /\ Point_eq q delete_point = true) ->
    (length (remove_loop steps index points delete_point) < length points)%nat.
Proof.
  induction steps as [| steps IH]; intros index points Hlen Hfirst (q & Hin & Hq).
  - exfalso. rewrite firstn_all2 in Hfirst by lia.
    rewrite Forall_forall in Hfirst. specialize (Hfirst q Hin). congruence.
  - cbn [remove_loop]. destruct (nth_error points index) as [point |] eqn:Hnth.
    + destruct (Point_eq point delete_point) eqn:E.
      * pose proof (remove_loop_length delete_point steps (S index)
                      (list_remove point points)) as Hle.
        assert (Hs : S (length (list_remove point points)) = length points).
        { apply list_remove_shorter. exists point. split.
          - eapply nth_error_In, Hnth.
          - eapply Point_eq_matched_self, E. }
        lia.
      * apply IH; [lia | | now exists q].
        assert (Hi : (index < length points)%nat)
          by (apply nth_error_Some; congruence).
        rewrite <- (firstn_skipn index points) in Hnth.
        rewrite nth_error_app2 in Hnth by (rewrite length_firstn; lia).
        rewrite length_firstn, Nat.min_l, Nat.sub_diag in Hnth by lia.
        destruct (skipn index points) as [| a rest] eqn:Hskip; [discriminate |].
        cbn [nth_error] in Hnth. injection Hnth as ->.
        rewrite <- (firstn_skipn index points) at 1. rewrite Hskip.
        replace (S index) with (length (firstn index points) + 1)%nat
          by (rewrite length_firstn; lia).
        rewrite firstn_app_2. cbn [firstn].
        apply Forall_app. split; [assumption |]. now constructor.
    + exfalso. apply nth_error_None in Hnth.
      rewrite firstn_all2 in Hfirst by lia.
      rewrite Forall_forall in Hfirst. specialize (Hfirst q Hin). congruence.
Qed.

(** X12: on a tree whose nodes have no children or four, [remove_point]
    succeeds and changes the collection of the terminal node of the point
    only.  The stored points that [Point.__eq__] does not relate to the point
    to delete all stay, in their order; the collection never grows, and it
    shrinks when a stored point is related to the point to delete.  The
    nodes that the descent passes keep their collections. *)
Theorem remove_point_keeps_unmatched (n : QuadtreeNode) (p : Point) :
  four_way n ->
  exists n' x x' visited visited',
    remove_point n p = Ok n'
    /\ find_node n p [] = Ok (x, visited)
    /\ find_node n' p [] = Ok (x', visited')
    /\ childrens x = None
    /\ filter (unmatched p) (node_points x')
       = filter (unmatched p) (node_points x)
    /\ (length (node_points x') <= length (node_points x))%nat
    /\ ((exists q, In q (node_points x) /\ Point_eq q p = true) ->
        (length (node_points x') < length (node_points x))%nat)
    /\ Forall2 (fun v v' => childrens v <> None ->
                            node_points v' = node_points v) visited visited'.
Proof.
  intro Hn.
  destruct (remove_point_descent p n Hn)
    as (n' & x & x' & vis & vis' & Hrem & Hf & Hf' & Hx & Hp & Hall & _).
  exists n', x, x', vis, vis'.
  split; [assumption |]. split; [apply (Hf []) |]. split; [apply (Hf' []) |].
  split; [assumption |]. rewrite Hp.
  split; [apply remove_loop_unmatched |].
  split; [apply remove_loop_length |].
  split; [| assumption].
  intro Hq. apply remove_loop_shorter; [lia | constructor | assumption].
Qed.

(** The 2x2 checkerboard and a point of its top left pixel. *)
Lemma remove_point_keeps_unmatched_witness :
  four_way (root checker2_tree)
  /\ exists n' x x' visited visited',
      remove_point (root checker2_tree) top_left_point = Ok n'
      /\ find_node (root checker2_tree) top_left_point [] = Ok (x, visited)
      /\ find_node n' top_left_point [] = Ok (x', visited')
      /\ childrens x = None
      /\ filter (unmatched top_left_point) (node_points x')
         = filter (unmatched top_left_point) (node_points x)
      /\ (length (node_points x') <= length (node_points x))%nat
      /\ ((exists q, In q (node_points x) /\ Point_eq q top_left_point = true) ->
          (length (node_points x') < length (node_points x))%nat)
      /\ Forall2 (fun v v' => childrens v <> None ->
                              node_points v' = node_points v) visited visited'.
Proof.
  pose proof (QuadTree_init_four_way checker2 checker2_tree QuadTree_init_checker2)
    as Hfour.
  split; [exact Hfour |].
  exact (remove_point_keeps_unmatched (root checker2_tree) top_left_point Hfour).
Defined.

(** The loop on a collection whose last point is the only one that matches:
    that point goes. *)
Lemma remove_loop_last (p : Point) (stored : list Point) :
  Point_eq p p = true ->
  Forall (fun q => Point_eq q p = false) stored ->
  forall (todo index steps : nat),
    (index + todo = length stored)%nat ->
    (todo < steps)%nat ->
    remove_loop steps index (stored ++ [p]) p = stored.
Proof.
  intros Hp Hstored. induction todo as [| todo IH]; intros index steps Hi Hs.
  - destruct steps as [| steps]; [lia |]. cbn [remove_loop].
    rewrite nth_error_app2 by lia.
    replace (index - length stored)%nat with 0%nat by lia. cbn [nth_error].
    rewrite Hp.
    assert (Hrem : list_remove p (stored ++ [p]) = stored).
    { clear -Hp Hstored. induction Hstored as [| q l Hq Hl IHl].
      - cbn. now rewrite Hp.
      - cbn [app list_remove]. rewrite Hq. now rewrite IHl. }
    rewrite Hrem. destruct steps as [| steps]; [reflexivity |].
    cbn [remove_loop].
    now replace (nth_error stored (S index)) with (@None Point)
      by (symmetry; apply nth_error_None; lia).
  - destruct steps as [| steps]; [lia |]. cbn [remove_loop].
    destruct (nth_error (stored ++ [p]) index) as [point |] eqn:Hnth.
    + rewrite nth_error_app1 in Hnth by lia.
      rewrite Forall_forall in Hstored.
      rewrite (Hstored point (nth_error_In _ _ Hnth)).
      apply IH; lia.
    + apply nth_error_None in Hnth. rewrite length_app in Hnth. cbn in Hnth. lia.
Qed.

(** X13: a removal undoes an insertion at the terminal node for a point on
    the diagonal.  When the coordinates of the point are equal and no point
    of the terminal node of the point is related to it by [Point.__eq__],
    inserting the point and then removing it gives the terminal node its
    collection back, and leaves the regions and colours of the tree as they
    were. *)
Theorem insert_then_remove_point (n x : QuadtreeNode) (p : Point) :
  four_way n ->
  (x_coordinate p == y_coordinate p)%Q ->
  find_node_contain_point n p = Ok x ->
  Forall (fun q => Point_eq q p = false) (node_points x) ->
  exists n1 n2 x1 x2,
    insert_point n p = Ok n1
    /\ find_node_contain_point n1 p = Ok x1
    /\ node_points x1 = node_points x ++ [p]
    /\ remove_point n1 p = Ok n2
    /\ find_node_contain_point n2 p = Ok x2
    /\ node_points x2 = node_points x
    /\ erase_points n2 = erase_points n.
Proof.
  intros Hn Hdiag Hx Hstored.
  destruct (insert_point_descent p n Hn)
    as (n1 & y & x1 & vis & vis1 & Hins & Hf & Hf1 & _ & Hp1 & _ & Hn1).
  destruct (remove_point_descent p n1 Hn1)
    as (n2 & y1 & x2 & vis1' & vis2 & Hrem & Hg1 & Hg2 & _ & Hp2 & _ & _).
  unfold find_node_contain_point in Hx. rewrite (Hf []) in Hx.
  cbn [bind fst] in Hx. injection Hx as ->.
  pose proof (Hf1 []) as E1. rewrite (Hg1 []) in E1. injection E1 as -> _.
  exists n1, n2, x1, x2.
  split; [assumption |].
  split; [unfold find_node_contain_point; now rewrite (Hf1 []) |].
  split; [assumption |]. split; [assumption |].
  split; [unfold find_node_contain_point; now rewrite (Hg2 []) |].
  split.
  - rewrite Hp2, Hp1.
    apply (remove_loop_last p (node_points x) (proj2 (Point_eq_self p) Hdiag)
             Hstored (length (node_points x)) 0);
      [reflexivity | rewrite length_app; cbn; lia].
  - rewrite (remove_point_erase p n1 Hn1 n2 Hrem).
    apply (insert_point_erase p n Hn n1 Hins).
Qed.

(** The uniform 8x8 image, a single leaf that holds no point, and the point
    [(1, 1)]. *)
Lemma insert_then_remove_point_witness :
  four_way (root flat8_tree)
  /\ (x_coordinate on_diagonal == y_coordinate on_diagonal)%Q
  /\ find_node_contain_point (root flat8_tree) on_diagonal
     = Ok (root flat8_tree)
  /\ Forall (fun q => Point_eq q on_diagonal = false)
            (node_points (root flat8_tree))
  /\ exists n1 n2 x1 x2,
      insert_point (root flat8_tree) on_diagonal = Ok n1
      /\ find_node_contain_point n1 on_diagonal = Ok x1
      /\ node_points x1 = node_points (root flat8_tree) ++ [on_diagonal]
      /\ remove_point n1 on_diagonal = Ok n2
      /\ find_node_contain_point n2 on_diagonal = Ok x2
      /\ node_points x2 = node_points (root flat8_tree)
      /\ erase_points n2 = erase_points (root flat8_tree).
Proof.
  pose proof (QuadTree_init_four_way flat8 flat8_tree QuadTree_init_flat8)
    as Hfour.
  assert (Hdiag : (x_coordinate on_diagonal == y_coordinate on_diagonal)%Q)
    by reflexivity.
  assert (Hleaf : childrens (root flat8_tree) = None)
    by (rewrite root_flat8_tree; apply leaf_over_childrens).
  pose proof (find_node_contain_point_leaf (root flat8_tree) on_diagonal Hleaf)
    as Hfind.
  assert (Hstored : Forall (fun q => Point_eq q on_diagonal = false)
                           (node_points (root flat8_tree))).
  { rewrite root_flat8_tree, leaf_over_node_points. constructor. }
  split; [exact Hfour |]. split; [exact Hdiag |]. split; [exact Hfind |].
  split; [exact Hstored |].
  exact (insert_then_remove_point (root flat8_tree) (root flat8_tree)
           on_diagonal Hfour Hdiag Hfind Hstored).
Defined.

(** X14: a point off the diagonal cannot be removed.  When the coordinates
    of the point differ, [remove_point] of it keeps every stored point equal
    to it: the terminal node holds the point after the call as many times as
    before. *)
Theorem remove_point_off_diagonal (n : QuadtreeNode) (p : Point) :
  four_way n ->
  ~ (x_coordinate p == y_coordinate p)%Q ->
  exists n' x x',
    remove_point n p = Ok n'
    /\ find_node_contain_point n p = Ok x
    /\ find_node_contain_point n' p = Ok x'
    /\ length (filter (fun q => Qeq_bool (x_coordinate q) (x_coordinate p)
                                && Qeq_bool (y_coordinate q) (y_coordinate p))
                      (node_points x'))
       = length (filter (fun q => Qeq_bool (x_coordinate q) (x_coordinate p)
                                  && Qeq_bool (y_coordinate q) (y_coordinate p))
                        (node_points x))
    /\ (In p (node_points x) -> In p (node_points x')).
Proof.
  intros Hn Hoff.
  destruct (remove_point_descent p n Hn)
    as (n' & x & x' & vis & vis' & Hrem & Hf & Hf' & _ & Hp & _ & _).
  exists n', x, x'.
  split; [assumption |].
  split; [unfold find_node_contain_point; now rewrite (Hf []) |].
  split; [unfold find_node_contain_point; now rewrite (Hf' []) |].
  pose proof (remove_loop_unmatched p (length (node_points x)) 0 (node_points x))
    as Hkeep. rewrite <- Hp in Hkeep.
  set (same := fun q => Qeq_bool (x_coordinate q) (x_coordinate p)
                        && Qeq_bool (y_coordinate q) (y_coordinate p)).
  assert (Hsame : forall q, same q = true -> unmatched p q = true).
  { intros q Hq. unfold same in Hq. apply andb_true_iff in Hq as [Hqx Hqy].
    apply Qeq_bool_iff in Hqx, Hqy. unfold unmatched, Point_eq.
    apply negb_true_iff, andb_false_iff. left.
    apply not_true_is_false. intro E. apply Qeq_bool_iff in E.
    apply Hoff. now rewrite <- Hqx, E. }
  assert (Hfilter : forall l, filter same (filter (unmatched p) l) = filter same l).
  { induction l as [| q l IH]; [reflexivity |]. cbn [filter].
    destruct (same q) eqn:Eq.
    - rewrite (Hsame q Eq). cbn [filter]. now rewrite Eq, IH.
    - destruct (unmatched p q); cbn [filter]; now rewrite ?Eq, IH. }
  split.
  - now rewrite <- (Hfilter (node_points x')), Hkeep, Hfilter.
  - intro Hin.
    assert (Hpp : unmatched p p = true).
    { apply Hsame. unfold same. apply andb_true_iff.
      split; apply Qeq_bool_iff; reflexivity. }
    assert (H : In p (filter (unmatched p) (node_points x)))
      by (apply filter_In; now split).
    rewrite <- Hkeep in H. now apply filter_In in H.
Qed.

(** The uniform 8x8 image and the point [(0, 1)]. *)
Lemma remove_point_off_diagonal_witness :
  four_way (root flat8_tree)
  /\ ~ (x_coordinate off_diagonal == y_coordinate off_diagonal)%Q
  /\ exists n' x x',
      remove_point (root flat8_tree) off_diagonal = Ok n'
      /\ find_node_contain_point (root flat8_tree) off_diagonal = Ok x
      /\ find_node_contain_point n' off_diagonal = Ok x'
      /\ length (filter (fun q =>
                           Qeq_bool (x_coordinate q) (x_coordinate off_diagonal)
                           && Qeq_bool (y_coordinate q)
                                       (y_coordinate off_diagonal))
                        (node_points x'))
         = length (filter (fun q =>
                             Qeq_bool (x_coordinate q) (x_coordinate off_diagonal)
                             && Qeq_bool (y_coordinate q)
                                         (y_coordinate off_diagonal))
                          (node_points x))
      /\ (In off_diagonal (node_points x) -> In off_diagonal (node_points x')).
Proof.
  pose proof (QuadTree_init_four_way flat8 flat8_tree QuadTree_init_flat8)
    as Hfour.
  assert (Hoff : ~ (x_coordinate off_diagonal == y_coordinate off_diagonal)%Q)
    by (intro H; vm_compute in H; discriminate H).
  split; [exact Hfour |]. split; [exact Hoff |].
  exact (remove_point_off_diagonal (root flat8_tree) off_diagonal Hfour Hoff).
Defined.

End PointRemoval.

(** ** The outcomes of a run *)

Section Outcomes.
Import Pillow Tree WorkWithImages Props.

Lemma QuadTree_init_max_depth_le (image : Image) (t : QuadTree) :
  QuadTree_init image = Ok t -> max_depth t <= MAX_DEPTH.
Proof.
  intro H. pose proof (QuadTree_init_max_depth image t H) as (_ & _ & Hin).
  apply leaf_depths_subnode in Hin as (x & Hsub & _ & <-).
  destruct (QuadTree_init_nodes image t x H Hsub) as (b & d & Hb & Hd).
  pose proof (built_fields image _ _ _ Hb) as (_ & Hdepth & _). lia.
Qed.

(** The loop makes one frame per depth when no depth exceeds [max_depth]. *)
Lemma gif_loop_ok (t : QuadTree) (borders : bool) (values : list Z) :
  Forall (fun value => value <= max_depth t) values ->
  forall gif,
  exists new,
    gif_loop t borders values gif
    = (mkGif (frames gif ++ new)
             (frames_count gif + Z.of_nat (length values)) (gif_number gif),
       Ok tt)
    /\ Forall2 (fun value frame => create_image t value borders = Ok frame)
               values new.
Proof.
  induction 1 as [| value values Hvalue Hvalues IH]; intro gif.
  - exists []. split; [| constructor]. cbn [gif_loop length Z.of_nat].
    rewrite app_nil_r, Z.add_0_r. now destruct gif.
  - destruct (create_image_ok t value borders Hvalue) as [image Himage].
    destruct (IH (add_img_to_gif image gif)) as (new & Hloop & Hnew).
    exists (image :: new). split; [| now constructor].
    cbn [gif_loop]. rewrite Himage, Hloop.
    cbn [add_img_to_gif frames frames_count gif_number].
    rewrite <- app_assoc. cbn [app]. f_equal. f_equal.
    cbn [length]. lia.
Qed.

(** X15: how a run of [compression_start] ends, from the opened image on.
    An image without a bounding box (all black) ends in [TypeError] and
    writes nothing.  Otherwise the tree is built, with [max_depth] between 0
    and [MAX_DEPTH]; a level above [max_depth] ends in [ValueError] and
    writes nothing; a level up to [max_depth] writes the picture of that
    level, and then, with the animation flag, the animation of the nine
    pictures of the depths 0 to 8 when [max_depth] is [MAX_DEPTH], and nothing
    more, ending in [ValueError], when it is less. *)
Theorem compression_start_outcomes (image : Image) (level : Z)
  (borders : bool) :
  (getbbox image = None ->
   forall gif,
     compression_start image level borders gif = ([], Raise TypeError))
  /\ (forall bbox,
        getbbox image = Some bbox ->
        exists t,
          QuadTree_init image = Ok t
          /\ 0 <= max_depth t <= MAX_DEPTH
          /\ (max_depth t < level ->
              forall gif,
                compression_start image level borders gif
                = ([], Raise ValueError))
          /\ (level <= max_depth t ->
              exists result_image,
                create_image t level borders = Ok result_image
                /\ compression_start image level borders false
                   = ([ImageSaved result_image], Ok tt)
                /\ (max_depth t < MAX_DEPTH ->
                    compression_start image level borders true
                    = ([ImageSaved result_image], Raise ValueError))
                /\ (max_depth t = MAX_DEPTH ->
                    exists gif_frames,
                      compression_start image level borders true
                      = ([ImageSaved result_image; GifSaved gif_frames], Ok tt)
                      /\ Forall2 (fun value frame =>
                                    create_image t value borders = Ok frame)
                                 [0; 1; 2; 3; 4; 5; 6; 7; 8] gif_frames))).
Proof.
  split.
  - intros Hnone gif. unfold compression_start.
    now rewrite (QuadTree_init_no_bbox image Hnone).
  - intros bbox Hbbox.
    destruct (QuadTree_init_total image bbox Hbbox) as [t Hinit].
    pose proof (QuadTree_init_max_depth_nonneg image t Hinit) as Hnonneg.
    pose proof (QuadTree_init_max_depth_le image t Hinit) as Hle.
    exists t. split; [assumption |]. split; [lia |]. split.
    + intros Hlevel gif. unfold compression_start.
      now rewrite Hinit, (create_image_fails t level borders Hlevel).
    + intro Hlevel.
      destruct (create_image_ok t level borders Hlevel) as [result_image Himage].
      exists result_image. split; [assumption |].
      unfold compression_start. rewrite Hinit, Himage.
      split; [reflexivity |]. split.
      * intro Hmax.
        destruct (gif_loop_fails t borders (MAX_DEPTH + 1)
                    (Z.to_nat (max_depth t + 1)) 0 (mkGif [] 0 1))
          as (gif' & -> & _); [lia | lia | reflexivity].
      * intro Hmax.
        destruct (gif_loop_ok t borders (range 0 (MAX_DEPTH + 1))) with
          (gif := mkGif [] 0 1) as (new & -> & Hnew).
        { apply Forall_forall. intros value Hvalue.
          apply range_In in Hvalue. lia. }
        change (range 0 (MAX_DEPTH + 1)) with [0; 1; 2; 3; 4; 5; 6; 7; 8] in Hnew.
        exists new. split; [| assumption].
        cbn [frames app]. inversion Hnew as [| ? frame ? rest _ _]; subst.
        reflexivity.
Qed.

End Outcomes.

(** ** The command line and the names of the files *)

Section CommandLine.
Import Pillow Tree WorkWithImages Props Paths Main.
Import Stdlib.Strings.Ascii.

Lemma str_eqb_eq (a b : str) : str_eqb a b = true <-> a = b.
Proof.
  revert b. induction a as [| x a IH]; intros [| y b]; cbn [str_eqb];
    try (split; [discriminate | discriminate]); [now split |].
  rewrite andb_true_iff, Ascii.eqb_eq, IH. split.
  - now intros [-> ->].
  - intro H. injection H as -> ->. now split.
Qed.

Lemma str_in_In (x : str) (l : list str) : str_in x l = true <-> In x l.
Proof.
  unfold str_in. rewrite existsb_exists. split.
  - intros (y & Hy & E). apply str_eqb_eq in E. now subst.
  - intro H. exists x. split; [assumption | now apply str_eqb_eq].
Qed.

Lemma int_in_range (x a b : Z) : int_in x (range a b) = true <-> a <= x < b.
Proof.
  unfold int_in. rewrite existsb_exists, <- range_In. split.
  - intros (y & Hy & E). apply Z.eqb_eq in E. now subst.
  - intro H. exists x. split; [assumption | apply Z.eqb_refl].
Qed.

(** [s[len(s) - k::]] is the string itself when it has at most [k]
    characters... unless the start is negative, which counts from the end;
    for a string of at least [k] characters it is the last [k]. *)
Lemma slice_from_suffix {A : Type} (stem ext : list A) :
  slice_from (Z.of_nat (length (stem ++ ext)) - Z.of_nat (length ext))
             (stem ++ ext)
  = ext.
Proof.
  unfold slice_from. rewrite length_app.
  destruct (Z.ltb_spec (Z.of_nat (length stem + length ext)
                        - Z.of_nat (length ext)) 0) as [H | H]; [lia |].
  replace (Z.to_nat _) with (length stem) by lia.
  rewrite skipn_app, Nat.sub_diag, skipn_all. reflexivity.
Qed.

Lemma slice_from_last3 {A : Type} (stem : list A) (e1 e2 e3 : A) :
  slice_from (Z.of_nat (length (stem ++ [e1; e2; e3])) - 3)
             (stem ++ [e1; e2; e3])
  = [e1; e2; e3].
Proof. exact (slice_from_suffix stem [e1; e2; e3]). Qed.

Lemma slice_from_is_suffix {A : Type} (start : Z) (s : list A) :
  exists stem, s = stem ++ slice_from start s.
Proof.
  unfold slice_from. eexists. symmetry. apply firstn_skipn.
Qed.

Lemma slice_from_last_length {A : Type} (k : nat) (s : list A) :
  (length (slice_from (Z.of_nat (length s) - Z.of_nat k) s) <= k)%nat.
Proof.
  unfold slice_from. rewrite length_skipn.
  destruct (Z.ltb_spec (Z.of_nat (length s) - Z.of_nat k) 0); lia.
Qed.

Lemma slice_to_stem {A : Type} (stem ext : list A) :
  ext <> [] ->
  slice_to (- Z.of_nat (length ext)) (stem ++ ext) = stem.
Proof.
  intro Hext. unfold slice_to. rewrite length_app.
  assert (0 < length ext)%nat by (destruct ext; [congruence | cbn; lia]).
  destruct (Z.ltb_spec (- Z.of_nat (length ext)) 0) as [H' | H']; [| lia].
  replace (Z.to_nat _) with (length stem) by lia.
  rewrite firstn_app, Nat.sub_diag, firstn_all. cbn [firstn].
  apply app_nil_r.
Qed.

(** The last three characters decide: they are ["jpg"] or ["png"]; the
    entry ["jpeg"] of the list has four characters and never matches. *)
Lemma extension_accepted (s : str) :
  str_in (slice_from (Z.of_nat (length s) - 3) s) [jpg; png; jpeg] = true
  <-> exists stem, s = stem ++ jpg \/ s = stem ++ png.
Proof.
  rewrite str_in_In. split.
  - intro H. destruct (slice_from_is_suffix (Z.of_nat (length s) - 3) s)
      as [stem Hs].
    pose proof (slice_from_last_length 3 s) as Hlen.
    change (Z.of_nat 3) with 3 in Hlen.
    exists stem. destruct H as [H | [H | [H | []]]].
    + left. now rewrite H.
    + right. now rewrite H.
    + rewrite <- H in Hlen. cbn in Hlen. lia.
  - intros [stem [-> | ->]].
    + left. symmetry. apply (slice_from_suffix stem jpg).
    + right. left. symmetry. apply (slice_from_suffix stem png).
Qed.

Lemma check_fields_true (exists_ : str -> bool) (args : Namespace) :
  check_fields exists_ args = true
  <-> exists_ (file args) = true
      /\ (exists stem, file args = stem ++ jpg \/ file args = stem ++ png)
      /\ 1 <= level args <= 8.
Proof.
  unfold check_fields. rewrite <- extension_accepted.
  pose proof (int_in_range (level args) 1 9) as Hlevel.
  split.
  - intro H.
    destruct (exists_ (file args)); [| discriminate].
    destruct (str_in _ _); [| discriminate].
    destruct (int_in _ _); [| discriminate].
    assert (1 <= level args < 9) by now apply Hlevel.
    repeat split; lia.
  - intros (-> & -> & Hl). cbn [negb orb].
    replace (int_in _ _) with true; [reflexivity |].
    symmetry. apply Hlevel. lia.
Qed.

(** X16: [check_fields] accepts the arguments exactly when the file
    exists, its name ends in the three characters [jpg] or [png], and the
    level lies between 1 and 8.  The extension is read as the last three
    characters, so a name that ends in [jpeg] is refused although [jpeg] is
    in the list of extensions, and no dot is asked for before the
    extension. *)
Theorem check_fields_accepts (exists_ : str -> bool) (args : Namespace) :
  (check_fields exists_ args = true
   <-> exists_ (file args) = true
       /\ (exists stem, file args = stem ++ jpg \/ file args = stem ++ png)
       /\ 1 <= level args <= 8)
  /\ (forall stem, file args = stem ++ jpeg ->
                   check_fields exists_ args = false).
Proof.
  split; [apply check_fields_true |].
  intros stem Hfile. unfold check_fields.
  replace (str_in _ _) with false; [now rewrite orb_true_r |].
  symmetry. rewrite Hfile.
  replace (stem ++ jpeg) with ((stem ++ ["j"%char]) ++ ["p"; "e"; "g"]%char)
    by (now rewrite <- app_assoc).
  rewrite (slice_from_last3 (stem ++ ["j"%char])). reflexivity.
Qed.

Lemma result_path_stem (stem : str) (c e1 e2 e3 : ascii) :
  result_path (stem ++ [c; e1; e2; e3]) = stem ++ quadtree_mark ++ [e1; e2; e3].
Proof.
  unfold result_path.
  change (slice_to (-4) (stem ++ [c; e1; e2; e3]))
    with (slice_to (- Z.of_nat (length [c; e1; e2; e3]))
                   (stem ++ [c; e1; e2; e3])).
  rewrite (slice_to_stem stem [c; e1; e2; e3]) by discriminate.
  replace (stem ++ [c; e1; e2; e3]) with ((stem ++ [c]) ++ [e1; e2; e3])
    by (now rewrite <- app_assoc).
  now rewrite (slice_from_last3 (stem ++ [c])).
Qed.

(** X17: the name of the saved picture.  For accepted arguments the picture
    is saved under the name of the file with its last four characters
    replaced by [_quadtree.] and the extension ([jpg] or [png]); a name of
    three characters, the bare extension, gives [_quadtree.] and the
    extension.  The name differs from the name of the file, so the original
    is never overwritten. *)
Theorem result_path_accepted (exists_ : str -> bool) (args : Namespace) :
  check_fields exists_ args = true ->
  exists stem ext,
    (ext = jpg \/ ext = png)
    /\ result_path (file args) = stem ++ quadtree_mark ++ ext
    /\ ((stem = [] /\ file args = ext) \/ exists c, file args = stem ++ c :: ext)
    /\ result_path (file args) <> file args.
Proof.
  intro H. apply check_fields_true in H as (_ & (s & Hs) & _).
  assert (Hshape : exists stem ext,
            (ext = jpg \/ ext = png)
            /\ result_path (file args) = stem ++ quadtree_mark ++ ext
            /\ ((stem = [] /\ file args = ext)
                \/ exists c, file args = stem ++ c :: ext)).
  { assert (Hcases : s = [] \/ exists stem c, s = stem ++ [c]).
    { destruct s as [| a s']; [now left | right].
      destruct (@exists_last _ (a :: s')) as (stem & c & E); [discriminate |].
      now exists stem, c. }
    destruct Hcases as [-> | (stem & c & ->)].
    - exists [], (file args). cbn [app] in Hs.
      split; [tauto |]. split; [| now left].
      destruct Hs as [-> | ->]; reflexivity.
    - exists stem. destruct Hs as [Hs | Hs]; rewrite <- app_assoc in Hs;
        [exists jpg | exists png]; (split; [tauto |]);
        (split; [rewrite Hs; apply result_path_stem | right; now exists c]). }
  destruct Hshape as (stem & ext & Hext & Hpath & Hfile).
  exists stem, ext. repeat split; try assumption.
  intro E. rewrite Hpath in E. apply (f_equal (@length ascii)) in E.
  rewrite !length_app in E.
  assert (length ext = 3)%nat by (destruct Hext as [-> | ->]; reflexivity).
  destruct Hfile as [[-> Hf] | [c Hf]]; rewrite Hf in E;
    rewrite ?length_app in E; cbn [length quadtree_mark] in E; lia.
Qed.

(** The file [a.png], which exists, and level 5. *)
Lemma result_path_accepted_witness :
  check_fields (fun _ => true)
               (mkArgs ["a"; "."; "p"; "n"; "g"]%char 5 false false) = true
  /\ exists stem ext,
      (ext = jpg \/ ext = png)
      /\ result_path (file (mkArgs ["a"; "."; "p"; "n"; "g"]%char 5 false false))
         = stem ++ quadtree_mark ++ ext
      /\ ((stem = []
           /\ file (mkArgs ["a"; "."; "p"; "n"; "g"]%char 5 false false) = ext)
          \/ exists c,
               file (mkArgs ["a"; "."; "p"; "n"; "g"]%char 5 false false)
               = stem ++ c :: ext)
      /\ result_path (file (mkArgs ["a"; "."; "p"; "n"; "g"]%char 5 false false))
         <> file (mkArgs ["a"; "."; "p"; "n"; "g"]%char 5 false false).
Proof.
  assert (H : check_fields (fun _ => true)
                (mkArgs ["a"; "."; "p"; "n"; "g"]%char 5 false false) = true)
    by reflexivity.
  split; [exact H |].
  exact (result_path_accepted (fun _ => true)
           (mkArgs ["a"; "."; "p"; "n"; "g"]%char 5 false false) H).
Defined.

Lemma compression_start_writes (image : Image) (t : QuadTree) (level0 : Z)
  (borders0 gif0 : bool) :
  QuadTree_init image = Ok t ->
  level0 <= max_depth t ->
  exists result_image rest,
    fst (compression_start image level0 borders0 gif0)
    = ImageSaved result_image :: rest.
Proof.
  intros Hinit Hlevel.
  destruct (create_image_ok t level0 borders0 Hlevel) as [result_image Himage].
  exists result_image. unfold compression_start. rewrite Hinit, Himage.
  destruct gif0; [| now exists []].
  destruct (gif_loop _ _ _ _) as [gif1 [[] | e |]];
    [| now exists [] | now exists []].
  destruct (create_gif gif1) as [[gif2 written] | e |];
    [now exists written | now exists [] | now exists []].
Qed.

(** X18: the program writes a file exactly when [check_fields] accepts the
    arguments and the level is within the depth of the tree of the image.
    Accepted arguments with a greater level end in [ValueError] with nothing
    written; as accepted levels start at 1, no command line writes a file for
    an image whose tree is a single leaf.  Refused arguments end the run
    without an error and without a file. *)
Theorem parse_args_writes (exists_ : str -> bool) (image : Image)
  (t : QuadTree) (args : Namespace) :
  QuadTree_init image = Ok t ->
  (fst (parse_args exists_ image args) <> []
   <-> check_fields exists_ args = true /\ level args <= max_depth t)
  /\ (check_fields exists_ args = true -> max_depth t < level args ->
      parse_args exists_ image args = ([], Raise ValueError))
  /\ (max_depth t = 0 -> fst (parse_args exists_ image args) = [])
  /\ (check_fields exists_ args = false ->
      parse_args exists_ image args = ([], Ok tt)).
Proof.
  intro Hinit.
  assert (Hfail : check_fields exists_ args = true -> max_depth t < level args ->
                  parse_args exists_ image args = ([], Raise ValueError)).
  { intros Hcheck Hlevel. unfold parse_args, compression_start.
    now rewrite Hcheck, Hinit, (create_image_fails t _ _ Hlevel). }
  assert (Hrefused : check_fields exists_ args = false ->
                     parse_args exists_ image args = ([], Ok tt)).
  { intro Hcheck. unfold parse_args. now rewrite Hcheck. }
  split; [| split; [assumption | split; [| assumption]]].
  - split.
    + intro Hwritten. destruct (check_fields exists_ args) eqn:Hcheck.
      * split; [reflexivity |].
        destruct (Z.le_gt_cases (level args) (max_depth t)) as [Hle | Hgt];
          [assumption |].
        rewrite (Hfail eq_refl Hgt) in Hwritten. now contradiction Hwritten.
      * rewrite (Hrefused eq_refl) in Hwritten. now contradiction Hwritten.
    + intros [Hcheck Hlevel]. unfold parse_args. rewrite Hcheck.
      destruct (compression_start_writes image t (level args) (borders args)
                  (gif args) Hinit Hlevel) as (result_image & rest & ->).
      discriminate.
  - intro Hmax. destruct (check_fields exists_ args) eqn:Hcheck.
    + rewrite Hfail; [reflexivity | reflexivity |].
      apply check_fields_true in Hcheck as (_ & _ & Hlevel). lia.
    + now rewrite Hrefused.
Qed.

(** The uniform 8x8 image, a single leaf, and level 1. *)
Lemma parse_args_writes_witness :
  QuadTree_init flat8 = Ok flat8_tree
  /\ (fst (parse_args (fun _ => true) flat8
             (mkArgs ["a"; "."; "p"; "n"; "g"]%char 1 false false)) <> []
      <-> check_fields (fun _ => true)
            (mkArgs ["a"; "."; "p"; "n"; "g"]%char 1 false false) = true
          /\ level (mkArgs ["a"; "."; "p"; "n"; "g"]%char 1 false false)
             <= max_depth flat8_tree)
  /\ (check_fields (fun _ => true)
        (mkArgs ["a"; "."; "p"; "n"; "g"]%char 1 false false) = true ->
      max_depth flat8_tree
      < level (mkArgs ["a"; "."; "p"; "n"; "g"]%char 1 false false) ->
      parse_args (fun _ => true) flat8
        (mkArgs ["a"; "."; "p"; "n"; "g"]%char 1 false false)
      = ([], Raise ValueError))
  /\ (max_depth flat8_tree = 0 ->
      fst (parse_args (fun _ => true) flat8
             (mkArgs ["a"; "."; "p"; "n"; "g"]%char 1 false false)) = [])
  /\ (check_fields (fun _ => true)
        (mkArgs ["a"; "."; "p"; "n"; "g"]%char 1 false false) = false ->
      parse_args (fun _ => true) flat8
        (mkArgs ["a"; "."; "p"; "n"; "g"]%char 1 false false)
      = ([], Ok tt)).
Proof.
  split; [exact QuadTree_init_flat8 |].
  exact (parse_args_writes (fun _ => true) flat8 flat8_tree
           (mkArgs ["a"; "."; "p"; "n"; "g"]%char 1 false false)
           QuadTree_init_flat8).
Defined.

Lemma gif_path_not_directory (k : Z) : str_eqb (gif_path k) directory = false.
Proof. reflexivity. Qed.

Lemma create_path_loop_first_free (exists_ : str -> bool) (free : Z) :
  exists_ (gif_path free) = false ->
  forall (todo fuel : nat) (start : Z),
    start + Z.of_nat todo = free ->
    (todo < fuel)%nat ->
    (forall k, start <= k < free -> exists_ (gif_path k) = true) ->
    create_path_loop fuel exists_ start = Ok (free, gif_path free).
Proof.
  intro Hfree. induction todo as [| todo IH]; intros fuel start Hstart Hfuel Hbelow;
    (destruct fuel as [| fuel]; [lia |]); cbn [create_path_loop].
  - replace start with free by lia. now rewrite Hfree.
  - rewrite Hbelow by lia. apply IH; [lia | lia |].
    intros k Hk. apply Hbelow. lia.
Qed.

(** X19: [create_path] returns the path of the first free number.  When
    the files [gif\gif1.gif] to [gif\gif(n-1).gif] exist and [gif\gifn.gif]
    does not, the call started with [gif_number = 1], as the constructor
    does, ends with [gif_number = n] and returns [gif\gifn.gif]; after the
    call the directory [gif] exists and nothing else has changed. *)
Theorem create_path_first_free (exists_ : str -> bool) (free : Z)
  (fuel : nat) :
  1 <= free ->
  (forall k, 1 <= k < free -> exists_ (gif_path k) = true) ->
  exists_ (gif_path free) = false ->
  (Z.to_nat free <= fuel)%nat ->
  exists exists1,
    create_path fuel exists_ 1 = Ok (exists1, free, gif_path free)
    /\ exists1 directory = true
    /\ (forall p, p <> directory -> exists1 p = exists_ p).
Proof.
  intros Hfree Hbelow Hfirst Hfuel. unfold create_path.
  set (exists1 := if negb (exists_ directory) then mkdir exists_ directory
                  else exists_).
  assert (Hsame : forall p, p <> directory -> exists1 p = exists_ p).
  { intros p Hp. subst exists1.
    destruct (exists_ directory); [reflexivity |]. cbn [negb]. unfold mkdir.
    destruct (str_eqb p directory) eqn:E; [| reflexivity].
    apply str_eqb_eq in E. contradiction. }
  assert (Hpath : forall k, exists1 (gif_path k) = exists_ (gif_path k)).
  { intro k. apply Hsame. intro E.
    pose proof (gif_path_not_directory k) as Hk. rewrite E in Hk.
    discriminate Hk. }
  exists exists1.
  rewrite (create_path_loop_first_free exists1 free) with
    (todo := Z.to_nat (free - 1)); try lia.
  - cbn [bind fst snd]. split; [reflexivity |]. split; [| assumption].
    subst exists1. destruct (exists_ directory) eqn:E; [assumption |].
    reflexivity.
  - now rewrite Hpath.
  - intros k Hk. rewrite Hpath. now apply Hbelow.
Qed.

(** A file system that holds [gif\gif1.gif] only. *)
Lemma create_path_first_free_witness :
  1 <= 2
  /\ (forall k, 1 <= k < 2 -> str_eqb (gif_path 1) (gif_path k) = true)
  /\ str_eqb (gif_path 1) (gif_path 2) = false
  /\ (Z.to_nat 2 <= 2)%nat
  /\ exists exists1,
      create_path 2 (str_eqb (gif_path 1)) 1 = Ok (exists1, 2, gif_path 2)
      /\ exists1 directory = true
      /\ (forall p, p <> directory -> exists1 p = str_eqb (gif_path 1) p).
Proof.
  assert (H1 : 1 <= 2) by lia.
  assert (H2 : forall k, 1 <= k < 2 -> str_eqb (gif_path 1) (gif_path k) = true).
  { intros k Hk. assert (k = 1) as -> by lia. reflexivity. }
  assert (H3 : str_eqb (gif_path 1) (gif_path 2) = false) by reflexivity.
  assert (H4 : (Z.to_nat 2 <= 2)%nat) by (vm_compute; lia).
  split; [exact H1 |]. split; [exact H2 |]. split; [exact H3 |].
  split; [exact H4 |].
  exact (create_path_first_free (str_eqb (gif_path 1)) 2 2 H1 H2 H3 H4).
Defined.

End CommandLine.

(** ** The levels of a tree *)

Section Levels.
Import Pillow Tree WorkWithImages Props.

Lemma get_leaf_nodes_recursion_acc (d : Z) (n : QuadtreeNode)
  (acc : list QuadtreeNode) :
  get_leaf_nodes_recursion n d acc = acc ++ get_leaf_nodes_recursion n d [].
Proof.
  rewrite (get_leaf_nodes_recursion_first_cut d n [] acc eq_refl).
  now rewrite (get_leaf_nodes_recursion_first_cut d n [] [] eq_refl).
Qed.

Lemma get_leaf_nodes_recursion_four (d : Z) (n c0 c1 c2 c3 : QuadtreeNode) :
  cut d n = false ->
  childrens n = Some [c0; c1; c2; c3] ->
  get_leaf_nodes_recursion n d []
  = get_leaf_nodes_recursion c0 d [] ++ get_leaf_nodes_recursion c1 d []
    ++ get_leaf_nodes_recursion c2 d [] ++ get_leaf_nodes_recursion c3 d [].
Proof.
  intros Hcut Hsome.
  rewrite (get_leaf_nodes_recursion_unfold n), Hcut, Hsome. cbn [fold_left].
  rewrite (get_leaf_nodes_recursion_acc d c3), (get_leaf_nodes_recursion_acc d c2),
    (get_leaf_nodes_recursion_acc d c1).
  now rewrite <- !app_assoc.
Qed.

Lemma get_leaf_nodes_recursion_cut (d : Z) (n : QuadtreeNode) :
  cut d n = true -> get_leaf_nodes_recursion n d [] = [n].
Proof.
  intro Hcut. now rewrite (get_leaf_nodes_recursion_unfold n), Hcut.
Qed.

(** The traversal for depth [d + 1] replaces nodes of the traversal for
    depth [d] by descendants. *)
Lemma get_leaf_nodes_recursion_refines (image : Image) (d : Z) (b : box)
  (dn : Z) (n : QuadtreeNode) :
  built image b dn n ->
  dn <= d ->
  Forall (fun x => exists y,
            In y (get_leaf_nodes_recursion n d [])
            /\ subnode x y /\ exists b' d', built image b' d' y)
         (get_leaf_nodes_recursion n (d + 1) [])
  /\ (length (get_leaf_nodes_recursion n d [])
      <= length (get_leaf_nodes_recursion n (d + 1) []))%nat.
Proof.
  induction 1 as [b dn Hstop
                 | b dn f0 f1 f2 f3 c0 c1 c2 c3 Hstop Hsplit
                     H0 IH0 H1 IH1 H2 IH2 H3 IH3]; intro Hd.
  - pose proof (built_stop image b dn Hstop) as Hbuilt.
    rewrite !get_leaf_nodes_recursion_cut by reflexivity.
    split; [| reflexivity]. constructor; [| constructor].
    eexists. split; [now left |]. split; [constructor | eauto].
  - pose proof (built_split image b dn _ _ _ _ _ _ _ _ Hstop Hsplit H0 H1 H2 H3)
      as Hbuilt.
    destruct (built_children_depth image b dn _ _ _ _ Hsplit) as (D0 & D1 & D2 & D3).
    rewrite D0, D1, D2, D3 in *.
    set (n := set_childrens (node_init image b dn) (Some [c0; c1; c2; c3])) in *.
    assert (Hcut : forall k, cut k n = (dn =? k)) by reflexivity.
    assert (Hsome : childrens n = Some [c0; c1; c2; c3]) by reflexivity.
    assert (Hcut1 : cut (d + 1) n = false)
      by (rewrite Hcut; apply Z.eqb_neq; lia).
    rewrite (get_leaf_nodes_recursion_four (d + 1) n c0 c1 c2 c3 Hcut1 Hsome).
    destruct (Z.eq_dec dn d) as [-> | Hne].
    + rewrite (get_leaf_nodes_recursion_cut d n)
        by (rewrite Hcut; apply Z.eqb_refl).
      assert (Hchild : forall c b', built image b' (d + 1) c ->
                get_leaf_nodes_recursion c (d + 1) [] = [c]).
      { intros c b' Hc. apply get_leaf_nodes_recursion_cut. unfold cut.
        rewrite (proj1 (proj2 (built_fields image _ _ _ Hc))), Z.eqb_refl.
        apply orb_true_r. }
      rewrite (Hchild _ _ H0), (Hchild _ _ H1), (Hchild _ _ H2), (Hchild _ _ H3).
      cbn [app length]. split; [| lia].
      repeat constructor; exists n; (split; [now left |]);
        (split; [| eauto]);
        eapply subnode_child; try exact Hsome; try constructor; cbn; tauto.
    + assert (Hcut0 : cut d n = false)
        by (rewrite Hcut; apply Z.eqb_neq; lia).
      rewrite (get_leaf_nodes_recursion_four d n c0 c1 c2 c3 Hcut0 Hsome).
      destruct IH0 as [F0 L0]; [lia |]. destruct IH1 as [F1 L1]; [lia |].
      destruct IH2 as [F2 L2]; [lia |]. destruct IH3 as [F3 L3]; [lia |].
      split; [| rewrite !length_app; lia].
      repeat (apply Forall_app; split);
        (eapply Forall_impl; [| eassumption]); cbn;
        intros x (y & Hy & Hxy & Hby); exists y;
        (split; [| now split]); rewrite !in_app_iff; tauto.
Qed.

(** The traversal for depth [d + 1] is longer when a leaf lies below depth
    [d]. *)
Lemma get_leaf_nodes_recursion_longer (image : Image) (d : Z) (b : box)
  (dn : Z) (n : QuadtreeNode) :
  built image b dn n ->
  dn <= d ->
  (exists k, In k (leaf_depths n) /\ d < k) ->
  (length (get_leaf_nodes_recursion n d [])
   < length (get_leaf_nodes_recursion n (d + 1) []))%nat.
Proof.
  induction 1 as [b dn Hstop
                 | b dn f0 f1 f2 f3 c0 c1 c2 c3 Hstop Hsplit
                     H0 IH0 H1 IH1 H2 IH2 H3 IH3]; intros Hd (k & Hk & Hlt).
  - rewrite leaf_depths_unfold in Hk. cbn in Hk.
    rewrite node_init_childrens, node_init_depth in Hk. cbn in Hk.
    destruct Hk as [<- | []]. lia.
  - destruct (built_children_depth image b dn _ _ _ _ Hsplit) as (D0 & D1 & D2 & D3).
    rewrite D0, D1, D2, D3 in *.
    pose proof (get_leaf_nodes_recursion_refines image d _ _ _ H0) as R0.
    pose proof (get_leaf_nodes_recursion_refines image d _ _ _ H1) as R1.
    pose proof (get_leaf_nodes_recursion_refines image d _ _ _ H2) as R2.
    pose proof (get_leaf_nodes_recursion_refines image d _ _ _ H3) as R3.
    rewrite leaf_depths_unfold in Hk.
    set (n := set_childrens (node_init image b dn) (Some [c0; c1; c2; c3])) in *.
    assert (Hcut : forall j, cut j n = (dn =? j)) by reflexivity.
    assert (Hsome : childrens n = Some [c0; c1; c2; c3]) by reflexivity.
    rewrite Hsome in Hk. cbn [flat_map] in Hk. rewrite app_nil_r in Hk.
    assert (Hcut1 : cut (d + 1) n = false)
      by (rewrite Hcut; apply Z.eqb_neq; lia).
    rewrite (get_leaf_nodes_recursion_four (d + 1) n c0 c1 c2 c3 Hcut1 Hsome).
    destruct (Z.eq_dec dn d) as [-> | Hne].
    + rewrite (get_leaf_nodes_recursion_cut d n)
        by (rewrite Hcut; apply Z.eqb_refl).
      assert (Hchild : forall c b', built image b' (d + 1) c ->
                get_leaf_nodes_recursion c (d + 1) [] = [c]).
      { intros c b' Hc. apply get_leaf_nodes_recursion_cut. unfold cut.
        rewrite (proj1 (proj2 (built_fields image _ _ _ Hc))), Z.eqb_refl.
        apply orb_true_r. }
      rewrite (Hchild _ _ H0), (Hchild _ _ H1), (Hchild _ _ H2), (Hchild _ _ H3).
      cbn [app length]. lia.
    + assert (Hcut0 : cut d n = false)
        by (rewrite Hcut; apply Z.eqb_neq; lia).
      rewrite (get_leaf_nodes_recursion_four d n c0 c1 c2 c3 Hcut0 Hsome).
      destruct R0 as [_ L0]; [lia |]. destruct R1 as [_ L1]; [lia |].
      destruct R2 as [_ L2]; [lia |]. destruct R3 as [_ L3]; [lia |].
      rewrite !length_app. rewrite !in_app_iff in Hk.
      destruct Hk as [Hk | [Hk | [Hk | Hk]]];
        [assert (Hs := IH0 ltac:(lia) (ex_intro _ k (conj Hk Hlt)))
        |assert (Hs := IH1 ltac:(lia) (ex_intro _ k (conj Hk Hlt)))
        |assert (Hs := IH2 ltac:(lia) (ex_intro _ k (conj Hk Hlt)))
        |assert (Hs := IH3 ltac:(lia) (ex_intro _ k (conj Hk Hlt)))]; lia.
Qed.

(** X20: the levels are nested.  For a depth [d] with
    [0 <= d < max_depth], the leaf set for depth [d + 1] has more nodes than
    the one for depth [d], and each of its nodes is a node of the set
    for depth [d] or a descendant of one, with its region inside the region
    of that node. *)
Theorem leaf_sets_nested (image : Image) (t : QuadTree) (d : Z) :
  QuadTree_init image = Ok t ->
  0 <= d < max_depth t ->
  exists coarse fine,
    get_leaf_nodes t d = Ok coarse
    /\ get_leaf_nodes t (d + 1) = Ok fine
    /\ (length coarse < length fine)%nat
    /\ Forall (fun x => exists y,
                 In y coarse /\ subnode x y
                 /\ forall p, in_box p (border_box x) = true ->
                              in_box p (border_box y) = true)
              fine.
Proof.
  intros Hinit Hd.
  destruct (QuadTree_init_built image t Hinit) as (bbox & _ & Hbuilt).
  destruct (get_leaf_nodes_recursion_refines image d _ _ _ Hbuilt) as [Hall _];
    [lia |].
  pose proof (QuadTree_init_max_depth image t Hinit) as (_ & _ & Hdeep).
  assert (Hlen := get_leaf_nodes_recursion_longer image d _ _ _ Hbuilt
                    ltac:(lia) (ex_intro _ (max_depth t)
                                  (conj Hdeep (proj2 Hd)))).
  do 2 eexists.
  split; [apply get_leaf_nodes_within; lia |].
  split; [apply get_leaf_nodes_within; lia |].
  split; [assumption |].
  eapply Forall_impl; [| exact Hall]. cbn.
  intros x (y & Hy & Hxy & b' & d' & Hby). exists y.
  split; [assumption |]. split; [assumption |].
  intros p Hp. rewrite (proj1 (built_fields image _ _ _ Hby)).
  exact (built_region image p x y Hxy _ _ Hby Hp).
Qed.

(** The 2x2 checkerboard, depths 0 and 1. *)
Lemma leaf_sets_nested_witness :
  QuadTree_init checker2 = Ok checker2_tree
  /\ 0 <= 0 < max_depth checker2_tree
  /\ exists coarse fine,
      get_leaf_nodes checker2_tree 0 = Ok coarse
      /\ get_leaf_nodes checker2_tree (0 + 1) = Ok fine
      /\ (length coarse < length fine)%nat
      /\ Forall (fun x => exists y,
                   In y coarse /\ subnode x y
                   /\ forall p, in_box p (border_box x) = true ->
                                in_box p (border_box y) = true)
                fine.
Proof.
  assert (Hd : 0 <= 0 < max_depth checker2_tree) by (split; reflexivity).
  split; [exact QuadTree_init_checker2 |]. split; [exact Hd |].
  exact (leaf_sets_nested checker2 checker2_tree 0 QuadTree_init_checker2 Hd).
Defined.

Lemma built_average_color (image : Image) (b : box) (d : Z) (n : QuadtreeNode) :
  built image b d n ->
  average_color n = fst (color_from_histogram (crop_histogram image b)).
Proof. intro H. now destruct H. Qed.

(** X21: the picture of level 0.  The leaf set for depth 0 is the root
    alone, so the picture of level 0 is the black canvas of the size of the
    image with one rectangle on it: the bounding box of the image, filled
    with the colour that [color_from_histogram] gives for the histogram of
    that box. *)
Theorem create_image_level_zero (image : Image) (t : QuadTree)
  (borders : bool) :
  QuadTree_init image = Ok t ->
  exists bbox,
    getbbox image = Some bbox
    /\ get_leaf_nodes t 0 = Ok [root t]
    /\ create_image t 0 borders
       = Ok (mkPicture (size image)
               [mkRectangle (0, 0, inject_Z (fst (size image)),
                             inject_Z (snd (size image)))%Q (0, 0, 0) false;
                mkRectangle (box_of bbox)
                  (fst (color_from_histogram
                          (crop_histogram image (box_of bbox))))
                  borders]).
Proof.
  intro Hinit.
  destruct (QuadTree_init_built image t Hinit) as (bbox & Hbbox & Hbuilt).
  pose proof (QuadTree_init_max_depth_nonneg image t Hinit) as Hnonneg.
  destruct (QuadTree_init_inv image t Hinit) as (_ & _ & _ & Hw & Hh).
  pose proof (built_fields image _ _ _ Hbuilt) as (Hbox & Hdepth & _).
  assert (Hleaf : get_leaf_nodes t 0 = Ok [root t]).
  { rewrite get_leaf_nodes_within by assumption.
    rewrite get_leaf_nodes_recursion_cut; [reflexivity |].
    unfold cut. rewrite Hdepth. apply orb_true_r. }
  exists bbox. split; [assumption |]. split; [assumption |].
  unfold create_image. rewrite Hleaf. cbn [bind map].
  rewrite Hw, Hh, Hbox, (built_average_color image _ _ _ Hbuilt).
  now destruct (size image).
Qed.

(** The 2x2 checkerboard. *)
Lemma create_image_level_zero_witness :
  QuadTree_init checker2 = Ok checker2_tree
  /\ exists bbox,
      getbbox checker2 = Some bbox
      /\ get_leaf_nodes checker2_tree 0 = Ok [root checker2_tree]
      /\ create_image checker2_tree 0 true
         = Ok (mkPicture (size checker2)
                 [mkRectangle (0, 0, inject_Z (fst (size checker2)),
                               inject_Z (snd (size checker2)))%Q (0, 0, 0) false;
                  mkRectangle (box_of bbox)
                    (fst (color_from_histogram
                            (crop_histogram checker2 (box_of bbox))))
                    true]).
Proof.
  split; [exact QuadTree_init_checker2 |].
  exact (create_image_level_zero checker2 checker2_tree true
           QuadTree_init_checker2).
Defined.

End Levels.

(** ** Insertion below the centre line *)

Section BottomQuadrants.
Import Pillow Tree Props.

Lemma insert_point_descent_bottom (p : Point) (n : QuadtreeNode) :
  four_way n ->
  exists n' x x' visited visited',
    insert_point n p = Ok n'
    /\ (forall acc, find_node n p acc = Ok (x, acc ++ visited))
    /\ (forall acc, find_node n' p acc = Ok (x', acc ++ visited'))
    /\ Forall2 (fun v v' =>
                  childrens v <> None ->
                  y_ge p (node_center_point v) = true ->
                  node_points v' = node_points v ++ [p])
               visited visited'.
Proof.
  induction 1 as [n Hnone | n c0 c1 c2 c3 Hsome F0 IH0 F1 IH1 F2 IH2 F3 IH3].
  - exists (set_node_points n (node_points n ++ [p])), n,
      (set_node_points n (node_points n ++ [p])), [n],
      [set_node_points n (node_points n ++ [p])].
    split; [now apply insert_point_leaf |].
    split; [intro acc; now apply find_node_leaf |].
    split; [intro acc; now apply find_node_leaf |].
    constructor; [| constructor]. intros Hc. contradiction.
  - rewrite (insert_point_node n c0 c1 c2 c3 p Hsome).
    pose proof (y_lt_step n p) as Hy.
    assert (Hge : y_ge p (node_center_point n)
                  = negb (y_lt p (node_center_point n))).
    { unfold y_ge, y_lt, Qlt_bool. now rewrite negb_involutive. }
    destruct (step n p) as [| [| [| k]]] eqn:Hstep;
      [destruct IH0 as (c & x & x' & vis & vis' & -> & Hf & Hf' & Hall)
      |destruct IH1 as (c & x & x' & vis & vis' & -> & Hf & Hf' & Hall)
      |destruct IH2 as (c & x & x' & vis & vis' & -> & Hf & Hf' & Hall)
      |destruct IH3 as (c & x & x' & vis & vis' & -> & Hf & Hf' & Hall)];
      cbn [bind];
      match goal with
      | |- context [@Ok QuadtreeNode ?m] =>
          exists m, x, x', (n :: vis), (m :: vis')
      end;
      (split; [reflexivity |]);
      (split; [intro acc; rewrite (find_node_node n c0 c1 c2 c3 p acc Hsome), Hstep, Hf;
               now rewrite <- app_assoc |]);
      (split; [intro acc;
               erewrite find_node_node by reflexivity;
               match goal with
               | |- context [step ?m p] => change (step m p) with (step n p)
               end;
               rewrite Hstep, Hf'; now rewrite <- app_assoc |]);
      (constructor; [| assumption]); intros _ Hbottom;
      first [reflexivity
            | exfalso; rewrite Hge in Hbottom;
              assert (y_lt p (node_center_point n) = true) by (apply Hy; lia);
              destruct (y_lt p (node_center_point n)); discriminate].
Qed.

(** X22: what [insert_point] leaves on the way down.  On a tree whose
    nodes have no children or four, a node with children that the descent
    leaves for one of its two bottom quadrants (the point is not above the
    centre) gets the point appended to its own collection as well; so does
    the terminal node.  The point is stored once more for every such node of
    the descent path. *)
Theorem insert_point_bottom_quadrants (n : QuadtreeNode) (p : Point) :
  four_way n ->
  exists n' x x' visited visited',
    insert_point n p = Ok n'
    /\ find_node n p [] = Ok (x, visited)
    /\ find_node n' p [] = Ok (x', visited')
    /\ node_points x' = node_points x ++ [p]
    /\ Forall2 (fun v v' =>
                  childrens v <> None ->
                  y_ge p (node_center_point v) = true ->
                  node_points v' = node_points v ++ [p])
               visited visited'.
Proof.
  intro Hn.
  destruct (insert_point_descent_bottom p n Hn)
    as (n' & x & x' & vis & vis' & Hins & Hf & Hf' & Hall).
  destruct (insert_point_descent p n Hn)
    as (n1 & y & y' & vis1 & vis1' & Hins1 & Hg & Hg' & _ & Hp & _ & _).
  rewrite Hins in Hins1. injection Hins1 as <-.
  pose proof (Hf []) as E. rewrite (Hg []) in E. injection E as <- _.
  pose proof (Hf' []) as E'. rewrite (Hg' []) in E'. injection E' as <- _.
  exists n', y, y', vis, vis'.
  split; [assumption |]. split; [apply (Hf []) |]. split; [apply (Hf' []) |].
  split; assumption.
Qed.

(** The 2x2 checkerboard and a point of its bottom left pixel. *)
Lemma insert_point_bottom_quadrants_witness :
  four_way (root checker2_tree)
  /\ exists n' x x' visited visited',
      insert_point (root checker2_tree) (mkPoint (1 # 2) (3 # 2)) = Ok n'
      /\ find_node (root checker2_tree) (mkPoint (1 # 2) (3 # 2)) []
         = Ok (x, visited)
      /\ find_node n' (mkPoint (1 # 2) (3 # 2)) [] = Ok (x', visited')
      /\ node_points x' = node_points x ++ [mkPoint (1 # 2) (3 # 2)]
      /\ Forall2 (fun v v' =>
                    childrens v <> None ->
                    y_ge (mkPoint (1 # 2) (3 # 2)) (node_center_point v) = true ->
                    node_points v' = node_points v ++ [mkPoint (1 # 2) (3 # 2)])
                 visited visited'.
Proof.
  pose proof (QuadTree_init_four_way checker2 checker2_tree QuadTree_init_checker2)
    as Hfour.
  split; [exact Hfour |].
  exact (insert_point_bottom_quadrants (root checker2_tree)
           (mkPoint (1 # 2) (3 # 2)) Hfour).
Defined.

End BottomQuadrants.

(** ** The quality of a level *)

Section Quality.
Import Pillow Tree WorkWithImages Props.

Lemma get_leaf_nodes_recursion_quality (image : Image) (d : Z) (b : box)
  (dn : Z) (n : QuadtreeNode) :
  built image b dn n ->
  dn <= d <= MAX_DEPTH ->
  Forall (fun x => depth x = d
                   \/ (depth x < d /\ is_leaf x = true /\ childrens x = None
                       /\ (error x <= IZR ERROR_THRESHOLD)%R))
         (get_leaf_nodes_recursion n d []).
Proof.
  induction 1 as [b dn Hstop
                 | b dn f0 f1 f2 f3 c0 c1 c2 c3 Hstop Hsplit
                     H0 IH0 H1 IH1 H2 IH2 H3 IH3]; intro Hd.
  - rewrite get_leaf_nodes_recursion_cut by reflexivity.
    constructor; [| constructor].
    cbn [depth is_leaf childrens error set_is_leaf].
    rewrite node_init_depth, node_init_childrens.
    destruct (Z.eq_dec dn d) as [-> | Hne]; [now left | right].
    split; [lia |]. split; [reflexivity |]. split; [reflexivity |].
    apply stop_rule_true in Hstop. rewrite node_init_depth in Hstop.
    destruct Hstop as [Hdeep | Herr]; [lia | assumption].
  - destruct (built_children_depth image b dn _ _ _ _ Hsplit) as (D0 & D1 & D2 & D3).
    rewrite D0, D1, D2, D3 in *.
    set (n := set_childrens (node_init image b dn) (Some [c0; c1; c2; c3])) in *.
    assert (Hcut : forall j, cut j n = (dn =? j)) by reflexivity.
    assert (Hsome : childrens n = Some [c0; c1; c2; c3]) by reflexivity.
    destruct (Z.eq_dec dn d) as [-> | Hne].
    + rewrite (get_leaf_nodes_recursion_cut d n)
        by (rewrite Hcut; apply Z.eqb_refl).
      constructor; [now left | constructor].
    + assert (Hcut0 : cut d n = false)
        by (rewrite Hcut; apply Z.eqb_neq; lia).
      rewrite (get_leaf_nodes_recursion_four d n c0 c1 c2 c3 Hcut0 Hsome).
      repeat (apply Forall_app; split);
        [apply IH0 | apply IH1 | apply IH2 | apply IH3]; lia.
Qed.

(** X23: what a level guarantees.  In the leaf set for a depth [d] with
    [0 <= d <= max_depth], every node lies at depth [d] or is a leaf above
    depth [d] whose error is at most [ERROR_THRESHOLD]: the picture of level
    [d] is coarser than the threshold asks for only in rectangles of depth
    [d]. *)
Theorem get_leaf_nodes_quality (image : Image) (t : QuadTree) (d : Z) :
  QuadTree_init image = Ok t ->
  0 <= d <= max_depth t ->
  exists selected,
    get_leaf_nodes t d = Ok selected
    /\ Forall (fun x => depth x = d
                        \/ (depth x < d /\ is_leaf x = true
                            /\ childrens x = None
                            /\ (error x <= IZR ERROR_THRESHOLD)%R))
              selected.
Proof.
  intros Hinit Hd.
  destruct (QuadTree_init_built image t Hinit) as (bbox & _ & Hbuilt).
  pose proof (QuadTree_init_max_depth_le image t Hinit) as Hle.
  eexists. split; [apply get_leaf_nodes_within; lia |].
  apply (get_leaf_nodes_recursion_quality image d _ _ _ Hbuilt). lia.
Qed.

(** The 2x2 checkerboard at depth 1. *)
Lemma get_leaf_nodes_quality_witness :
  QuadTree_init checker2 = Ok checker2_tree
  /\ 0 <= 1 <= max_depth checker2_tree
  /\ exists selected,
      get_leaf_nodes checker2_tree 1 = Ok selected
      /\ Forall (fun x => depth x = 1
                          \/ (depth x < 1 /\ is_leaf x = true
                              /\ childrens x = None
                              /\ (error x <= IZR ERROR_THRESHOLD)%R))
                selected.
Proof.
  assert (Hd : 0 <= 1 <= max_depth checker2_tree)
    by (split; [lia | reflexivity]).
  split; [exact QuadTree_init_checker2 |]. split; [exact Hd |].
  exact (get_leaf_nodes_quality checker2 checker2_tree 1
           QuadTree_init_checker2 Hd).
Defined.

End Quality.

(** ** The frames of an animation *)

Section Frames.
Import Pillow Tree WorkWithImages Props.

Lemma add_img_to_gif_fold (images : list picture) :
  forall gif,
    frames (fold_left (fun g image => add_img_to_gif image g) images gif)
    = frames gif ++ images
    /\ frames_count (fold_left (fun g image => add_img_to_gif image g) images gif)
       = frames_count gif + Z.of_nat (length images)
    /\ gif_number (fold_left (fun g image => add_img_to_gif image g) images gif)
       = gif_number gif.
Proof.
  induction images as [| image images IH]; intro gif; cbn [fold_left].
  - rewrite app_nil_r. cbn. repeat split. lia.
  - destruct (IH (add_img_to_gif image gif)) as (-> & -> & ->).
    cbn [add_img_to_gif frames frames_count gif_number length].
    rewrite <- app_assoc. repeat split. lia.
Qed.

(** X24: the frames of a [CreatorGifImages].  [frames_count] stays the
    number of frames under [add_img_to_gif] and [create_gif].  After any
    frames have been added to a creator without frames, [create_gif] writes
    one animation with exactly these frames in the order in which they were
    added, leaves the creator without frames and with the next
    [gif_number]; on a creator without frames it raises [IndexError] and
    writes nothing. *)
Theorem create_gif_frames (number : Z) (images : list picture) :
  let gif := fold_left (fun g image => add_img_to_gif image g) images
                       (mkGif [] 0 number) in
  frames_count gif = Z.of_nat (length (frames gif))
  /\ frames gif = images
  /\ (images = [] -> create_gif gif = Raise IndexError)
  /\ (images <> [] ->
      create_gif gif = Ok (mkGif [] 0 (number + 1), [GifSaved images])).
Proof.
  cbv zeta.
  destruct (add_img_to_gif_fold images (mkGif [] 0 number)) as (Hf & Hc & Hn).
  cbn [frames frames_count gif_number app] in Hf, Hc, Hn.
  split; [rewrite Hc, Hf; lia |]. split; [assumption |].
  unfold create_gif. rewrite Hf, Hn.
  split; [now intros -> |].
  intro Hne. destruct images; [congruence | reflexivity].
Qed.

End Frames.

(** ** The leaves and the counter *)

Section CounterAndLeaves.
Import Pillow Tree Props Threads.

(** When a leaf lies below depth [d], the traversal for depth [d] stops at
    a node that has children. *)
Lemma get_leaf_nodes_recursion_inner (image : Image) (d : Z) (b : box)
  (dn : Z) (n : QuadtreeNode) :
  built image b dn n ->
  dn <= d ->
  (exists k, In k (leaf_depths n) /\ d < k) ->
  exists x, In x (get_leaf_nodes_recursion n d [])
            /\ is_leaf x = false /\ childrens x <> None.
Proof.
  induction 1 as [b dn Hstop
                 | b dn f0 f1 f2 f3 c0 c1 c2 c3 Hstop Hsplit
                     H0 IH0 H1 IH1 H2 IH2 H3 IH3]; intros Hd (k & Hk & Hlt).
  - rewrite leaf_depths_unfold in Hk. cbn in Hk.
    rewrite node_init_childrens, node_init_depth in Hk. cbn in Hk.
    destruct Hk as [<- | []]. lia.
  - destruct (built_children_depth image b dn _ _ _ _ Hsplit) as (D0 & D1 & D2 & D3).
    rewrite D0, D1, D2, D3 in *.
    rewrite leaf_depths_unfold in Hk.
    set (n := set_childrens (node_init image b dn) (Some [c0; c1; c2; c3])) in *.
    assert (Hcut : forall j, cut j n = (dn =? j)) by reflexivity.
    assert (Hsome : childrens n = Some [c0; c1; c2; c3]) by reflexivity.
    rewrite Hsome in Hk. cbn [flat_map] in Hk. rewrite app_nil_r in Hk.
    destruct (Z.eq_dec dn d) as [-> | Hne].
    + rewrite (get_leaf_nodes_recursion_cut d n)
        by (rewrite Hcut; apply Z.eqb_refl).
      exists n. split; [now left |]. split; [reflexivity |].
      rewrite Hsome. discriminate.
    + assert (Hcut0 : cut d n = false)
        by (rewrite Hcut; apply Z.eqb_neq; lia).
      rewrite (get_leaf_nodes_recursion_four d n c0 c1 c2 c3 Hcut0 Hsome).
      rewrite !in_app_iff in Hk.
      destruct Hk as [Hk | [Hk | [Hk | Hk]]];
        [destruct (IH0 ltac:(lia) (ex_intro _ k (conj Hk Hlt))) as (x & Hx & Hprops)
        |destruct (IH1 ltac:(lia) (ex_intro _ k (conj Hk Hlt))) as (x & Hx & Hprops)
        |destruct (IH2 ltac:(lia) (ex_intro _ k (conj Hk Hlt))) as (x & Hx & Hprops)
        |destruct (IH3 ltac:(lia) (ex_intro _ k (conj Hk Hlt))) as (x & Hx & Hprops)];
        exists x; (split; [| exact Hprops]); rewrite !in_app_iff; tauto.
Qed.

(** X1: [get_leaf_nodes(max_depth)] and the leaves.  For the tree of an
    image and any value [counter >= 0] that the run of the threads has left
    in [max_depth]: when no leaf lies below [counter] (as when no store of a
    report is lost, for instance in start order), [get_leaf_nodes(counter)]
    returns exactly the leaves of the tree, in pre-order, every one marked as
    a leaf and without children, and every marked node among them; when some
    leaf lies below [counter] (a lost update), the list that it returns holds
    a node that has children. *)
Theorem get_leaf_nodes_at_max_depth (image : Image) (t : QuadTree)
  (counter : Z) :
  QuadTree_init image = Ok t ->
  0 <= counter ->
  max_depth (with_max_depth t counter) = counter
  /\ (Forall (fun d => d <= counter) (leaf_depths (root t)) ->
      get_leaf_nodes (with_max_depth t counter) counter
      = Ok (leaves (root t)))
  /\ ((exists k, In k (leaf_depths (root t)) /\ counter < k) ->
      exists selected x,
        get_leaf_nodes (with_max_depth t counter) counter = Ok selected
        /\ In x selected /\ is_leaf x = false /\ childrens x <> None)
  /\ Forall (fun x => is_leaf x = true /\ childrens x = None
                      /\ subnode x (root t))
            (leaves (root t))
  /\ (forall x, subnode x (root t) -> is_leaf x = true ->
                In x (leaves (root t))).
Proof.
  intros Hinit Hcounter.
  destruct (QuadTree_init_built image t Hinit) as (bbox & _ & Hbuilt).
  assert (Hwithin : get_leaf_nodes (with_max_depth t counter) counter
                    = Ok (get_leaf_nodes_recursion (root t) counter []))
    by exact (get_leaf_nodes_within (with_max_depth t counter) counter
                (Z.le_refl counter)).
  split; [reflexivity |]. split; [| split].
  - intro Hall. rewrite Hwithin.
    now rewrite (get_leaf_nodes_recursion_leaves image _ _ _ _ Hbuilt
                   (or_intror Hall)).
  - intro Hdeep.
    destruct (get_leaf_nodes_recursion_inner image counter _ _ _ Hbuilt
                Hcounter Hdeep) as (x & Hx & Hprops).
    exists (get_leaf_nodes_recursion (root t) counter []), x.
    split; [assumption |]. split; assumption.
  - exact (built_leaves image _ _ _ Hbuilt).
Qed.

(** The 4x4 image.  With the counter at 2, as in start order, the seven
    leaves are returned; with the counter at 1, as after the lost update, a
    node that has children is. *)
Lemma get_leaf_nodes_at_max_depth_witness :
  QuadTree_init nested4 = Ok nested4_tree
  /\ 0 <= 2
  /\ 0 <= 1
  /\ get_leaf_nodes (with_max_depth nested4_tree 2) 2
     = Ok (leaves (root nested4_tree))
  /\ length (leaves (root nested4_tree)) = 7%nat
  /\ exists selected x,
      get_leaf_nodes (with_max_depth nested4_tree 1) 1 = Ok selected
      /\ In x selected /\ is_leaf x = false /\ childrens x <> None.
Proof.
  assert (H2 : 0 <= 2) by lia.
  assert (H1 : 0 <= 1) by lia.
  destruct max_depth_under_lost_update as (Hdepths & _ & _).
  split; [exact QuadTree_init_nested4 |]. split; [exact H2 |].
  split; [exact H1 |].
  split; [| split; [reflexivity |]].
  - apply (get_leaf_nodes_at_max_depth nested4 nested4_tree 2
             QuadTree_init_nested4 H2).
    rewrite Hdepths. repeat constructor; lia.
  - apply (get_leaf_nodes_at_max_depth nested4 nested4_tree 1
             QuadTree_init_nested4 H1).
    exists 2. rewrite Hdepths. split; [now left | lia].
Defined.

End CounterAndLeaves.
